(** * text-corpus-tool: the text normalizer, the record builder, the
      store gateway and the request handlers, embedded from the
      JavaScript sources.

    - [cleanText], [validateForm], [createDocumentStructure] and
      [updateContentStats] come from the browser script (the variant with
      automatic cleaning, and the variant of [public/script.js] without
      it);
    - [MongoService] comes from [services/MongoService.js];
    - the handlers of [Server] come from [server.js].

    JavaScript strings are sequences of UTF-16 code units; they are
    modelled as lists of [N].  Regular expressions are given as syntax
    trees of the literals that appear in the source and are run by a
    backtracking matcher that follows the ECMAScript semantics (greedy
    quantifiers, leftmost alternative first, captures).  The gateway's
    methods are computations in a state-and-error monad over a world
    that holds the service's fields, the collection, the caller's
    objects and the log of the commands sent to the store.

    The store is modelled as far as the gateway uses it: conditions of
    equality and [$regex] on paths, with what the query language does on
    arrays and on missing fields, the update operators [$set] and
    [$inc], and the [$group] stage.  Strings are compared as the driver
    sends them, in UTF-8, where a lone surrogate becomes U+FFFD.  Where
    the model does not say what the store answers (other operators,
    patterns outside the literal fragment, paths with an index) the call
    ends in the error [OutsideModel], of which nothing is proved.  Once
    the connection is made the store is taken to answer the commands of
    the fragment: a network that fails in the middle of a call and the
    size limits of the wire format are not modelled.

    The first part holds the definitions, the second the properties. *)

From Stdlib Require Import List NArith ZArith QArith Ascii String DecimalString DecimalN Lia Bool.
From stdpp Require Import base option list strings gmap numbers.
Import ListNotations.

Set Warnings "-register-all".

(* ===================================================================== *)
(** ** JavaScript strings and values *)
(* ===================================================================== *)

Definition code_unit := N.
Definition jsstring := list code_unit.

(** A string literal of the source, as code units (ASCII literals only). *)
Definition js (s : string) : jsstring :=
  map N_of_ascii (list_ascii_of_string s).

(** JavaScript values, as far as the sources use them.  Numbers are the
    integers (every numeric field of a record is an integer) and [VNaN];
    [VOid] is a storage key generated by the store. *)
Inductive value :=
| VUndefined
| VNull
| VBool (b : bool)
| VNum (n : Z)
| VNaN
| VStr (s : jsstring)
| VOid (k : nat)
| VArr (l : list value)
| VObj (fields : list (string * value)).

(** [ToBoolean]. *)
Definition truthy (v : value) : bool :=
  match v with
  | VUndefined | VNull | VNaN => false
  | VBool b => b
  | VNum n => negb (n =? 0)%Z
  | VStr s => match s with [] => false | _ => true end
  | VOid _ | VArr _ | VObj _ => true
  end.

(** [typeof v === 'string']. *)
Definition typeof_string (v : value) : bool :=
  match v with VStr _ => true | _ => false end.

(** What a call can throw. *)
Inductive error :=
| JsError (message : string)        (* throw new Error(message) *)
| TypeError                         (* property access on null, a call of a
                                       non-function, a value that cannot be
                                       made a string *)
| MongoNetworkError                 (* the server cannot be reached *)
| MongoServerError (code : N)        (* the server rejects the command *)
| OutsideModel.                     (* the model does not say what the store
                                       answers: a pattern, an operator, a
                                       path or a limit outside the modelled
                                       fragment *)

Inductive result (A : Type) :=
| Ok (a : A)
| Throw (e : error).
Arguments Ok {A} a.
Arguments Throw {A} e.

(** Sequencing of steps that may throw. *)
Definition and_then {A B} (r : result A) (k : A -> result B) : result B :=
  match r with
  | Ok a => k a
  | Throw e => Throw e
  end.

(* ===================================================================== *)
(** ** Character classes of the regular expressions *)
(* ===================================================================== *)

Section CharClasses.
Local Open Scope N_scope.

Definition charclass := code_unit -> bool.

Definition in_range (lo hi : N) : charclass :=
  fun c => (lo <=? c) && (c <=? hi).

Definition one_of (l : list N) : charclass :=
  fun c => existsb (N.eqb c) l.

Definition cls_not (p : charclass) : charclass := fun c => negb (p c).

Definition cls_or (p q : charclass) : charclass := fun c => p c || q c.

Definition chr (a : ascii) : charclass := N.eqb (N_of_ascii a).

(** [\d] *)
Definition cls_digit : charclass := in_range 48 57.

(** [\w]: [A-Za-z0-9_] *)
Definition cls_word : charclass :=
  cls_or (in_range 97 122)
    (cls_or (in_range 65 90) (cls_or (in_range 48 57) (N.eqb 95))).

(** [\s]: the WhiteSpace and LineTerminator code points of ECMAScript. *)
Definition cls_space : charclass :=
  cls_or
    (one_of [9; 10; 11; 12; 13; 32; 160; 5760; 8232; 8233; 8239; 8287;
             12288; 65279])
    (in_range 8192 8202).

(** The line terminators that [^] and [$] see under the [m] flag. *)
Definition line_terminator : charclass := one_of [10; 13; 8232; 8233].

Definition LF : code_unit := 10.
Definition SPACE : code_unit := 32.
End CharClasses.

(* ===================================================================== *)
(** ** Regular expressions: syntax, backtracking matcher, global replace *)
(* ===================================================================== *)

(** The operators that occur in the source's literals.  Every quantifier
    of the source is applied to a single character class, so repetition
    is [RRep min p]: greedy, at least [min] times, unbounded. *)
Inductive regex :=
| REmpty
| RChar (p : charclass)
| RSeq (r1 r2 : regex)
| RAlt (r1 r2 : regex)
| RRep (min : nat) (p : charclass)
| RGroup (i : nat) (r : regex)
| RBol (multiline : bool)
| REol (multiline : bool).

(** A position in the subject: the code unit just before it (if any) and
    the rest of the subject. *)
Definition position := (option code_unit * jsstring)%type.
Definition captures := list (nat * jsstring).
Definition outcome := option (position * captures).
Definition continuation := position -> captures -> outcome.

Definition orelse (a : outcome) (b : unit -> outcome) : outcome :=
  match a with Some x => Some x | None => b tt end.

(** Greedy repetition of a class: take one more unit when possible and
    fall back to stopping here when the rest of the pattern fails. *)
Fixpoint rep (p : charclass) (min : nat) (k : continuation)
    (prev : option code_unit) (s : jsstring) (cs : captures) : outcome :=
  let stop := fun _ : unit =>
    match min with O => k (prev, s) cs | S _ => None end in
  match s with
  | c :: s' =>
      if p c then orelse (rep p (pred min) k (Some c) s' cs) stop
      else stop tt
  | [] => stop tt
  end.

Definition at_line_start (multiline : bool) (pos : position) : bool :=
  match fst pos with
  | None => true
  | Some c => multiline && line_terminator c
  end.

Definition at_line_end (multiline : bool) (pos : position) : bool :=
  match snd pos with
  | [] => true
  | c :: _ => multiline && line_terminator c
  end.

(** The text between two positions of the same subject. *)
Definition consumed (from to : position) : jsstring :=
  take (length (snd from) - length (snd to)) (snd from).

Fixpoint set_capture (i : nat) (s : jsstring) (cs : captures) : captures :=
  match cs with
  | [] => [(i, s)]
  | (j, t) :: cs' =>
      if Nat.eqb i j then (i, s) :: cs' else (j, t) :: set_capture i s cs'
  end.

Fixpoint get_capture (i : nat) (cs : captures) : jsstring :=
  match cs with
  | [] => []
  | (j, t) :: cs' => if Nat.eqb i j then t else get_capture i cs'
  end.

Fixpoint rmatch (r : regex) (k : continuation) (pos : position)
    (cs : captures) : outcome :=
  match r with
  | REmpty => k pos cs
  | RChar p =>
      match snd pos with
      | c :: s' => if p c then k (Some c, s') cs else None
      | [] => None
      end
  | RSeq r1 r2 => rmatch r1 (rmatch r2 k) pos cs
  | RAlt r1 r2 => orelse (rmatch r1 k pos cs) (fun _ => rmatch r2 k pos cs)
  | RRep min p => rep p min k (fst pos) (snd pos) cs
  | RGroup i r' =>
      rmatch r' (fun pos' cs' => k pos' (set_capture i (consumed pos pos') cs'))
        pos cs
  | RBol ml => if at_line_start ml pos then k pos cs else None
  | REol ml => if at_line_end ml pos then k pos cs else None
  end.

(** One attempt at a given position: the length of the match and the
    captures. *)
Definition exec (r : regex) (prev : option code_unit) (s : jsstring)
  : option (nat * captures) :=
  match rmatch r (fun pos cs => Some (pos, cs)) (prev, s) [] with
  | Some (pos', cs) => Some (length s - length (snd pos'), cs)
  | None => None
  end.

(** Replacement templates: literal text, [$n] and [$&]. *)
Inductive titem :=
| TLit (s : jsstring)
| TGroup (i : nat)
| TWhole.

Definition template := list titem.

Definition expand (t : template) (matched : jsstring) (cs : captures)
  : jsstring :=
  flat_map (fun it =>
    match it with
    | TLit s => s
    | TGroup i => get_capture i cs
    | TWhole => matched
    end) t.

(** [subject.replace(/r/g, t)]: scan from the left; at each position not
    covered by the previous match try the pattern, emit the replacement
    for a match and the unit itself otherwise; an empty match advances by
    one unit.  [skip] counts the units of the current match that are
    still to be passed over. *)
Fixpoint replace_from (r : regex) (t : template) (skip : nat)
    (prev : option code_unit) (s : jsstring) : jsstring :=
  match skip with
  | S n =>
      match s with
      | c :: s' => replace_from r t n (Some c) s'
      | [] => []
      end
  | O =>
      match exec r prev s with
      | Some (len, cs) =>
          expand t (take len s) cs ++
          match s with
          | c :: s' =>
              match len with
              | O => c :: replace_from r t 0 (Some c) s'
              | S n => replace_from r t n (Some c) s'
              end
          | [] => []
          end
      | None =>
          match s with
          | c :: s' => c :: replace_from r t 0 (Some c) s'
          | [] => []
          end
      end
  end.

Definition replace_all (r : regex) (t : template) (s : jsstring) : jsstring :=
  replace_from r t 0 None s.

(** [String.prototype.trim]: strips WhiteSpace and LineTerminator units
    (the class [\s]) from both ends. *)
Fixpoint trim_start (s : jsstring) : jsstring :=
  match s with
  | c :: s' => if cls_space c then trim_start s' else s
  | [] => []
  end.

Definition trim (s : jsstring) : jsstring :=
  rev (trim_start (rev (trim_start s))).

(** A run of literal units. *)
Fixpoint rlit (s : jsstring) : regex :=
  match s with
  | [] => REmpty
  | [c] => RChar (N.eqb c)
  | c :: s' => RSeq (RChar (N.eqb c)) (rlit s')
  end.

Fixpoint rseq (rs : list regex) : regex :=
  match rs with
  | [] => REmpty
  | [r] => r
  | r :: rs' => RSeq r (rseq rs')
  end.

(* ===================================================================== *)
(** ** The text normalizer: [cleanText] *)
(* ===================================================================== *)

Module Patterns.
Local Open Scope N_scope.

(** [/['']/g]: both units of the class are U+0027 in the source file. *)
Definition apostrophes : regex := RChar (one_of [39; 39]).
(** [/[""]/g]: both units of the class are U+0022 in the source file. *)
Definition quotes : regex := RChar (one_of [34; 34]).
(** The three mis-decoded sequences: U+00E2 U+20AC followed by U+00A6,
    U+201D and U+201C. *)
Definition ellipsis : regex := rlit [226; 8364; 166].
Definition em_dash : regex := rlit [226; 8364; 8221].
Definition en_dash : regex := rlit [226; 8364; 8220].

(** [/^\s*\d+\s*$/gm] *)
Definition page_number : regex :=
  rseq [RBol true; RRep 0 cls_space; RRep 1 cls_digit; RRep 0 cls_space;
        REol true].

(** [/(\w+)-\s*\n\s*(\w+)/g] *)
Definition hyphenation : regex :=
  rseq [RGroup 1 (RRep 1 cls_word); RChar (chr "-"); RRep 0 cls_space;
        RChar (N.eqb LF); RRep 0 cls_space; RGroup 2 (RRep 1 cls_word)].

(** The class [[^\S\n]]: white space other than the line feed. *)
Definition blank : charclass :=
  cls_not (cls_or (cls_not cls_space) (N.eqb LF)).

(** [/[^\S\n]+/g] *)
Definition blanks : regex := RRep 1 blank.

(** [/\n{3,}/g] *)
Definition line_breaks : regex := RRep 3 (N.eqb LF).

(** The class [[ \t]]. *)
Definition space_or_tab : charclass := one_of [32; 9].

(** [/^[ \t]+|[ \t]+$/gm] *)
Definition line_edges : regex :=
  RAlt (RSeq (RBol true) (RRep 1 space_or_tab))
       (RSeq (RRep 1 space_or_tab) (REol true)).

(** [/\[\d+\]/g] *)
Definition citation : regex :=
  rseq [RChar (chr "["); RRep 1 cls_digit; RChar (chr "]")].

(** The class [[.,!?;:]]. *)
Definition punct : charclass := one_of [46; 44; 33; 63; 59; 58].

(** [/\s+([.,!?;:])/g] *)
Definition space_before_punct : regex :=
  RSeq (RRep 1 cls_space) (RGroup 1 (RChar punct)).

(** [/([.,!?;:])\s*([.,!?;:])/g] *)
Definition adjacent_punct : regex :=
  rseq [RGroup 1 (RChar punct); RRep 0 cls_space; RGroup 2 (RChar punct)].

(** [/https?:\/\/[^\s]+/g] *)
Definition url : regex :=
  rseq [rlit (js "http"); RAlt (RChar (chr "s")) REmpty; rlit (js "://");
        RRep 1 (cls_not cls_space)].

(** [/[\w.-]+@[\w.-]+\.\w+/g] *)
Definition email : regex :=
  let local := cls_or cls_word (one_of [46; 45]) in
  rseq [RRep 1 local; RChar (chr "@"); RRep 1 local; RChar (chr ".");
        RRep 1 cls_word].
End Patterns.

(** The three built-ins that [cleanText] calls on [cleaned].  They are
    methods of strings and do not throw on a string; called on anything
    else the call throws a [TypeError] ([null] and [undefined] have no
    properties, and the other values have no such methods).  [nfc] stands
    for [String.prototype.normalize('NFC')], a built-in of the host whose
    tables are not part of the sources. *)
Definition call_normalize (nfc : jsstring -> jsstring) (cleaned : value)
  : result value :=
  match cleaned with
  | VStr s => Ok (VStr (nfc s))
  | _ => Throw TypeError
  end.

Definition call_replace (r : regex) (t : template) (cleaned : value)
  : result value :=
  match cleaned with
  | VStr s => Ok (VStr (replace_all r t s))
  | _ => Throw TypeError
  end.

Definition call_trim (cleaned : value) : result value :=
  match cleaned with
  | VStr s => Ok (VStr (trim s))
  | _ => Throw TypeError
  end.

(** The assignments to [cleaned], in the order of the source. *)
Definition cleaning_steps (nfc : jsstring -> jsstring)
  : list (value -> result value) :=
  [ (* 1. Unicode canonical composition *)
    call_normalize nfc;
    (* 2. OCR/PDF artefacts *)
    call_replace Patterns.apostrophes [TLit (js "'")];
    call_replace Patterns.quotes [TLit [34%N]];
    call_replace Patterns.ellipsis [TLit (js "...")];
    call_replace Patterns.em_dash [TLit (js "--")];
    call_replace Patterns.en_dash [TLit (js "-")];
    (* 3. page numbers on their own line *)
    call_replace Patterns.page_number [];
    (* 4. hyphenation at line breaks *)
    call_replace Patterns.hyphenation [TGroup 1; TGroup 2];
    (* 5. runs of blanks *)
    call_replace Patterns.blanks [TLit (js " ")];
    (* 6. more than two line breaks *)
    call_replace Patterns.line_breaks [TLit [LF; LF]];
    (* 7. blanks at the edges of lines *)
    call_replace Patterns.line_edges [];
    (* 8. citation markers *)
    call_replace Patterns.citation [];
    (* 9. spacing around punctuation *)
    call_replace Patterns.space_before_punct [TGroup 1];
    call_replace Patterns.adjacent_punct [TGroup 1; TLit (js " "); TGroup 2];
    (* 10. URLs *)
    call_replace Patterns.url [];
    (* 11. e-mail addresses *)
    call_replace Patterns.email [];
    (* 12. final trim *)
    call_trim ].

(** The body of [cleanText] after its first test: [let cleaned = text],
    then the assignments one after the other, each of which may throw. *)
Definition cleanText_steps (nfc : jsstring -> jsstring) (text : value)
  : result value :=
  fold_left and_then (cleaning_steps nfc) (Ok text).

(** [cleanText(text)] as a call: its answer, or what it throws. *)
Definition cleanText_call (nfc : jsstring -> jsstring) (text : value)
  : result value :=
  if negb (truthy text) || negb (typeof_string text) then Ok (VStr [])
  else cleanText_steps nfc text.

(** [cleanText(text)] as a function from values to strings: the same
    steps on the string that passed the first test.  (The properties
    show that this is the answer of the call for every value.) *)
Definition cleanText (nfc : jsstring -> jsstring) (text : value) : jsstring :=
  if negb (truthy text) || negb (typeof_string text) then []
  else
    match text with
    | VStr raw =>
        let cleaned := raw in
        (* 1. Unicode canonical composition *)
        let cleaned := nfc cleaned in
        (* 2. OCR/PDF artefacts *)
        let cleaned := replace_all Patterns.apostrophes [TLit (js "'")] cleaned in
        let cleaned := replace_all Patterns.quotes [TLit [34%N]] cleaned in
        let cleaned := replace_all Patterns.ellipsis [TLit (js "...")] cleaned in
        let cleaned := replace_all Patterns.em_dash [TLit (js "--")] cleaned in
        let cleaned := replace_all Patterns.en_dash [TLit (js "-")] cleaned in
        (* 3. page numbers on their own line *)
        let cleaned := replace_all Patterns.page_number [] cleaned in
        (* 4. hyphenation at line breaks *)
        let cleaned :=
          replace_all Patterns.hyphenation [TGroup 1; TGroup 2] cleaned in
        (* 5. runs of blanks *)
        let cleaned := replace_all Patterns.blanks [TLit (js " ")] cleaned in
        (* 6. more than two line breaks *)
        let cleaned := replace_all Patterns.line_breaks [TLit [LF; LF]] cleaned in
        (* 7. blanks at the edges of lines *)
        let cleaned := replace_all Patterns.line_edges [] cleaned in
        (* 8. citation markers *)
        let cleaned := replace_all Patterns.citation [] cleaned in
        (* 9. spacing around punctuation *)
        let cleaned :=
          replace_all Patterns.space_before_punct [TGroup 1] cleaned in
        let cleaned :=
          replace_all Patterns.adjacent_punct
            [TGroup 1; TLit (js " "); TGroup 2] cleaned in
        (* 10. URLs *)
        let cleaned := replace_all Patterns.url [] cleaned in
        (* 11. e-mail addresses *)
        let cleaned := replace_all Patterns.email [] cleaned in
        (* 12. final trim *)
        trim cleaned
    | _ => []   (* not reached: the first test lets only strings through *)
    end.

(* ===================================================================== *)
(** ** The record builder: [createDocumentStructure] *)
(* ===================================================================== *)

(** What the builder reads from the page and from the host. *)
Record form := {
  content_title : jsstring;
  content_author : jsstring;
  content_type_field : jsstring;
  content_language : jsstring;
  content_publisher : jsstring;
  content_isbn : jsstring;
  content_genre : jsstring;
  content_chapter : jsstring;
  content_url : jsstring;
  training_weight : jsstring;
  content_text_field : jsstring
}.

Record host := {
  date_now : N;              (* Date.now() *)
  iso_now : jsstring;        (* new Date().toISOString() *)
  random36 : jsstring        (* Math.random().toString(36) *)
}.

(** [Math.ceil(n / 4)] on a length. *)
Definition ceil_div4 (n : nat) : nat :=
  n / 4 + (if Nat.eqb (n mod 4) 0 then 0 else 1).

(** [s || null] on a string. *)
Definition or_null (s : jsstring) : option jsstring :=
  if truthy (VStr s) then Some s else None.

(** [s.substr(start, len)] for non-negative arguments. *)
Definition substr (start len : nat) (s : jsstring) : jsstring :=
  take len (drop start s).

(** Decimal rendering of a non-negative integer. *)
Definition decimal (n : N) : jsstring :=
  js (NilZero.string_of_uint (N.to_uint n)).

Section ParseInt.
Local Open Scope N_scope.

Definition digit_value (radix : N) (c : code_unit) : option N :=
  let d :=
    if in_range 48 57 c then Some (c - 48)
    else if in_range 97 122 c then Some (c - 87)
    else if in_range 65 90 c then Some (c - 55)
    else None in
  match d with
  | Some v => if v <? radix then Some v else None
  | None => None
  end.

(** The value of the longest prefix of digits; [None] when it is empty. *)
Fixpoint digits_prefix (radix : N) (acc : option N) (s : jsstring)
  : option N :=
  match s with
  | c :: s' =>
      match digit_value radix c with
      | Some v =>
          digits_prefix radix
            (Some (match acc with Some a => a * radix + v | None => v end)) s'
      | None => acc
      end
  | [] => acc
  end.

(** A Number as [parseInt] answers it: an integer that a binary64 float
    holds, [NaN], or an infinity. *)
Inductive number :=
| Finite (n : Z)
| NaN
| Infinity (negative : bool).

(** The binary64 float nearest to a non-negative integer, ties going to
    the even significand; nothing when that is past the largest float.
    Below [2^53] every integer is a float; from there on the 53 leading
    bits are kept. *)
Definition binary64 (n : N) : option N :=
  if n <? 2 ^ 53 then Some n
  else
    let scale := 2 ^ (N.log2 n - 52) in
    let q := n / scale in
    let r := n mod scale in
    let q :=
      if 2 * r <? scale then q
      else if scale <? 2 * r then q + 1
      else if N.even q then q else q + 1 in
    if 2 ^ 1024 <=? q * scale then None else Some (q * scale).

(** [parseInt(s)] without a radix argument: white space and a sign are
    passed over, [0x] or [0X] announces radix 16, and the longest stretch
    of digits is read; its value is answered as a Number, so rounded to
    the nearest float.  (For a decimal numeral of more than 20 digits the
    language lets an engine approximate; the correctly rounded value is
    what V8 answers.) *)
Definition parseInt (s : jsstring) : number :=
  let s := trim_start s in
  let '(negative, s) :=
    match s with
    | 45 :: s' => (true, s')
    | 43 :: s' => (false, s')
    | _ => (false, s)
    end in
  let '(radix, s) :=
    match s with
    | 48 :: 120 :: s' => (16, s')
    | 48 :: 88 :: s' => (16, s')
    | _ => (10, s)
    end in
  match digits_prefix radix None s with
  | Some n =>
      match binary64 n with
      | Some m => Finite (if negative : bool then (- Z.of_N m)%Z else Z.of_N m)
      | None => Infinity negative
      end
  | None => NaN
  end.
End ParseInt.

Module Schema.
Record attribution := {
  author : jsstring;
  title : jsstring;
  publisher : option jsstring;
  isbn : option jsstring;
  publication_date : option jsstring;
  source_url : option jsstring;
  content_type : jsstring
}.

Record content_metadata := {
  language : jsstring;
  topic_category : list jsstring;
  genre : option jsstring;
  chapter_section : option jsstring;
  page_numbers : option jsstring
}.

Record opt_out_status := {
  has_opted_out : bool;
  opt_out_mechanism : jsstring;
  last_checked : jsstring
}.

Record copyright_compliance := {
  license_status : jsstring;
  fair_use_assessment : jsstring;
  opt_out : opt_out_status;
  compliance_date : jsstring
}.

Record lineage_step := {
  step : jsstring;
  timestamp : jsstring;
  tool_used : jsstring
}.

Record provenance := {
  acquisition_date : jsstring;
  acquisition_method : jsstring;
  original_publication_date : jsstring;
  data_lineage : list lineage_step
}.

Record training_metadata := {
  token_count : nat;
  character_count : nat;
  processing_status : jsstring;
  weighting : number
}.

Record ai_act_compliance := {
  summary_included : bool;
  transparency_level : jsstring;
  documented_for_authorities : bool
}.

Record document_record := {
  document_id : jsstring;
  content_text : jsstring;
  attribution_of : attribution;
  content_metadata_of : content_metadata;
  copyright_compliance_of : copyright_compliance;
  provenance_of : provenance;
  training_metadata_of : training_metadata;
  ai_act_compliance_of : ai_act_compliance;
  created_at : jsstring;
  updated_at : jsstring;
  version : Z
}.
End Schema.

(** The parts of the record that both variants of the builder share:
    everything but the text, its counts and the lineage note. *)
Definition assemble (f : form) (h : host) (contentText lineage : jsstring)
  : Schema.document_record :=
  let title := trim (content_title f) in
  let author := trim (content_author f) in
  let contentType := content_type_field f in
  let language := content_language f in
  let publisher := trim (content_publisher f) in
  let isbn := trim (content_isbn f) in
  let genre := trim (content_genre f) in
  let chapter := trim (content_chapter f) in
  let sourceUrl := trim (content_url f) in
  let weight := parseInt (training_weight f) in
  let documentId :=
    js "text_content_" ++ decimal (date_now h) ++ js "_"
      ++ substr 2 9 (random36 h) in
  let currentDate := iso_now h in
  {| Schema.document_id := documentId;
     Schema.content_text := contentText;
     Schema.attribution_of :=
       {| Schema.author := author;
          Schema.title := title;
          Schema.publisher := or_null publisher;
          Schema.isbn := or_null isbn;
          Schema.publication_date := None;
          Schema.source_url := or_null sourceUrl;
          Schema.content_type := contentType |};
     Schema.content_metadata_of :=
       {| Schema.language := language;
          Schema.topic_category := [js "other"];
          Schema.genre := or_null genre;
          Schema.chapter_section := or_null chapter;
          Schema.page_numbers := None |};
     Schema.copyright_compliance_of :=
       {| Schema.license_status := js "user_provided";
          Schema.fair_use_assessment := js "not_assessed";
          Schema.opt_out :=
            {| Schema.has_opted_out := false;
               Schema.opt_out_mechanism := js "not_applicable";
               Schema.last_checked := currentDate |};
          Schema.compliance_date := currentDate |};
     Schema.provenance_of :=
       {| Schema.acquisition_date := currentDate;
          Schema.acquisition_method := js "manual_input";
          Schema.original_publication_date := currentDate;
          Schema.data_lineage :=
            [ {| Schema.step := lineage;
                 Schema.timestamp := currentDate;
                 Schema.tool_used := js "text-corpus-tool v1.0" |} ] |};
     Schema.training_metadata_of :=
       {| Schema.token_count := ceil_div4 (length contentText);
          Schema.character_count := length contentText;
          Schema.processing_status := js "ready_for_training";
          Schema.weighting := weight |};
     Schema.ai_act_compliance_of :=
       {| Schema.summary_included := true;
          Schema.transparency_level := js "full_disclosure";
          Schema.documented_for_authorities := true |};
     Schema.created_at := currentDate;
     Schema.updated_at := currentDate;
     Schema.version := 1 |}.

(** The script with automatic cleaning. *)
Module CleaningScript.
Definition createDocumentStructure (nfc : jsstring -> jsstring)
    (f : form) (h : host) : Schema.document_record :=
  let rawContentText := trim (content_text_field f) in
  let contentText := cleanText nfc (VStr rawContentText) in
  assemble f h contentText
    (js "Manual text input via corpus tool (auto-cleaned)").
End CleaningScript.

(** [public/script.js]: the same builder without the cleaning step. *)
Module PublicScript.
Definition createDocumentStructure (f : form) (h : host)
  : Schema.document_record :=
  let contentText := trim (content_text_field f) in
  assemble f h contentText (js "Manual text input via corpus tool").
End PublicScript.

(** [validateForm], the same in both scripts. *)
Definition validateForm (f : form) : bool :=
  let title := trim (content_title f) in
  let author := trim (content_author f) in
  let contentType := content_type_field f in
  let contentText := trim (content_text_field f) in
  if negb (truthy (VStr title)) then false
  else if negb (truthy (VStr author)) then false
  else if negb (truthy (VStr contentType)) then false
  else if negb (truthy (VStr contentText)) then false
  else true.

(* ===================================================================== *)
(** ** Objects, documents and the store's query language *)
(* ===================================================================== *)

(** The document store is a collaborator outside the sources.  What
    follows models the commands that the gateway sends to it ([findOne],
    [find], [insertOne], [updateOne], [deleteOne] and one [$group]
    aggregation) on a collection kept as the list of its documents. *)

Definition object := list (string * value).

Fixpoint lookup_field (k : string) (o : object) : option value :=
  match o with
  | [] => None
  | (k', v) :: o' => if String.eqb k k' then Some v else lookup_field k o'
  end.

(** What reading a property gives: the value, or [undefined]. *)
Definition or_undefined (fv : option value) : value :=
  match fv with
  | Some v => v
  | None => VUndefined
  end.

(** [o.k = v]: overwrite the property, or add it after the others. *)
Fixpoint set_field (k : string) (v : value) (o : object) : object :=
  match o with
  | [] => [(k, v)]
  | (k', v') :: o' =>
      if String.eqb k k' then (k, v) :: o' else (k', v') :: set_field k v o'
  end.

Fixpoint jsstring_eqb (x y : jsstring) : bool :=
  match x, y with
  | [], [] => true
  | c :: x', d :: y' => N.eqb c d && jsstring_eqb x' y'
  | _, _ => false
  end.

Fixpoint value_eqb (a b : value) {struct a} : bool :=
  match a, b with
  | VUndefined, VUndefined => true
  | VNull, VNull => true
  | VBool x, VBool y => Bool.eqb x y
  | VNum x, VNum y => (x =? y)%Z
  | VNaN, VNaN => true
  | VStr x, VStr y => jsstring_eqb x y
  | VOid x, VOid y => Nat.eqb x y
  | VArr x, VArr y =>
      (fix all2 (x y : list value) {struct x} : bool :=
         match x, y with
         | [], [] => true
         | v :: x', w :: y' => value_eqb v w && all2 x' y'
         | _, _ => false
         end) x y
  | VObj x, VObj y =>
      (fix all2 (x y : object) {struct x} : bool :=
         match x, y with
         | [], [] => true
         | (k, v) :: x', (l, w) :: y' =>
             String.eqb k l && value_eqb v w && all2 x' y'
         | _, _ => false
         end) x y
  | _, _ => false
  end.

(** *** What the store sees of a value

    The driver writes a string as UTF-8.  A surrogate code unit that is
    not part of a pair has no UTF-8 form and goes out as U+FFFD; a pair
    goes out as the character it stands for.  [toWellFormed] gives the
    string that the store receives, again as code units (the built-in of
    the same name computes it). *)
Definition high_surrogate : charclass := in_range 55296 56319.
Definition low_surrogate : charclass := in_range 56320 57343.

Fixpoint toWellFormed (s : jsstring) : jsstring :=
  match s with
  | [] => []
  | c :: s' =>
      if high_surrogate c then
        match s' with
        | d :: s'' =>
            if low_surrogate d then c :: d :: toWellFormed s''
            else 65533%N :: toWellFormed s'
        | [] => [65533%N]
        end
      else if low_surrogate c then 65533%N :: toWellFormed s'
      else c :: toWellFormed s'
  end.

(** What the driver sends for a JavaScript value: [undefined] goes out as
    [null], also inside arrays and objects, and strings as above. *)
Fixpoint to_bson (v : value) : value :=
  match v with
  | VUndefined => VNull
  | VStr s => VStr (toWellFormed s)
  | VArr l => VArr (map to_bson l)
  | VObj fields => VObj (map (fun '(k, x) => (k, to_bson x)) fields)
  | _ => v
  end.

(** The two errors that [insertDocument] throws itself, named after what
    they report. *)
Definition DuplicateIdError : error :=
  JsError "Document with this ID already exists in corpus".
Definition DuplicateContentError : error :=
  JsError "Similar content already exists in corpus".

(** [v.k] *)
Definition get_prop (v : value) (k : string) : result value :=
  match v with
  | VUndefined | VNull => Throw TypeError
  | VObj o =>
      match lookup_field k o with
      | Some x => Ok x
      | None => Ok VUndefined
      end
  | _ => Ok VUndefined
  end.

(** [v.substring(0, n)], a [TypeError] on anything but a string. *)
Definition substring0 (v : value) (n : nat) : result jsstring :=
  match v with
  | VStr s => Ok (take n s)
  | _ => Throw TypeError
  end.

(** A dotted field path, split at the dots. *)
Fixpoint split_path_aux (cur : string) (s : string) : list string :=
  match s with
  | EmptyString => [cur]
  | String c s' =>
      if Ascii.eqb c "."%char then cur :: split_path_aux EmptyString s'
      else split_path_aux (cur ++ String c EmptyString)%string s'
  end.

Definition split_path (s : string) : list string :=
  split_path_aux EmptyString s.

Fixpoint get_path (p : list string) (v : value) : option value :=
  match p with
  | [] => Some v
  | k :: p' =>
      match v with
      | VObj o =>
          match lookup_field k o with
          | Some v' => get_path p' v'
          | None => None
          end
      | _ => None
      end
  end.

Definition field (path : string) (d : object) : option value :=
  get_path (split_path path) (VObj d).

(** *** The pattern language of [$regex]

    The store compiles the pattern string with a Perl-compatible engine
    in UTF mode and tries it on strings.  The fragment modelled here:
    literal units, a backslash before a non-alphanumeric unit (which then
    stands for itself), and [^].  Everything else is outside the
    fragment: the other operators ([. * + ? ( ) [ { | $]), alphanumeric
    escapes, and U+0000, which the store does not accept in a pattern.
    Pattern and subject are strings as the store receives them (see
    [toWellFormed]); on such strings a literal matches unit by unit
    exactly where it matches character by character. *)
Inductive token :=
| TkLit (c : code_unit)
| TkBol.

Section Pcre.
Local Open Scope N_scope.

Definition is_alnum : charclass :=
  cls_or (in_range 48 57) (cls_or (in_range 65 90) (in_range 97 122)).

(** The units that are operators outside the fragment when they stand
    unescaped, and U+0000. *)
Definition unsupported_operator : charclass :=
  one_of [46; 42; 43; 63; 40; 41; 91; 123; 124; 36; 0].

Fixpoint tokens (s : jsstring) : option (list token) :=
  match s with
  | [] => Some []
  | c :: s1 =>
      if c =? 92 then
        match s1 with
        | d :: s2 =>
            if is_alnum d || (d =? 0) then None
            else option_map (cons (TkLit d)) (tokens s2)
        | [] => None
        end
      else if unsupported_operator c then None
      else
        let t := if c =? 94 then TkBol else TkLit c in
        option_map (cons t) (tokens s1)
  end.

Definition build (ts : list token) : list regex :=
  map (fun t =>
         match t with
         | TkLit c => RChar (N.eqb c)
         | TkBol => RBol false
         end) ts.

Definition pcre_compile (pattern : jsstring) : option regex :=
  option_map (fun ts => rseq (build ts)) (tokens pattern).
End Pcre.

(** Whether [p] is an initial stretch of [s], unit by unit. *)
Fixpoint starts_with (p s : jsstring) : bool :=
  match p, s with
  | [], _ => true
  | c :: p', d :: s' => N.eqb c d && starts_with p' s'
  | _ :: _, [] => false
  end.

(** Whether the pattern matches somewhere in the subject. *)
Fixpoint search_from (r : regex) (prev : option code_unit) (s : jsstring)
  : bool :=
  match exec r prev s with
  | Some _ => true
  | None =>
      match s with
      | c :: s' => search_from r (Some c) s'
      | [] => false
      end
  end.

Definition pcre_search (pattern subject : jsstring) : option bool :=
  option_map (fun r => search_from r None subject) (pcre_compile pattern).

(** Query conditions on one field: equality with a value, or [$regex]. *)
Inductive condition :=
| CEq (v : value)
| CRegex (pattern : jsstring).

Definition query := list (string * condition).

Definition is_null (v : value) : bool :=
  match v with VNull => true | _ => false end.

(** The values that a condition on a dotted path is tried on.  The path
    is followed through embedded documents; where it meets an array it
    goes on in each element that is a document; an array at the end of
    the path offers its elements and then itself.  [None] stands for a
    path that leads nowhere.  (A path component that is an index into an
    array is outside the model, see [check_filter].) *)
Fixpoint candidates (p : list string) (v : value) : list (option value) :=
  match p with
  | [] =>
      match v with
      | VArr l => map Some l ++ [Some v]
      | _ => [Some v]
      end
  | k :: p' =>
      let descend (o : object) :=
        match lookup_field k o with
        | Some v' => candidates p' v'
        | None => [None]
        end in
      match v with
      | VObj o => descend o
      | VArr l =>
          flat_map (fun e => match e with VObj o => descend o | _ => [] end) l
      | _ => [None]
      end
  end.

(** The condition on one candidate.  Values are compared as the store
    holds them; equality with [null] also holds where the path leads
    nowhere; a pattern is only tried on strings. *)
Definition cond_holds (c : condition) (fv : option value) : bool :=
  match c with
  | CEq v =>
      match fv with
      | Some w => value_eqb (to_bson w) (to_bson v)
      | None => is_null (to_bson v)
      end
  | CRegex pattern =>
      match fv with
      | Some (VStr s) =>
          default false (pcre_search (toWellFormed pattern) (toWellFormed s))
      | _ => false
      end
  end.

(** A document is selected when each condition holds of one of the
    values that it is tried on. *)
Definition matches (f : query) (d : object) : bool :=
  forallb (fun pc =>
             existsb (cond_holds (snd pc))
               (candidates (split_path (fst pc)) (VObj d))) f.

(** What the model reads of a filter.  An object whose property names
    begin with [$] is not a value to compare with but a set of operators;
    a path component that begins with [$] is an operator of its own, one
    made of digits may be an index into an array, and an empty one is not
    accepted. *)
Definition operator_key (k : string) : bool := String.prefix "$" k.

Definition index_key (k : string) : bool :=
  forallb (fun a => (48 <=? N_of_ascii a)%N && (N_of_ascii a <=? 57)%N)
    (list_ascii_of_string k).

Definition plain_value (v : value) : bool :=
  match v with
  | VObj fields => forallb (fun kv => negb (operator_key (fst kv))) fields
  | _ => true
  end.

Definition plain_path (path : string) : bool :=
  forallb (fun k => negb (operator_key k) && negb (index_key k))
    (split_path path).

Definition check_condition (pc : string * condition) : result unit :=
  if negb (plain_path (fst pc)) then Throw OutsideModel
  else
    match snd pc with
    | CEq v => if plain_value v then Ok tt else Throw OutsideModel
    | CRegex pattern =>
        match pcre_compile (toWellFormed pattern) with
        | Some _ => Ok tt
        | None => Throw OutsideModel
        end
    end.

(** The filter is read before any document is. *)
Fixpoint check_filter (f : query) : result unit :=
  match f with
  | [] => Ok tt
  | pc :: f' => and_then (check_condition pc) (fun _ => check_filter f')
  end.

Fixpoint find_first (f : query) (l : list object) : option object :=
  match l with
  | [] => None
  | d :: l' => if matches f d then Some d else find_first f l'
  end.

Fixpoint remove_first (f : query) (l : list object) : list object :=
  match l with
  | [] => []
  | d :: l' => if matches f d then l' else d :: remove_first f l'
  end.

(** *** Update operators: [$set] and [$inc] *)

Record update := {
  upd_set : object;      (* $set *)
  upd_inc : object       (* $inc *)
}.

Fixpoint is_prefix_path (p q : list string) : bool :=
  match p, q with
  | [], _ => true
  | k :: p', l :: q' => String.eqb k l && is_prefix_path p' q'
  | _ :: _, [] => false
  end.

Definition conflicting (p q : list string) : bool :=
  is_prefix_path p q || is_prefix_path q p.

Fixpoint has_conflict (ps : list (list string)) : bool :=
  match ps with
  | [] => false
  | p :: ps' => existsb (conflicting p) ps' || has_conflict ps'
  end.

Definition update_paths (u : update) : list (list string) :=
  map (fun kv => split_path (fst kv)) (upd_set u ++ upd_inc u).

Definition is_number (v : value) : bool :=
  match v with VNum _ => true | _ => false end.

(** Server codes: 14 TypeMismatch, 28 PathNotViable, 40
    ConflictingUpdateOperators, 66 ImmutableField, 11000 DuplicateKey. *)
Definition check_update (u : update) : result unit :=
  if negb (forallb (fun kv => is_number (snd kv)) (upd_inc u))
  then Throw (MongoServerError 14)
  else if has_conflict (update_paths u) then Throw (MongoServerError 40)
  else Ok tt.

Fixpoint set_path (p : list string) (v : value) (o : object) : option object :=
  match p with
  | [] => None
  | k :: p' =>
      match p' with
      | [] => Some (set_field k v o)
      | _ :: _ =>
          match lookup_field k o with
          | Some (VObj o') =>
              option_map (fun o'' => set_field k (VObj o'') o) (set_path p' v o')
          | None =>
              option_map (fun o'' => set_field k (VObj o'') o) (set_path p' v [])
          | Some _ => None
          end
      end
  end.

Definition apply_set (kv : string * value) (d : object) : result object :=
  match set_path (split_path (fst kv)) (snd kv) d with
  | Some d' => Ok d'
  | None => Throw (MongoServerError 28)
  end.

Definition apply_inc (kv : string * value) (d : object) : result object :=
  match snd kv, field (fst kv) d with
  | VNum n, Some (VNum m) => apply_set (fst kv, VNum (m + n)) d
  | VNum n, None => apply_set (fst kv, VNum n) d
  | _, _ => Throw (MongoServerError 14)
  end.

Fixpoint apply_all (step : string * value -> object -> result object)
    (l : object) (d : object) : result object :=
  match l with
  | [] => Ok d
  | kv :: l' =>
      match step kv d with
      | Ok d' => apply_all step l' d'
      | Throw e => Throw e
      end
  end.

Definition option_value_eqb (a b : option value) : bool :=
  match a, b with
  | Some x, Some y => value_eqb x y
  | None, None => true
  | _, _ => false
  end.

Definition apply_update (u : update) (d : object) : result object :=
  match apply_all apply_set (upd_set u) d with
  | Ok d1 =>
      match apply_all apply_inc (upd_inc u) d1 with
      | Ok d2 =>
          if option_value_eqb (lookup_field "_id" d) (lookup_field "_id" d2)
          then Ok d2 else Throw (MongoServerError 66)
      | Throw e => Throw e
      end
  | Throw e => Throw e
  end.

(** Apply [g] to the first document selected by the filter. *)
Fixpoint update_first (f : query) (g : object -> result object)
    (l : list object) : result (option (list object)) :=
  match l with
  | [] => Ok None
  | d :: l' =>
      if matches f d then
        match g d with
        | Ok d' => Ok (Some (d' :: l'))
        | Throw e => Throw e
        end
      else
        match update_first f g l' with
        | Ok (Some l'') => Ok (Some (d :: l''))
        | Ok None => Ok None
        | Throw e => Throw e
        end
  end.

(** *** The [$group] stage of [getCollectionStats] *)

Record stats := {
  group_id : option value;      (* the [_id] of the group, absent in the
                                   fallback object *)
  totalDocuments : Z;
  totalCharacters : Z;
  totalTokens : Z;
  averageWeight : option Q;     (* [None] is [null]; the quotient is exact *)
  contentTypes : list value
}.

Definition numeric (fv : option value) : option Z :=
  match fv with Some (VNum n) => Some n | _ => None end.

(** [$sum] over a field: values that are not numbers count for nothing. *)
Definition sum_field (path : string) (l : list object) : Z :=
  fold_right (fun d acc => (default 0 (numeric (field path d)) + acc)%Z) 0%Z l.

Definition numeric_values (path : string) (l : list object) : list Z :=
  omap (fun d => numeric (field path d)) l.

Definition sum_Z (l : list Z) : Z := fold_right Z.add 0%Z l.

(** [$avg] over a field: the mean of the numeric values, [null] without any. *)
Definition avg_field (path : string) (l : list object) : option Q :=
  match numeric_values path l with
  | [] => None
  | vs => Some (Qmake (sum_Z vs) (Pos.of_nat (length vs)))
  end.

Definition add_to_set (v : value) (acc : list value) : list value :=
  if existsb (value_eqb v) acc then acc else acc ++ [v].

(** [$addToSet] over a field: the distinct values of the documents that
    have the field. *)
Definition distinct_field (path : string) (l : list object) : list value :=
  fold_left (fun acc d =>
    match field path d with
    | Some v => add_to_set v acc
    | None => acc
    end) l [].

(** One group for the whole collection, no group for an empty one. *)
Definition group_all (l : list object) : list stats :=
  match l with
  | [] => []
  | _ :: _ =>
      [ {| group_id := Some VNull;
           totalDocuments := Z.of_nat (length l);
           totalCharacters := sum_field "training_metadata.character_count" l;
           totalTokens := sum_field "training_metadata.token_count" l;
           averageWeight := avg_field "training_metadata.weighting" l;
           contentTypes := distinct_field "attribution.content_type" l |} ]
  end.

(* ===================================================================== *)
(** ** The world of the gateway: service fields, store, heap *)
(* ===================================================================== *)

Inductive store_call :=
| CallFindOne (f : query)
| CallFind (f : query) (limit : nat)
| CallInsertOne (d : value)
| CallUpdateOne (f : query) (u : update)
| CallDeleteOne (f : query)
| CallAggregate.

Record world := mkWorld {
  this_client : option nat;      (* this.client *)
  this_db : option nat;          (* this.db *)
  clients_created : nat;         (* MongoClient objects constructed so far *)
  reachable : bool;              (* whether the server accepts connections *)
  coll : list object;            (* the collection text-corpus of corpora *)
  next_oid : nat;                (* source of generated storage keys *)
  now : jsstring;                (* new Date().toISOString() *)
  heap : gmap nat object;        (* objects the caller passes by reference *)
  calls : list store_call;       (* commands sent to the store, latest first *)
  close_fails : bool             (* whether closing an open connection is
                                    rejected by the driver *)
}.

Definition with_client (c : option nat) (n : nat) (w : world) : world :=
  mkWorld c (this_db w) n (reachable w) (coll w) (next_oid w) (now w)
    (heap w) (calls w) (close_fails w).

Definition with_db (d : option nat) (w : world) : world :=
  mkWorld (this_client w) d (clients_created w) (reachable w) (coll w)
    (next_oid w) (now w) (heap w) (calls w) (close_fails w).

Definition with_coll (l : list object) (w : world) : world :=
  mkWorld (this_client w) (this_db w) (clients_created w) (reachable w) l
    (next_oid w) (now w) (heap w) (calls w) (close_fails w).

Definition with_next_oid (n : nat) (w : world) : world :=
  mkWorld (this_client w) (this_db w) (clients_created w) (reachable w)
    (coll w) n (now w) (heap w) (calls w) (close_fails w).

Definition with_heap (h : gmap nat object) (w : world) : world :=
  mkWorld (this_client w) (this_db w) (clients_created w) (reachable w)
    (coll w) (next_oid w) (now w) h (calls w) (close_fails w).

Definition logged (c : store_call) (w : world) : world :=
  mkWorld (this_client w) (this_db w) (clients_created w) (reachable w)
    (coll w) (next_oid w) (now w) (heap w) (c :: calls w) (close_fails w).

(** Computations of the gateway: they read and change the world and may
    throw. *)
Definition M (A : Type) : Type := world -> result A * world.

Definition ret {A} (a : A) : M A := fun w => (Ok a, w).

Definition throw {A} (e : error) : M A := fun w => (Throw e, w).

Definition bind {A B} (m : M A) (k : A -> M B) : M B :=
  fun w =>
    match m w with
    | (Ok a, w') => k a w'
    | (Throw e, w') => (Throw e, w')
    end.

Definition lift {A} (r : result A) : M A := fun w => (r, w).

Notation "'let*' x := m 'in' k" := (bind m (fun x => k))
  (at level 10, x name, m at level 100, k at level 200).

(** The truth value of an answer of [findOne]: a document is an object,
    no document is [null]. *)
Definition bool_of (found : option object) : bool :=
  match found with Some d => truthy (VObj d) | None => truthy VNull end.

(** *** The collection's methods, as the store answers them *)

Definition findOne (f : query) : M (option object) :=
  fun w =>
    let w := logged (CallFindOne f) w in
    match check_filter f with
    | Ok _ => (Ok (find_first f (coll w)), w)
    | Throw e => (Throw e, w)
    end.

(** [find(f).limit(n).toArray()]; a limit of 0 is no limit. *)
Definition find_limit (f : query) (limit : nat) : M (list object) :=
  fun w =>
    let w := logged (CallFind f limit) w in
    match check_filter f with
    | Ok _ =>
        let all := List.filter (matches f) (coll w) in
        (Ok (match limit with O => all | _ => take limit all end), w)
    | Throw e => (Throw e, w)
    end.

(** [insertOne(d)]: the driver gives a document whose [_id] is missing,
    [null] or [undefined] a generated key; the store refuses an array as
    [_id] (code 53) and a key that is in use (code 11000).  The answer is
    the inserted key.  The collection keeps the document as it was
    given; what the store holds of its strings is read off it wherever
    values are compared.  (The document is taken by value: that the
    driver also writes the key into the caller's object is left out.) *)
Definition is_nullish (v : value) : bool :=
  match v with VUndefined | VNull => true | _ => false end.

Definition is_array (v : value) : bool :=
  match v with VArr _ => true | _ => false end.

Definition same_key (key : value) (e : object) : bool :=
  match lookup_field "_id" e with
  | Some k => value_eqb (to_bson k) (to_bson key)
  | None => false
  end.

Definition insertOne (d : value) : M value :=
  fun w =>
    let w := logged (CallInsertOne d) w in
    match d with
    | VObj o =>
        let '(key, o', w) :=
          if is_nullish (or_undefined (lookup_field "_id" o)) then
            (VOid (next_oid w), set_field "_id" (VOid (next_oid w)) o,
             with_next_oid (S (next_oid w)) w)
          else (or_undefined (lookup_field "_id" o), o, w) in
        if is_array key then (Throw (MongoServerError 53), w)
        else if existsb (same_key key) (coll w)
        then (Throw (MongoServerError 11000), w)
        else (Ok key, with_coll (coll w ++ [o']) w)
    | _ => (Throw TypeError, w)
    end.

Record update_result := {
  matchedCount : nat;
  modifiedCount : nat
}.

(** [updateOne(f, u)].  The store reads the update before the filter. *)
Definition updateOne (f : query) (u : update) : M update_result :=
  fun w =>
    let w := logged (CallUpdateOne f u) w in
    match check_update u, check_filter f with
    | Throw e, _ => (Throw e, w)
    | Ok _, Throw e => (Throw e, w)
    | Ok _, Ok _ =>
        match update_first f (apply_update u) (coll w) with
        | Ok (Some l) =>
            (Ok {| matchedCount := 1; modifiedCount := 1 |}, with_coll l w)
        | Ok None => (Ok {| matchedCount := 0; modifiedCount := 0 |}, w)
        | Throw e => (Throw e, w)
        end
    end.

(** [deleteOne(f)]: the answer is [deletedCount]. *)
Definition deleteOne (f : query) : M nat :=
  fun w =>
    let w := logged (CallDeleteOne f) w in
    match check_filter f with
    | Ok _ =>
        match find_first f (coll w) with
        | Some _ => (Ok 1, with_coll (remove_first f (coll w)) w)
        | None => (Ok 0, w)
        end
    | Throw e => (Throw e, w)
    end.

Definition aggregate_group : M (list stats) :=
  fun w =>
    let w := logged CallAggregate w in
    (Ok (group_all (coll w)), w).

(* ===================================================================== *)
(** ** [MongoService] *)
(* ===================================================================== *)

(** The units the gateway escapes before using text as a pattern: the
    class of [/[.*+?^${}()|[\]\\]/g]. *)
Definition special_units : list code_unit :=
  [46; 42; 43; 63; 94; 36; 123; 125; 40; 41; 124; 91; 93; 92]%N.

Definition pattern_special : charclass := one_of special_units.

(** [s.replace(/[.*+?^${}()|[\]\\]/g, '\\$&')] *)
Definition escape_pattern (s : jsstring) : jsstring :=
  replace_all (RChar pattern_special) [TLit [92%N]; TWhole] s.

(** The object literal [{ $inc: { version: 1 } }]. *)
Definition version_bump : value := VObj [("$inc", VObj [("version", VNum 1)])].

(** The two queries of the gateway. *)
Definition id_query (id : value) : query := [("document_id", CEq id)].

Definition content_signature (title author : value) (first100 : jsstring)
  : query :=
  [("attribution.title", CEq title);
   ("attribution.author", CEq author);
   ("content_text", CRegex (js "^" ++ escape_pattern first100))].

Module MongoService.

(** [connect()] up to its [await]: the test of [this.client] and the
    construction of the client.  The answer tells whether the call now
    waits for the new client to connect. *)
Definition connect_begin (w : world) : bool * world :=
  match this_client w with
  | None =>
      (true, with_client (Some (clients_created w)) (S (clients_created w)) w)
  | Some _ => (false, w)
  end.

(** [connect()] after its [await]: the connection attempt has settled. *)
Definition connect_resume : M unit :=
  fun w =>
    if reachable w then (Ok tt, with_db (this_client w) w)
    else (Throw MongoNetworkError, w).

(** [connect()] run without another call in between. *)
Definition connect : M (option nat) :=
  fun w =>
    let '(waits, w) := connect_begin w in
    if waits : bool then
      match connect_resume w with
      | (Ok _, w) => (Ok (this_db w), w)
      | (Throw e, w) => (Throw e, w)
      end
    else (Ok (this_db w), w).

(** [db.collection('text-corpus')]: a [TypeError] when [db] is [null]. *)
Definition db_collection (db : option nat) : M unit :=
  match db with
  | Some _ => ret tt
  | None => throw TypeError
  end.

Definition insertDocument (document : value) : M value :=
  let* db := connect in
  let* _ := db_collection db in
  let* id := lift (get_prop document "document_id") in
  let* existing := findOne (id_query id) in
  if bool_of existing then throw DuplicateIdError
  else
    let* attribution := lift (get_prop document "attribution") in
    let* title := lift (get_prop attribution "title") in
    let* author := lift (get_prop attribution "author") in
    let* content_text := lift (get_prop document "content_text") in
    let* first100 := lift (substring0 content_text 100) in
    let contentSignature := content_signature title author first100 in
    let* duplicateContent := findOne contentSignature in
    if bool_of duplicateContent then throw DuplicateContentError
    else insertOne document.

Definition findDocuments (q : query) (limit : nat) : M (list object) :=
  let* db := connect in
  let* _ := db_collection db in
  find_limit q limit.

Definition getDocumentById (documentId : value) : M (option object) :=
  let* db := connect in
  let* _ := db_collection db in
  findOne (id_query documentId).

(** [updateData.k = v] on the caller's object. *)
Definition assign (ref : nat) (k : string) (v : value) : M unit :=
  fun w =>
    match heap w !! ref with
    | Some o => (Ok tt, with_heap (<[ref := set_field k v o]> (heap w)) w)
    | None => (Throw TypeError, w)
    end.

Definition deref (ref : nat) : M object :=
  fun w =>
    match heap w !! ref with
    | Some o => (Ok o, w)
    | None => (Throw TypeError, w)
    end.

Definition current_time : M jsstring := fun w => (Ok (now w), w).

Definition updateDocument (documentId : value) (updateData : nat)
  : M update_result :=
  let* db := connect in
  let* _ := db_collection db in
  let* stamp := current_time in
  let* _ := assign updateData "updated_at" (VStr stamp) in
  let* _ := assign updateData "version" version_bump in
  let* data := deref updateData in
  updateOne (id_query documentId)
    {| upd_set := data; upd_inc := [("version", VNum 1)] |}.

Definition deleteDocument (documentId : value) : M nat :=
  let* db := connect in
  let* _ := db_collection db in
  deleteOne (id_query documentId).

Definition empty_stats : stats :=
  {| group_id := None;
     totalDocuments := 0;
     totalCharacters := 0;
     totalTokens := 0;
     averageWeight := Some (inject_Z 0);
     contentTypes := [] |}.

Definition getCollectionStats : M stats :=
  let* db := connect in
  let* _ := db_collection db in
  let* found := aggregate_group in
  ret (match found with
       | first :: _ => first
       | [] => empty_stats
       end).

(** [this.client.close()].  A client that has no open connection has
    nothing to close; closing an open one may be rejected by the driver
    (the shutdown handler of the server catches that). *)
Definition client_close : M unit :=
  fun w =>
    match this_db w with
    | Some _ =>
        if close_fails w then (Throw MongoNetworkError, w) else (Ok tt, w)
    | None => (Ok tt, w)
    end.

Definition close : M unit :=
  fun w =>
    match this_client w with
    | Some _ =>
        (let* _ := client_close in
         fun w => (Ok tt, with_db None (with_client None (clients_created w) w)))
          w
    | None => (Ok tt, w)
    end.

(** *** Overlapping calls of [connect()]

    A call runs until its [await] and goes on when the awaited attempt
    has settled; other calls may run in between. *)
Inductive call :=
| NotStarted
| Awaiting
| Returned (db : option nat)
| Rejected (e : error).

Definition step_call (c : call) (w : world) : call * world :=
  match c with
  | NotStarted =>
      let '(waits, w) := connect_begin w in
      if waits : bool then (Awaiting, w) else (Returned (this_db w), w)
  | Awaiting =>
      match connect_resume w with
      | (Ok _, w) => (Returned (this_db w), w)
      | (Throw e, w) => (Rejected e, w)
      end
  | Returned _ | Rejected _ => (c, w)
  end.

(** Advance the call at index [i]. *)
Definition step (i : nat) (st : list call * world) : list call * world :=
  match fst st !! i with
  | Some c =>
      let '(c', w) := step_call c (snd st) in (<[i := c']> (fst st), w)
  | None => st
  end.

Definition run (schedule : list nat) (st : list call * world)
  : list call * world :=
  fold_left (fun st i => step i st) schedule st.

End MongoService.

(* ===================================================================== *)
(** ** Predicates used in the statements *)
(* ===================================================================== *)

(** What is assumed of the host's canonical composition: text made of
    ASCII units only is already composed. *)
Definition nfc_fixes_ascii (nfc : jsstring -> jsstring) : Prop :=
  forall s, forallb (fun c => c <? 128)%N s = true -> nfc s = s.

Definition ascii_letter : charclass :=
  cls_or (in_range 65 90) (in_range 97 122).

(** Already-clean text: words of ASCII letters separated by single
    spaces.  [clean_aux after_letter s] reads [s] knowing whether the
    unit just before it is a letter. *)
Fixpoint clean_aux (after_letter : bool) (s : jsstring) : bool :=
  match s with
  | [] => after_letter
  | c :: s' =>
      if ascii_letter c then clean_aux true s'
      else N.eqb c SPACE && after_letter && clean_aux false s'
  end.

Definition clean_text (s : jsstring) : bool :=
  match s with [] => true | _ :: _ => clean_aux false s end.

(** Text over letters and single spaces, read knowing whether the unit
    just before it is a space: what step 5 makes of letters and blanks. *)
Fixpoint single_spaced (after_space : bool) (s : jsstring) : bool :=
  match s with
  | [] => true
  | c :: s' =>
      if ascii_letter c then single_spaced false s'
      else N.eqb c SPACE && negb after_space && single_spaced true s'
  end.

(** The length of the longest initial stretch of units of a class. *)
Fixpoint span (p : charclass) (s : jsstring) : nat :=
  match s with
  | c :: s' => if p c then S (span p s') else 0
  | [] => 0
  end.

(** Text made of ASCII letters, spaces and tabs. *)
Definition letters_and_blanks (s : jsstring) : bool :=
  forallb (cls_or ascii_letter (one_of [32; 9]%N)) s.

(** [connect()] will answer with a database handle: either nothing was
    ever attempted and the server is reachable, or the handle is there. *)
Definition can_connect (w : world) : bool :=
  match this_client w with
  | None => reachable w
  | Some _ => match this_db w with Some _ => true | None => false end
  end.

(** The document has the given string in the field. *)
Definition has_string (path : string) (s : jsstring) (d : object) : Prop :=
  field path d = Some (VStr s).

(** A record as the gateway receives it: an object with a string id, a
    string text, and an attribution with string title and author. *)
Definition is_record (document : value) (id title author text : jsstring)
  : Prop :=
  exists o a,
    document = VObj o /\
    lookup_field "document_id" o = Some (VStr id) /\
    lookup_field "content_text" o = Some (VStr text) /\
    lookup_field "attribution" o = Some (VObj a) /\
    lookup_field "title" a = Some (VStr title) /\
    lookup_field "author" a = Some (VStr author).

(** Some stored document has the id. *)
Definition id_taken (id : jsstring) (l : list object) : Prop :=
  Exists (has_string "document_id" id) l.

(** Some stored document has the title and the author, and its text
    begins with the first 100 units of the given text. *)
Definition content_taken (title author text : jsstring) (l : list object)
  : Prop :=
  Exists (fun d =>
    has_string "attribution.title" title d /\
    has_string "attribution.author" author d /\
    exists stored,
      has_string "content_text" stored d /\ take 100 text `prefix_of` stored) l.

(** Text without surrogate units: it is sent to the store as it is. *)
Definition no_surrogates (s : jsstring) : bool :=
  forallb (fun c => negb (high_surrogate c) && negb (low_surrogate c)) s.

(** Text that can be sent as a pattern: U+0000 is not in it. *)
Definition sendable (s : jsstring) : bool :=
  forallb (fun c => negb (c =? 0)%N) s.

(** What the store finds.  A filter on a string selects a document that
    holds the string at the path, as the value there or as an element of
    an array there, and strings are the same when they are the same text
    on their way to the store. *)
Definition holds_string (path : string) (s : jsstring) (d : object) : Prop :=
  exists s',
    In (Some (VStr s')) (candidates (split_path path) (VObj d)) /\
    toWellFormed s' = toWellFormed s.

(** The look-up by id finds a stored document. *)
Definition id_found (id : jsstring) (l : list object) : Prop :=
  Exists (holds_string "document_id" id) l.

(** The look-up by content signature finds a stored document: it holds
    the title and the author, and a text of it begins with the first 100
    units of the given text, as the store receives them. *)
Definition content_found (title author text : jsstring) (l : list object)
  : Prop :=
  Exists (fun d =>
    holds_string "attribution.title" title d /\
    holds_string "attribution.author" author d /\
    exists stored,
      In (Some (VStr stored)) (candidates (split_path "content_text") (VObj d)) /\
      toWellFormed (take 100 text) `prefix_of` toWellFormed stored) l.

(** The first 100 units of the text can be sent as a pattern. *)
Definition prefix_sendable (text : jsstring) : Prop :=
  sendable (take 100 text) = true.

(** The cut after 100 units falls inside a surrogate pair: unit 100 is
    the first half of a pair and unit 101 the second. *)
Definition cut_in_pair (text : jsstring) : Prop :=
  exists p hi lo rest,
    text = p ++ hi :: lo :: rest /\ length p = 99 /\
    high_surrogate hi = true /\ low_surrogate lo = true.

(** Sample data: a record as the builder's output reaches the gateway,
    and a world whose service was just constructed. *)
Definition sample_object (id title author text : string) : object :=
  [("document_id", VStr (js id));
   ("content_text", VStr (js text));
   ("attribution",
    VObj [("author", VStr (js author)); ("title", VStr (js title));
          ("content_type", VStr (js "book"))]);
   ("training_metadata",
    VObj [("token_count", VNum (Z.of_nat (ceil_div4 (String.length text))));
          ("character_count", VNum (Z.of_nat (String.length text)));
          ("weighting", VNum 1)]);
   ("version", VNum 1)].

Definition sample_record (id title author text : string) : value :=
  VObj (sample_object id title author text).

Definition sample_world (docs : list object) : world :=
  {| this_client := None;
     this_db := None;
     clients_created := 0;
     reachable := true;
     coll := docs;
     next_oid := length docs;
     now := js "2024-05-01T12:00:00.000Z";
     heap := {[ 1%nat := [("note", VStr (js "revised"))] ]};
     calls := [];
     close_fails := false |}.

(** A record with a text given in code units, and a text whose unit 100
    is the first half of the pair that stands for U+1F600. *)
Definition sample_object_of (id title author : string) (text : jsstring)
  : object :=
  [("document_id", VStr (js id));
   ("content_text", VStr text);
   ("attribution",
    VObj [("author", VStr (js author)); ("title", VStr (js title));
          ("content_type", VStr (js "book"))])].

Definition sample_astral_text : jsstring :=
  repeat 97%N 99 ++ [55357; 56832]%N ++ js " and more".

(** The patch object as [updateDocument] leaves it. *)
Definition patched (stamp : jsstring) (o : object) : object :=
  set_field "version" version_bump (set_field "updated_at" (VStr stamp) o).

(** The numeric fields that the statistics read. *)
Definition has_counts (d : object) (row : Z * Z * Z) : Prop :=
  let '(chars, toks, weight) := row in
  field "training_metadata.character_count" d = Some (VNum chars) /\
  field "training_metadata.token_count" d = Some (VNum toks) /\
  field "training_metadata.weighting" d = Some (VNum weight).

(** The service as its constructor leaves it. *)
Definition just_constructed (w : world) : Prop :=
  this_client w = None /\ this_db w = None.

(** The positions of already-clean text, as the scan of step 7 meets
    them: what precedes is nothing, a letter, or a space that a letter
    must follow. *)
Definition edge_inv (prev : option code_unit) (s : jsstring) : Prop :=
  match prev with
  | None => clean_aux false s = true
  | Some c =>
      (ascii_letter c = true /\ clean_aux true s = true) \/
      (c = SPACE /\ clean_aux false s = true)
  end.

Definition sample_host : host :=
  {| date_now := 1714564800000;
     iso_now := js "2024-05-01T12:00:00.000Z";
     random36 := js "0.4fzyo82mvyr" |}.

(** A form with the given text and fixed other fields. *)
Definition sample_form (text : jsstring) : form :=
  {| content_title := js "Title";
     content_author := js "Author";
     content_type_field := js "book";
     content_language := js "en-US";
     content_publisher := [];
     content_isbn := [];
     content_genre := [];
     content_chapter := [];
     content_url := [];
     training_weight := js "1";
     content_text_field := text |}.

(** The units of [ascii_letter] and of [letters_and_blanks], listed. *)
Definition letters : list code_unit :=
  map N.of_nat (seq 65 26) ++ map N.of_nat (seq 97 26).

Definition alphabet : list code_unit := [32; 9]%N ++ letters.

(** A sufficient test that a pattern matches nowhere in a text over the
    given units: some mandatory position of the pattern asks for a unit
    that is none of them. *)
Fixpoint dead_on (units : list code_unit) (r : regex) : bool :=
  match r with
  | RChar p => forallb (fun c => negb (p c)) units
  | RSeq r1 r2 => dead_on units r1 || dead_on units r2
  | RAlt r1 r2 => dead_on units r1 && dead_on units r2
  | RRep min p =>
      match min with
      | O => false
      | S _ => forallb (fun c => negb (p c)) units
      end
  | RGroup _ r' => dead_on units r'
  | REmpty | RBol _ | REol _ => false
  end.

(** How one unit is escaped, the pattern of one literal unit, and the
    unit before a position reached by reading [p]. *)
Definition escape_unit (c : code_unit) : jsstring :=
  if pattern_special c then [92%N; c] else [c].

Definition lit (c : code_unit) : regex := RChar (N.eqb c).

Definition last_unit (prev : option code_unit) (p : jsstring) : option code_unit :=
  match rev p with c :: _ => Some c | [] => prev end.

(* ===================================================================== *)
(** ** Sequences of calls on the gateway *)
(* ===================================================================== *)

(** The server changes whether it accepts connections on its own. *)
Definition with_reachable (r : bool) (w : world) : world :=
  mkWorld (this_client w) (this_db w) (clients_created w) r (coll w)
    (next_oid w) (now w) (heap w) (calls w) (close_fails w).

(** One use of the service by a caller. *)
Inductive gateway_call :=
| Connect
| InsertDocument (document : value)
| FindDocuments (q : query) (limit : nat)
| GetDocumentById (documentId : value)
| UpdateDocument (documentId : value) (updateData : nat)
| DeleteDocument (documentId : value)
| GetCollectionStats
| Close.

(** The call, its answer dropped. *)
Definition perform (c : gateway_call) : M unit :=
  match c with
  | Connect => let* _ := MongoService.connect in ret tt
  | InsertDocument document =>
      let* _ := MongoService.insertDocument document in ret tt
  | FindDocuments q limit =>
      let* _ := MongoService.findDocuments q limit in ret tt
  | GetDocumentById documentId =>
      let* _ := MongoService.getDocumentById documentId in ret tt
  | UpdateDocument documentId updateData =>
      let* _ := MongoService.updateDocument documentId updateData in ret tt
  | DeleteDocument documentId =>
      let* _ := MongoService.deleteDocument documentId in ret tt
  | GetCollectionStats => let* _ := MongoService.getCollectionStats in ret tt
  | Close => MongoService.close
  end.

(** Calls made one after the other, each caller handling its own error. *)
Definition perform_all (cs : list gateway_call) (w : world) : world :=
  fold_left (fun w c => snd (perform c w)) cs w.

(** The [document_id] of a stored document when it is a string. *)
Definition string_id (d : object) : option jsstring :=
  match field "document_id" d with
  | Some (VStr s) => Some s
  | _ => None
  end.

(** No two stored documents have the same string as [document_id]. *)
Definition unique_ids (l : list object) : Prop :=
  List.NoDup (omap string_id l).

(* ===================================================================== *)
(** ** The request handlers of [server.js] *)
(* ===================================================================== *)

(** [hay.includes(needle)] *)
Fixpoint includes (hay needle : string) : bool :=
  String.prefix needle hay ||
  match hay with
  | EmptyString => false
  | String _ hay' => includes hay' needle
  end.

(** [error.message].  The text of an error made with [new Error(...)] is
    its argument; the texts of the errors that the engine and the driver
    raise are not part of the sources: [foreign_message] gives them. *)
Definition message (foreign_message : error -> string) (e : error) : string :=
  match e with
  | JsError m => m
  | _ => foreign_message e
  end.

(** [v.k = x].  On a primitive the assignment is lost; an array would
    take the property, which the handler never asks for (a body that
    passes its checks is an object). *)
Definition set_prop (v : value) (k : string) (x : value) : result value :=
  match v with
  | VUndefined | VNull => Throw TypeError
  | VObj o => Ok (VObj (set_field k x o))
  | _ => Ok v
  end.

(** [new Date()], as the store keeps it: a date, not a string. *)
Definition new_date : M value :=
  fun w => (Ok (VObj [("$date", VStr (now w))]), w).

(** What a handler sends: [res.status(n).json(body)]; 200 without
    [status]. *)
Record response (A : Type) := {
  status : N;
  body : A
}.
Arguments status {A} r.
Arguments body {A} r.

Inductive insert_reply :=
| Inserted (insertedId : value)   (* { success: true, insertedId, message } *)
| Refused (error : string).       (* { error } *)

Inductive health :=
| Healthy (timestamp : jsstring)
    (* { status: 'healthy', database: 'connected', timestamp } *)
| Unhealthy (error : string) (timestamp : jsstring).
    (* { status: 'unhealthy', database: 'disconnected', error, timestamp } *)

(** Whether [ToString] throws on a value, as a template literal applies
    it.  An object is converted through its [toString] and [valueOf]
    methods: the ones it inherits answer [[object Object]], but an own
    property [toString] hides the inherited method, and in a body read
    from JSON no property is a function, so that the conversion finds no
    method that answers a primitive and throws a [TypeError].  An array
    joins the conversions of its elements, [null] and [undefined] counting
    as empty. *)
Fixpoint ToString_throws (v : value) : bool :=
  match v with
  | VObj fields =>
      match lookup_field "toString" fields with
      | Some _ => true
      | None => false
      end
  | VArr l =>
      existsb (fun e =>
                 match e with
                 | VUndefined | VNull => false
                 | _ => ToString_throws e
                 end) l
  | _ => false
  end.

(** A template literal with the given substitutions, its text dropped. *)
Definition template_literal (substitutions : list value) : result unit :=
  if existsb ToString_throws substitutions then Throw TypeError else Ok tt.

(** What [JSON.stringify] keeps of a value: a property whose value is
    [undefined] is not written; [undefined] in an array and [NaN] are
    written as [null].  (Dates and storage keys are kept as they are:
    their texts are not modelled.) *)
Fixpoint json_value (v : value) : value :=
  match v with
  | VUndefined | VNaN => VNull
  | VArr l => VArr (map json_value l)
  | VObj fields =>
      VObj ((fix properties (o : object) : object :=
               match o with
               | [] => []
               | (k, x) :: o' =>
                   match x with
                   | VUndefined => properties o'
                   | _ => (k, json_value x) :: properties o'
                   end
               end) fields)
  | _ => v
  end.

(** The limit of [express.json({ limit: '10mb' })], in bytes. *)
Definition json_limit : N := 10 * 1024 * 1024.

Module Server.
Section Handlers.
Variable foreign_message : error -> string.

(** The [try] block of [POST /api/insert-document].  Reading a property
    changes nothing and throws only on a body that is [null] or
    [undefined], so both operands of each [||] are read at once. *)
Definition insert_document_try (document : value)
  : M (response insert_reply) :=
  let* content_text := lift (get_prop document "content_text") in
  let* attribution := lift (get_prop document "attribution") in
  if negb (truthy content_text) || negb (truthy attribution) then
    ret {| status := 400;
           body := Refused "Missing required fields: content_text and attribution" |}
  else
    let* title := lift (get_prop attribution "title") in
    let* author := lift (get_prop attribution "author") in
    if negb (truthy title) || negb (truthy author) then
      ret {| status := 400;
             body := Refused "Missing required attribution fields: title and author" |}
    else
      let* created := new_date in
      let* document := lift (set_prop document "created_at" created) in
      let* updated := new_date in
      let* document := lift (set_prop document "updated_at" updated) in
      let* version := lift (get_prop document "version") in
      let* document :=
        if negb (truthy version) then lift (set_prop document "version" (VNum 1))
        else ret document in
      let* insertedId := MongoService.insertDocument document in
      (* the log line: [${document.attribution.title}] and
         [${document.attribution.author}] *)
      let* attribution := lift (get_prop document "attribution") in
      let* title := lift (get_prop attribution "title") in
      let* author := lift (get_prop attribution "author") in
      let* _ := lift (template_literal [title; author]) in
      ret {| status := 200; body := Inserted insertedId |}.

(** The handler with its [catch]. *)
Definition insert_document (document : value) (w : world)
  : response insert_reply * world :=
  match insert_document_try document w with
  | (Ok res, w') => (res, w')
  | (Throw error, w') =>
      if includes (message foreign_message error) "already exists" then
        ({| status := 409; body := Refused (message foreign_message error) |}, w')
      else
        ({| status := 500;
            body := Refused (String.append "Failed to insert document: "
                               (message foreign_message error)) |}, w')
  end.

(** The route with what stands around it: [express.json] before the
    routes, the error handler after them.  A request whose body is longer
    than the limit does not reach the handler; the parser's error goes to
    the error handler, which answers 500.  [content_length] is the length
    of the request body in bytes. *)
Definition post_insert_document (content_length : N) (document : value)
    (w : world) : response insert_reply * world :=
  if (json_limit <? content_length)%N then
    ({| status := 500; body := Refused "Internal server error" |}, w)
  else insert_document document w.

(** [GET /api/stats] *)
Definition get_stats (w : world) : response (stats + string) * world :=
  match MongoService.getCollectionStats w with
  | (Ok s, w') => ({| status := 200; body := inl s |}, w')
  | (Throw _, w') =>
      ({| status := 500; body := inr "Failed to fetch collection statistics" |}, w')
  end.

(** [parseInt(req.query.limit) || 10]; [limit] is the parameter as a
    string, and a parameter that is not given is [undefined], which
    [parseInt] reads as the text "undefined". *)
Definition query_limit (limit : option jsstring) : number :=
  match parseInt (match limit with Some s => s | None => js "undefined" end) with
  | Finite n => if truthy (VNum n) then Finite n else Finite 10
  | NaN => Finite 10
  | Infinity negative => Infinity negative
  end.

(** The object that the handler makes of one stored document. *)
Definition summary (doc : value) : M value :=
  let* document_id := lift (get_prop doc "document_id") in
  let* attribution := lift (get_prop doc "attribution") in
  let* title := lift (get_prop attribution "title") in
  let* author := lift (get_prop attribution "author") in
  let* content_type := lift (get_prop attribution "content_type") in
  let* created_at := lift (get_prop doc "created_at") in
  let* training_metadata := lift (get_prop doc "training_metadata") in
  let* character_count := lift (get_prop training_metadata "character_count") in
  let* weighting := lift (get_prop training_metadata "weighting") in
  ret (VObj [("document_id", document_id);
             ("title", title);
             ("author", author);
             ("content_type", content_type);
             ("created_at", created_at);
             ("character_count", character_count);
             ("weighting", weighting)]).

(** [documents.map(f)] for an [f] that may throw. *)
Fixpoint map_M {A B} (f : A -> M B) (l : list A) : M (list B) :=
  match l with
  | [] => ret []
  | x :: l' =>
      let* y := f x in
      let* ys := map_M f l' in
      ret (y :: ys)
  end.

(** [mongoService.findDocuments({}, limit)] with the limit that the
    handler computes.  A positive integer below [2^53] is a limit as the
    gateway's other callers give it.  What the driver and the store make
    of a negative limit (a single batch of documents) and of one past the
    safe integers is outside the model; the connection is attempted
    first in every case. *)
Definition find_recent (limit : number) : M (list object) :=
  match limit with
  | Finite n =>
      if (0 <? n)%Z && (n <? 2 ^ 53)%Z
      then MongoService.findDocuments [] (Z.to_nat n)
      else
        let* db := MongoService.connect in
        let* _ := MongoService.db_collection db in
        throw OutsideModel
  | _ =>
      let* db := MongoService.connect in
      let* _ := MongoService.db_collection db in
      throw OutsideModel
  end.

(** [GET /api/documents]; the body is what [res.json] writes of the
    summaries. *)
Definition get_documents (limit : option jsstring) (w : world)
  : response (list value + string) * world :=
  let attempt :=
    let limit := query_limit limit in
    let* documents := find_recent limit in
    map_M (fun doc => summary (VObj doc)) documents in
  match attempt w with
  | (Ok documentSummaries, w') =>
      ({| status := 200; body := inl (map json_value documentSummaries) |}, w')
  | (Throw _, w') => ({| status := 500; body := inr "Failed to fetch documents" |}, w')
  end.

(** [GET /api/health] *)
Definition get_health (w : world) : response health * world :=
  match MongoService.connect w with
  | (Ok _, w') => ({| status := 200; body := Healthy (now w') |}, w')
  | (Throw error, w') =>
      ({| status := 503;
          body := Unhealthy (message foreign_message error) (now w') |}, w')
  end.

End Handlers.
End Server.

(* ===================================================================== *)
(** ** Predicates on request bodies *)
(* ===================================================================== *)

(** The body has what [POST /api/insert-document] asks for: a text, an
    attribution, and in it a title and an author, none of them falsy. *)
Definition required_present (document : value) : bool :=
  match get_prop document "content_text", get_prop document "attribution" with
  | Ok content_text, Ok attribution =>
      truthy content_text && truthy attribution &&
      match get_prop attribution "title", get_prop attribution "author" with
      | Ok title, Ok author => truthy title && truthy author
      | _, _ => false
      end
  | _, _ => false
  end.

(** The log line of the insert handler can be written: neither the title
    nor the author of the body throws when it is made a string. *)
Definition loggable (document : value) : bool :=
  match get_prop document "attribution" with
  | Ok attribution =>
      match get_prop attribution "title", get_prop attribution "author" with
      | Ok title, Ok author => negb (existsb ToString_throws [title; author])
      | _, _ => false
      end
  | Throw _ => false
  end.

(** The date object made at the time [t]. *)
Definition date_at (t : jsstring) : value := VObj [("$date", VStr t)].

(** The body as the handler hands it to the gateway: stamped with the
    server's time, and with version 1 unless it brings a version. *)
Definition stamped (t : jsstring) (o : object) : object :=
  let o := set_field "updated_at" (date_at t) (set_field "created_at" (date_at t) o) in
  if truthy (or_undefined (lookup_field "version" o)) then o
  else set_field "version" (VNum 1) o.

(** A value whose properties can be read. *)
Definition readable (v : value) : bool :=
  match v with
  | VUndefined | VNull => false
  | _ => true
  end.

(** A stored document that [GET /api/documents] can summarize: it has
    an attribution and training metadata. *)
Definition listable (d : object) : bool :=
  readable (or_undefined (lookup_field "attribution" d)) &&
  readable (or_undefined (lookup_field "training_metadata" d)).

(** The properties of a summary. *)
Definition summary_keys : list string :=
  ["document_id"; "title"; "author"; "content_type"; "created_at";
   "character_count"; "weighting"]%string.

(** Texts for the errors that the engine and the driver raise, as sample
    data. *)
Definition sample_message (e : error) : string :=
  match e with
  | JsError m => m
  | TypeError => "Cannot read properties of undefined"
  | MongoNetworkError => "connect ECONNREFUSED 127.0.0.1:27017"
  | MongoServerError _ => "E11000 duplicate key error collection"
  | OutsideModel => "unknown operator"
  end.

(* ===================================================================== *)
(** ** Predicates on cleaned text *)
(* ===================================================================== *)

(** A unit that is no white space other than the space and the line
    feed. *)
Definition plain_space (c : code_unit) : bool :=
  negb (cls_space c) || N.eqb c SPACE || N.eqb c LF.

(** The units that the replacement texts of [cleanText] bring in:
    apostrophe, quotation mark, full stop, hyphen, space, line feed. *)
Definition inserted_units : list code_unit := [39; 34; 46; 45; 32; 10]%N.

(** Neither the first nor the last unit is white space. *)
Definition trimmed (s : jsstring) : Prop :=
  (forall c, head s = Some c -> cls_space c = false) /\
  (forall c, head (rev s) = Some c -> cls_space c = false).

(** The literal texts of a template are made of units of [S]. *)
Definition template_in (S : code_unit -> Prop) (t : template) : Prop :=
  Forall (fun it => match it with TLit l => Forall S l | _ => True end) t.

Definition captures_in (S : code_unit -> Prop) (cs : captures) : Prop :=
  Forall (fun it => Forall S (snd it)) cs.

(** A continuation that, on a subject and captures made of units of [S],
    answers with captures made of units of [S]. *)
Definition keeps (S : code_unit -> Prop) (k : continuation) : Prop :=
  forall pos cs res,
    Forall S (snd pos) -> captures_in S cs -> k pos cs = Some res ->
    captures_in S (snd res).

(** What a pattern can match, said without the order in which the
    matcher tries: [spans r pos pos'] holds when some way of reading [r]
    leads from [pos] to [pos'].  The matcher answers one of these ways,
    so where nothing spans the matcher fails. *)
Fixpoint spans (r : regex) (pos pos' : position) : Prop :=
  match r with
  | REmpty => pos' = pos
  | RChar p =>
      exists c, snd pos = c :: snd pos' /\ p c = true /\ fst pos' = Some c
  | RSeq r1 r2 => exists mid, spans r1 pos mid /\ spans r2 mid pos'
  | RAlt r1 r2 => spans r1 pos pos' \/ spans r2 pos pos'
  | RRep min p =>
      exists run,
        snd pos = run ++ snd pos' /\ forallb p run = true /\
        min <= length run /\ fst pos' = last_unit (fst pos) run
  | RGroup _ r' => spans r' pos pos'
  | RBol ml => pos' = pos /\ at_line_start ml pos = true
  | REol ml => pos' = pos /\ at_line_end ml pos = true
  end.

(** There is a unit, and it is of the class. *)
Definition holds (p : charclass) (o : option code_unit) : bool :=
  match o with Some c => p c | None => false end.

(** At the start of a line: a stretch of digits that is all of the
    line. *)
Definition number_line (s : jsstring) : bool :=
  (0 <? span cls_digit s) &&
  match drop (span cls_digit s) s with
  | [] => true
  | c :: _ => N.eqb c LF
  end.

(** After an opening bracket: digits and the closing bracket. *)
Definition citation_ahead (s : jsstring) : bool :=
  (0 <? span cls_digit s) &&
  holds (N.eqb 93) (head (drop (span cls_digit s) s)).

(** Tidy text: text in which the steps of [cleanText] find nothing to
    change.  [tidy_at prev c rest] is what is asked of the unit [c] that
    stands between [prev] and [rest]:
    - white space is a single space between two units that are not white
      space, or a line feed inside the text, of which there are at most
      two in a row;
    - a punctuation mark follows neither white space nor another mark;
    - U+00E2 is not followed by U+20AC (the mis-decoded sequences);
    - a number is not alone on its line;
    - a hyphen after a word unit does not end a line;
    - an opening bracket does not begin a citation marker;
    - the text does not go on with [http://] or [https://];
    - an at sign does not follow a unit of [[\w.-]]. *)
Definition tidy_at (prev : option code_unit) (c : code_unit)
    (rest : jsstring) : bool :=
  let next := head rest in
  (negb (cls_space c)
   || (N.eqb c SPACE && holds (cls_not cls_space) prev
       && holds (cls_not cls_space) next)
   || (N.eqb c LF && holds (fun _ => true) prev && holds (fun _ => true) next
       && negb (holds (N.eqb LF) prev && holds (N.eqb LF) next)))
  && negb (Patterns.punct c && holds (cls_or cls_space Patterns.punct) prev)
  && negb (N.eqb c 226 && holds (N.eqb 8364) next)
  && negb (match prev with None => true | Some p => N.eqb p LF end
           && number_line (c :: rest))
  && negb (N.eqb c 45 && holds cls_word prev && holds (N.eqb LF) next)
  && negb (N.eqb c 91 && citation_ahead rest)
  && negb (starts_with (js "http://") (c :: rest)
           || starts_with (js "https://") (c :: rest))
  && negb (N.eqb c 64 && holds (cls_or cls_word (one_of [46; 45]%N)) prev).

Fixpoint tidy_from (prev : option code_unit) (s : jsstring) : bool :=
  match s with
  | [] => true
  | c :: s' => tidy_at prev c s' && tidy_from (Some c) s'
  end.

Definition tidy (s : jsstring) : bool := tidy_from None s.

(** The two passes over a text, with what each answers: the first pass
    gives [once], the second gives [twice], and they differ. *)
Definition two_passes_differ (x once twice : jsstring) : Prop :=
  forall nfc, nfc_fixes_ascii nfc ->
    cleanText nfc (VStr x) = once /\
    cleanText nfc (VStr once) = twice /\
    twice <> once.

(** A position of the scan in tidy text: what follows is tidy, and the
    unit before, if it ends a line, is a line feed. *)
Definition tidy_here (prev : option code_unit) (s : jsstring) : Prop :=
  tidy_from prev s = true /\
  (holds line_terminator prev = true -> prev = Some LF).

(* ===================================================================== *)
(** ** From the page to the server *)
(* ===================================================================== *)

(** [JSON.stringify] writes [null] for [null], for [NaN] and for the
    infinities. *)
Definition json_string (s : option jsstring) : value :=
  match s with
  | Some s => VStr s
  | None => VNull
  end.

Definition json_number (n : number) : value :=
  match n with
  | Finite n => VNum n
  | NaN | Infinity _ => VNull
  end.

(** The body that the server reads when the page posts a record:
    [JSON.stringify(currentDocumentData)] as [express.json()] parses it. *)
Definition posted_body (r : Schema.document_record) : value :=
  let a := Schema.attribution_of r in
  let m := Schema.content_metadata_of r in
  let c := Schema.copyright_compliance_of r in
  let p := Schema.provenance_of r in
  let t := Schema.training_metadata_of r in
  let e := Schema.ai_act_compliance_of r in
  VObj
    [("document_id", VStr (Schema.document_id r));
     ("content_text", VStr (Schema.content_text r));
     ("attribution",
      VObj [("author", VStr (Schema.author a));
            ("title", VStr (Schema.title a));
            ("publisher", json_string (Schema.publisher a));
            ("isbn", json_string (Schema.isbn a));
            ("publication_date", json_string (Schema.publication_date a));
            ("source_url", json_string (Schema.source_url a));
            ("content_type", VStr (Schema.content_type a))]);
     ("content_metadata",
      VObj [("language", VStr (Schema.language m));
            ("topic_category", VArr (map VStr (Schema.topic_category m)));
            ("genre", json_string (Schema.genre m));
            ("chapter_section", json_string (Schema.chapter_section m));
            ("page_numbers", json_string (Schema.page_numbers m))]);
     ("copyright_compliance",
      VObj [("license_status", VStr (Schema.license_status c));
            ("fair_use_assessment", VStr (Schema.fair_use_assessment c));
            ("opt_out_status",
             VObj [("has_opted_out",
                    VBool (Schema.has_opted_out (Schema.opt_out c)));
                   ("opt_out_mechanism",
                    VStr (Schema.opt_out_mechanism (Schema.opt_out c)));
                   ("last_checked",
                    VStr (Schema.last_checked (Schema.opt_out c)))]);
            ("compliance_date", VStr (Schema.compliance_date c))]);
     ("provenance",
      VObj [("acquisition_date", VStr (Schema.acquisition_date p));
            ("acquisition_method", VStr (Schema.acquisition_method p));
            ("original_publication_date",
             VStr (Schema.original_publication_date p));
            ("data_lineage",
             VArr (map (fun s =>
                     VObj [("step", VStr (Schema.step s));
                           ("timestamp", VStr (Schema.timestamp s));
                           ("tool_used", VStr (Schema.tool_used s))])
                     (Schema.data_lineage p)))]);
     ("training_metadata",
      VObj [("token_count", VNum (Z.of_nat (Schema.token_count t)));
            ("character_count", VNum (Z.of_nat (Schema.character_count t)));
            ("processing_status", VStr (Schema.processing_status t));
            ("weighting", json_number (Schema.weighting t))]);
     ("ai_act_compliance",
      VObj [("summary_included", VBool (Schema.summary_included e));
            ("transparency_level", VStr (Schema.transparency_level e));
            ("documented_for_authorities",
             VBool (Schema.documented_for_authorities e))]);
     ("created_at", VStr (Schema.created_at r));
     ("updated_at", VStr (Schema.updated_at r));
     ("version", VNum (Schema.version r))].

(** The units [0] to [9], listed. *)
Definition digits : list code_unit := map N.of_nat (seq 48 10).

(** The storage key that the store would generate next is not in use. *)
Definition key_unused (w : world) : Prop :=
  Forall (fun d => lookup_field "_id" d <> Some (VOid (next_oid w))) (coll w).

(** The value of a decimal numeral read from the left, after the value
    [a] of the digits before it. *)
Fixpoint horner (a : N) (d : Decimal.uint) : N :=
  match d with
  | Decimal.Nil => a
  | Decimal.D0 l => horner (a * 10 + 0) l
  | Decimal.D1 l => horner (a * 10 + 1) l
  | Decimal.D2 l => horner (a * 10 + 2) l
  | Decimal.D3 l => horner (a * 10 + 3) l
  | Decimal.D4 l => horner (a * 10 + 4) l
  | Decimal.D5 l => horner (a * 10 + 5) l
  | Decimal.D6 l => horner (a * 10 + 6) l
  | Decimal.D7 l => horner (a * 10 + 7) l
  | Decimal.D8 l => horner (a * 10 + 8) l
  | Decimal.D9 l => horner (a * 10 + 9) l
  end.

(** No optional field of the record is the empty string. *)
Definition optional_fields_set (r : Schema.document_record) : Prop :=
  let a := Schema.attribution_of r in
  let m := Schema.content_metadata_of r in
  Forall (fun x => x <> Some [])
    [Schema.publisher a; Schema.isbn a; Schema.publication_date a;
     Schema.source_url a; Schema.genre m; Schema.chapter_section m;
     Schema.page_numbers m].

(* ===================================================================== *)
(** ** The live counters of the page: [updateContentStats] *)
(* ===================================================================== *)

(** [subject.split(/r/)] for a pattern without groups, as the [@@split]
    method of regular expressions runs it: [piece] holds the units since
    the end of the last separator, [skip] counts the units of the
    current separator still to be passed over.  At each position the
    pattern is tried there only; an empty match right after a separator
    (or at the start) is passed by; the units after the last separator
    are the last piece. *)
Fixpoint split_from (r : regex) (piece : jsstring) (skip : nat)
    (prev : option code_unit) (s : jsstring) : list jsstring :=
  match s with
  | [] => [piece]
  | c :: s' =>
      match skip with
      | S n => split_from r [] n (Some c) s'
      | O =>
          match exec r prev s with
          | None => split_from r (piece ++ [c]) 0 (Some c) s'
          | Some (len, _) =>
              match len, piece with
              | O, [] => split_from r [c] 0 (Some c) s'
              | O, _ :: _ => piece :: split_from r [c] 0 (Some c) s'
              | S n, _ => piece :: split_from r [] n (Some c) s'
              end
          end
      end
  end.

Definition split (r : regex) (s : jsstring) : list jsstring :=
  match s with
  | [] => match exec r None [] with Some _ => [] | None => [[]] end
  | _ :: _ => split_from r [] 0 None s
  end.

(** [/\s+/] *)
Definition whitespace_run : regex := RRep 1 cls_space.

(** What [updateContentStats] shows for the text of the text area:
    characters, words and estimated tokens (the grouping of digits by
    [toLocaleString] is left out); nothing without a text area. *)
Definition updateContentStats (contentTextarea : option jsstring)
  : option (nat * nat * nat) :=
  match contentTextarea with
  | None => None
  | Some text =>
      let chars := length text in
      let words :=
        if truthy (VStr (trim text))
        then length (split whitespace_run (trim text)) else 0 in
      let tokens := ceil_div4 chars in
      Some (chars, words, tokens)
  end.

(** The number of maximal stretches of units that are not white space,
    read knowing whether the unit before is part of one. *)
Fixpoint count_words (in_word : bool) (s : jsstring) : nat :=
  match s with
  | [] => 0
  | c :: s' =>
      if cls_space c then count_words false s'
      else (if in_word then 0 else 1) + count_words true s'
  end.

(** The number of maximal stretches of white space, read knowing whether
    the unit before is part of one. *)
Fixpoint whitespace_runs (in_run : bool) (s : jsstring) : nat :=
  match s with
  | [] => 0
  | c :: s' =>
      if cls_space c then (if in_run then 0 else 1) + whitespace_runs true s'
      else whitespace_runs false s'
  end.

(* ===================================================================== *)
(** ** The page: preview and submission *)
(* ===================================================================== *)

(** What [insertDocument] of the page shows in the end: the argument of
    its last [showStatus]. *)
Inductive notice :=
| NoData                          (* 'No data to insert', error *)
| InsertedNotice (insertedId : value)
                                  (* 'Successfully inserted document! ID: ...',
                                     success *)
| ErrorNotice (message : string). (* 'Error: ' + message, error *)

Module Page.
Section Script.
Variable createDocumentStructure : form -> host -> Schema.document_record.
Variable foreign_message : error -> string.

(** [generatePreview()]: the new value of [currentDocumentData].  (The
    builder reads the page only, so the [catch] is never entered; what is
    shown on the page is left out.) *)
Definition generatePreview (f : form) (h : host)
    (currentDocumentData : option Schema.document_record)
  : option Schema.document_record :=
  if negb (validateForm f) then currentDocumentData
  else Some (createDocumentStructure f h).

(** [response.ok] *)
Definition response_ok {A} (r : response A) : bool :=
  (200 <=? status r)%N && (status r <=? 299)%N.

(** [error.error || 'Failed to insert document'] *)
Definition error_text (m : string) : string :=
  match m with
  | EmptyString => "Failed to insert document"%string
  | _ => m
  end.

(** [insertDocument()] of the page, with the server at the other end of
    [fetch] (a request that does not arrive is left out).  The answer is
    what the page shows; [currentDocumentData] is not touched here: after
    a success the page asks two seconds later whether to clear the form,
    and only a confirmed clearing resets it. *)
Definition insertDocument
    (currentDocumentData : option Schema.document_record) (w : world)
  : notice * world :=
  match currentDocumentData with
  | None => (NoData, w)
  | Some data =>
      let '(response, w') :=
        Server.insert_document foreign_message (posted_body data) w in
      if response_ok response then
        match body response with
        | Inserted insertedId => (InsertedNotice insertedId, w')
        | Refused _ => (InsertedNotice VUndefined, w')
        end
      else
        match body response with
        | Refused m => (ErrorNotice (error_text m), w')
        | Inserted _ => (ErrorNotice (error_text EmptyString), w')
        end
  end.
End Script.
End Page.

(* ===================================================================== *)
(** * Properties *)
(* ===================================================================== *)

(** ** The matcher and the global replace *)

Lemma rmatch_rseq_cons r rs k pos cs :
  rmatch (rseq (r :: rs)) k pos cs = rmatch r (rmatch (rseq rs) k) pos cs.
Proof. destruct rs; reflexivity. Qed.

Section Failing.
Variable units : list code_unit.

Lemma rep_fail p k :
  (forall pos cs, forallb (one_of units) (snd pos) = true -> k pos cs = None) ->
  forall s min prev cs, forallb (one_of units) s = true -> rep p min k prev s cs = None.
Proof.
  intros Hk s. induction s as [|c s IH]; intros min prev cs Hs.
  - simpl. destruct min; [apply (Hk (prev, [])); exact Hs | reflexivity].
  - simpl. apply andb_true_iff in Hs as Hs'. destruct Hs' as [_ Hs'].
    rewrite (IH _ _ _ Hs'). simpl.
    destruct (p c); destruct min; try reflexivity; apply (Hk (prev, c :: s)); exact Hs.
Qed.

Lemma rmatch_fail r :
  forall k,
  (forall pos cs, forallb (one_of units) (snd pos) = true -> k pos cs = None) ->
  forall pos cs, forallb (one_of units) (snd pos) = true -> rmatch r k pos cs = None.
Proof.
  induction r as [|p|r1 IH1 r2 IH2|r1 IH1 r2 IH2|min p|i r IH|ml|ml];
    intros k Hk pos cs Hs; simpl.
  - apply Hk, Hs.
  - destruct pos as [prev [|c s]]; simpl in *; [reflexivity|].
    destruct (p c); [|reflexivity]. apply (Hk (Some c, s)).
    simpl. apply andb_true_iff in Hs. tauto.
  - apply IH1; [|exact Hs]. intros pos' cs' Hs'. apply IH2; assumption.
  - rewrite IH1, IH2; auto.
  - apply rep_fail; assumption.
  - apply IH; [|exact Hs]. intros pos' cs' Hs'. apply Hk, Hs'.
  - destruct (at_line_start ml pos); [apply Hk, Hs | reflexivity].
  - destruct (at_line_end ml pos); [apply Hk, Hs | reflexivity].
Qed.

Lemma forallb_negb_none (p : charclass) c :
  forallb (fun c => negb (p c)) units = true -> one_of units c = true -> p c = false.
Proof.
  intros Hall Hc. unfold one_of in Hc. apply existsb_exists in Hc.
  destruct Hc as [d [Hin Heq]]. apply N.eqb_eq in Heq. subst d.
  rewrite forallb_forall in Hall. specialize (Hall c Hin).
  now apply negb_true_iff in Hall.
Qed.

Lemma dead_on_fail r :
  dead_on units r = true ->
  forall k pos cs, forallb (one_of units) (snd pos) = true -> rmatch r k pos cs = None.
Proof.
  induction r as [|p|r1 IH1 r2 IH2|r1 IH1 r2 IH2|min p|i r IH|ml|ml];
    simpl; intros Hd k pos cs Hs; try discriminate.
  - destruct pos as [prev [|c s]]; simpl in *; [reflexivity|].
    apply andb_true_iff in Hs. destruct Hs as [Hc _].
    now rewrite (forallb_negb_none p c Hd Hc).
  - apply orb_true_iff in Hd. destruct Hd as [Hd|Hd].
    + apply IH1; assumption.
    + apply rmatch_fail; [|exact Hs]. intros. apply IH2; assumption.
  - apply andb_true_iff in Hd. destruct Hd as [Hd1 Hd2].
    rewrite IH1, IH2; auto.
  - destruct min as [|n]; [discriminate|].
    destruct pos as [prev [|c s]]; simpl in *; [reflexivity|].
    apply andb_true_iff in Hs. destruct Hs as [Hc _].
    now rewrite (forallb_negb_none p c Hd Hc).
  - apply IH; assumption.
Qed.

Lemma dead_on_exec r prev s :
  dead_on units r = true -> forallb (one_of units) s = true -> exec r prev s = None.
Proof.
  intros Hd Hs. unfold exec. now rewrite (dead_on_fail r Hd _ (prev, s) [] Hs).
Qed.

Lemma replace_from_no_match r t :
  (forall prev s, forallb (one_of units) s = true -> exec r prev s = None) ->
  forall s prev, forallb (one_of units) s = true -> replace_from r t 0 prev s = s.
Proof.
  intros Hno s. induction s as [|c s IH]; intros prev Hs.
  - simpl. now rewrite Hno.
  - simpl. rewrite (Hno _ _ Hs). f_equal. apply IH.
    simpl in Hs. apply andb_true_iff in Hs. tauto.
Qed.

Lemma replace_all_dead r t s :
  dead_on units r = true -> forallb (one_of units) s = true -> replace_all r t s = s.
Proof.
  intros Hd Hs. apply replace_from_no_match; [|exact Hs].
  intros. now apply dead_on_exec.
Qed.
End Failing.

Example dead_patterns :
  forallb (dead_on alphabet)
    [Patterns.apostrophes; Patterns.quotes; Patterns.ellipsis; Patterns.em_dash;
     Patterns.en_dash; Patterns.page_number; Patterns.hyphenation;
     Patterns.line_breaks; Patterns.citation; Patterns.space_before_punct;
     Patterns.adjacent_punct; Patterns.url; Patterns.email] = true.
Proof. vm_compute. reflexivity. Qed.

Lemma one_of_In l c : one_of l c = true <-> In c l.
Proof.
  unfold one_of. rewrite existsb_exists. split.
  - intros [d [Hin Heq]]. apply N.eqb_eq in Heq. now subst.
  - intros Hin. exists c. split; [exact Hin | apply N.eqb_refl].
Qed.

Lemma ascii_letter_enum c : ascii_letter c = true -> one_of letters c = true.
Proof.
  unfold ascii_letter, cls_or, in_range. intros H.
  apply one_of_In. unfold letters. apply in_or_app.
  apply orb_true_iff in H. destruct H as [H|H];
    apply andb_true_iff in H; destruct H as [H1 H2];
    apply N.leb_le in H1; apply N.leb_le in H2; [left|right];
    apply in_map_iff; exists (N.to_nat c);
    (split; [apply N2Nat.id | apply in_seq; lia]).
Qed.

Lemma letter_class (q : charclass) c :
  forallb (fun c => negb (q c)) letters = true -> ascii_letter c = true -> q c = false.
Proof.
  intros Hq Hc. apply ascii_letter_enum in Hc. apply one_of_In in Hc.
  rewrite forallb_forall in Hq. specialize (Hq c Hc). now apply negb_true_iff in Hq.
Qed.

(** *** Already-clean text is left unchanged *)

Lemma clean_aux_cons b c s :
  clean_aux b (c :: s) = true ->
  (ascii_letter c = true /\ clean_aux true s = true) \/
  (ascii_letter c = false /\ c = SPACE /\ b = true /\ clean_aux false s = true).
Proof.
  simpl. destruct (ascii_letter c); [left; auto|].
  intros H. apply andb_true_iff in H. destruct H as [H H3].
  apply andb_true_iff in H. destruct H as [H1 H2]. apply N.eqb_eq in H1.
  right; auto.
Qed.

Lemma clean_aux_false_head s :
  clean_aux false s = true ->
  exists d s', s = d :: s' /\ ascii_letter d = true /\ clean_aux true s' = true.
Proof.
  destruct s as [|d s']; [discriminate|]. intros H.
  apply clean_aux_cons in H. destruct H as [[H1 H2]|[_ [_ [H _]]]]; [|discriminate].
  exists d, s'. auto.
Qed.

Lemma clean_aux_over b s :
  clean_aux b s = true -> forallb (one_of alphabet) s = true.
Proof.
  revert b. induction s as [|c s IH]; intros b H; [reflexivity|].
  cbn [forallb]. apply clean_aux_cons in H.
  destruct H as [[H1 H2]|[_ [-> [_ H2]]]].
  - rewrite (IH _ H2), andb_true_r. apply one_of_In. unfold alphabet.
    apply in_or_app. right. apply one_of_In, ascii_letter_enum, H1.
  - rewrite (IH _ H2). reflexivity.
Qed.

Lemma clean_aux_last b s0 c :
  clean_aux b (s0 ++ [c]) = true -> ascii_letter c = true.
Proof.
  revert b. induction s0 as [|x s0 IH]; intros b H.
  - apply clean_aux_cons in H. destruct H as [[H _]|[_ [_ [_ H]]]]; [exact H|discriminate].
  - change ((x :: s0) ++ [c]) with (x :: (s0 ++ [c])) in H.
    apply clean_aux_cons in H. destruct H as [[_ H]|[_ [_ [_ H]]]]; eapply IH; exact H.
Qed.

Lemma letter_not_space c : ascii_letter c = true -> cls_space c = false.
Proof. apply letter_class. vm_compute. reflexivity. Qed.

Lemma letter_not_blank c : ascii_letter c = true -> Patterns.blank c = false.
Proof. apply letter_class. vm_compute. reflexivity. Qed.

Lemma letter_not_edge c : ascii_letter c = true -> Patterns.space_or_tab c = false.
Proof. apply letter_class. vm_compute. reflexivity. Qed.

Lemma letter_not_terminator c : ascii_letter c = true -> line_terminator c = false.
Proof. apply letter_class. vm_compute. reflexivity. Qed.

Lemma trim_clean s : clean_aux false s = true -> trim s = s.
Proof.
  intros H. destruct (clean_aux_false_head s H) as [d [s' [-> [Hd _]]]].
  unfold trim. simpl trim_start at 2. rewrite (letter_not_space d Hd).
  destruct (exists_last (l := d :: s')) as [s0 [c Hs]]; [discriminate|].
  rewrite Hs in *. rewrite rev_app_distr. simpl rev at 2. simpl app.
  simpl trim_start. rewrite (letter_not_space c (clean_aux_last _ _ _ H)).
  change (c :: rev s0) with (rev [c] ++ rev s0). rewrite <- rev_app_distr.
  apply rev_involutive.
Qed.

(** Unfolding of the scan at a position where the pattern fails, and
    where it matches a non-empty stretch. *)
Lemma replace_from_miss r t prev c s :
  exec r prev (c :: s) = None ->
  replace_from r t 0 prev (c :: s) = c :: replace_from r t 0 (Some c) s.
Proof. intros H. cbn [replace_from]. now rewrite H. Qed.

Lemma replace_from_hit r t prev c s n cs :
  exec r prev (c :: s) = Some (S n, cs) ->
  replace_from r t 0 prev (c :: s) =
  expand t (take (S n) (c :: s)) cs ++ replace_from r t n (Some c) s.
Proof. intros H. cbn [replace_from]. now rewrite H. Qed.

Lemma replace_from_end r t prev :
  exec r prev [] = None -> replace_from r t 0 prev [] = [].
Proof. intros H. cbn [replace_from]. now rewrite H. Qed.

Lemma replace_from_inv r t (Inv : option code_unit -> jsstring -> Prop) :
  (forall prev c s, Inv prev (c :: s) -> Inv (Some c) s) ->
  (forall prev s, Inv prev s -> exec r prev s = None) ->
  forall s prev, Inv prev s -> replace_from r t 0 prev s = s.
Proof.
  intros Hstep Hno s. induction s as [|c s IH]; intros prev HI.
  - apply replace_from_end, Hno, HI.
  - rewrite replace_from_miss by (apply Hno, HI). f_equal.
    apply IH. eapply Hstep, HI.
Qed.

Lemma rep_end p n k prev cs : rep p (S n) k prev [] cs = None.
Proof. reflexivity. Qed.

Lemma rep_miss p n k prev c s cs :
  p c = false -> rep p (S n) k prev (c :: s) cs = None.
Proof. intros H. cbn [rep]. now rewrite H. Qed.

Lemma rep_stop p k prev c s cs :
  p c = false -> rep p 0 k prev (c :: s) cs = k (prev, c :: s) cs.
Proof. intros H. cbn [rep]. now rewrite H. Qed.

Lemma rep_take p min k prev c s cs :
  p c = true ->
  rep p min k prev (c :: s) cs =
  orelse (rep p (pred min) k (Some c) s cs)
    (fun _ => match min with O => k (prev, c :: s) cs | S _ => None end).
Proof. intros H. cbn [rep]. now rewrite H. Qed.

(** Step 5 on clean text: every run of blanks is one space, replaced by
    one space. *)
Lemma exec_blanks_single prev d s :
  Patterns.blank d = false ->
  exec Patterns.blanks prev (SPACE :: d :: s) = Some (1, []).
Proof.
  intros Hd. unfold exec, Patterns.blanks. cbn [rmatch fst snd].
  rewrite rep_take by reflexivity. cbn [pred].
  rewrite rep_stop by exact Hd. cbn [orelse snd length].
  do 2 f_equal. lia.
Qed.

Lemma blanks_clean s :
  forall b prev, clean_aux b s = true ->
  replace_from Patterns.blanks [TLit (js " ")] 0 prev s = s.
Proof.
  induction s as [|c s IH]; intros b prev H; [reflexivity|].
  apply clean_aux_cons in H. destruct H as [[Hc H]|[_ [-> [_ H]]]].
  - rewrite replace_from_miss.
    + f_equal. eapply IH, H.
    + unfold exec, Patterns.blanks. cbn [rmatch fst snd].
      now rewrite rep_miss by (apply letter_not_blank, Hc).
  - destruct (clean_aux_false_head s H) as [d [s' [-> [Hd H']]]].
    rewrite (replace_from_hit _ _ _ _ _ 0 []).
    + cbn [expand flat_map take app]. change (js " ") with [SPACE]. cbn [app].
      f_equal. eapply IH, H.
    + apply exec_blanks_single, letter_not_blank, Hd.
Qed.

Lemma blanks_clean_all s :
  clean_aux false s = true ->
  replace_all Patterns.blanks [TLit (js " ")] s = s.
Proof. apply blanks_clean. Qed.

(** Step 7 on clean text: no line starts or ends with a blank. *)
Lemma edge_inv_step prev c s : edge_inv prev (c :: s) -> edge_inv (Some c) s.
Proof.
  intros H.
  assert (exists b, clean_aux b (c :: s) = true) as [b Hb].
  { destruct prev as [p|]; [destruct H as [[_ H]|[_ H]]|]; eauto. }
  apply clean_aux_cons in Hb. destruct Hb as [[H1 H2]|[_ [-> [_ H2]]]].
  - left. auto.
  - right. auto.
Qed.

Lemma exec_line_edges_clean prev s :
  edge_inv prev s -> exec Patterns.line_edges prev s = None.
Proof.
  intros H. unfold exec, Patterns.line_edges. cbn [rmatch fst snd].
  destruct s as [|c s].
  - rewrite !rep_end. destruct (at_line_start _ _); reflexivity.
  - assert (exists b, clean_aux b (c :: s) = true /\
              (b = true -> exists p, prev = Some p /\ ascii_letter p = true))
      as [b [Hb Hprev]].
    { destruct prev as [p|]; [destruct H as [[Hp H]|[_ H]]|].
      - exists true. eauto.
      - exists false. split; [exact H | discriminate].
      - exists false. split; [exact H | discriminate]. }
    apply clean_aux_cons in Hb. destruct Hb as [[Hc _]|[_ [-> [Hbt Hs]]]].
    + rewrite !rep_miss by (apply letter_not_edge, Hc).
      destruct (at_line_start _ _); reflexivity.
    + destruct (Hprev Hbt) as [p [-> Hp]].
      unfold at_line_start. cbn [fst]. rewrite (letter_not_terminator p Hp).
      cbn [andb orelse].
      destruct (clean_aux_false_head s Hs) as [d [s' [-> [Hd _]]]].
      rewrite rep_take by reflexivity. cbn [pred].
      rewrite rep_stop by (apply letter_not_edge, Hd).
      cbn [rmatch]. unfold at_line_end. cbn [snd].
      now rewrite (letter_not_terminator d Hd).
Qed.

Lemma line_edges_clean s :
  clean_aux false s = true -> replace_all Patterns.line_edges [] s = s.
Proof.
  intros H. unfold replace_all.
  apply (replace_from_inv _ _ edge_inv);
    [apply edge_inv_step | apply exec_line_edges_clean | exact H].
Qed.

(** *** Letters and blanks: the pipeline reaches clean text in one pass *)

Lemma alphabet_cases c :
  one_of alphabet c = true ->
  (ascii_letter c = true /\ Patterns.blank c = false /\
   Patterns.space_or_tab c = false) \/
  (ascii_letter c = false /\ Patterns.blank c = true).
Proof.
  intros H. apply one_of_In in H.
  assert (forallb (fun c =>
            (ascii_letter c && negb (Patterns.blank c)
             && negb (Patterns.space_or_tab c))
            || (negb (ascii_letter c) && Patterns.blank c)) alphabet = true) as Hall
    by (vm_compute; reflexivity).
  rewrite forallb_forall in Hall. specialize (Hall c H).
  apply orb_true_iff in Hall. destruct Hall as [Hl|Hb].
  - left. apply andb_true_iff in Hl. destruct Hl as [Hl H3].
    apply andb_true_iff in Hl. destruct Hl as [H1 H2].
    apply negb_true_iff in H2. apply negb_true_iff in H3. auto.
  - right. apply andb_true_iff in Hb. destruct Hb as [H1 H2].
    apply negb_true_iff in H1. auto.
Qed.

(** A greedy repetition followed by nothing takes the whole stretch. *)
Lemma rep_greedy p s :
  forall min prev cs,
  exists prev',
    rep p min (fun pos cs => Some (pos, cs)) prev s cs =
    if min <=? span p s then Some ((prev', drop (span p s) s), cs) else None.
Proof.
  induction s as [|c s IH]; intros min prev cs.
  - exists prev. cbn. destruct min; reflexivity.
  - cbn [rep span]. destruct (p c) eqn:E.
    + destruct (IH (pred min) (Some c) cs) as [prev' ->].
      destruct min as [|m]; cbn [pred Nat.leb drop orelse].
      * exists prev'. reflexivity.
      * exists prev'. destruct (m <=? span p s); reflexivity.
    + exists prev. destruct min; reflexivity.
Qed.

Lemma span_le p s : span p s <= length s.
Proof. induction s as [|c s IH]; cbn; [lia|]. destruct (p c); cbn; lia. Qed.

Lemma exec_blanks_run prev c s :
  Patterns.blank c = true ->
  exec Patterns.blanks prev (c :: s) = Some (S (span Patterns.blank s), []).
Proof.
  intros Hc. unfold exec, Patterns.blanks. cbn [rmatch fst snd].
  destruct (rep_greedy Patterns.blank (c :: s) 1 prev []) as [prev' ->].
  cbn [span]. rewrite Hc. cbn [Nat.leb drop snd].
  rewrite length_drop. cbn [length]. do 2 f_equal.
  pose proof (span_le Patterns.blank s). lia.
Qed.

Lemma exec_blanks_miss prev c s :
  Patterns.blank c = false -> exec Patterns.blanks prev (c :: s) = None.
Proof.
  intros Hc. unfold exec, Patterns.blanks. cbn [rmatch fst snd].
  now rewrite rep_miss.
Qed.

(** Step 5 on letters and blanks: every run of blanks becomes one space. *)
Lemma blanks_single_spaced s :
  forallb (one_of alphabet) s = true ->
  (forall prev,
     single_spaced false (replace_from Patterns.blanks [TLit (js " ")] 0 prev s) = true) /\
  (forall prev,
     single_spaced true
       (replace_from Patterns.blanks [TLit (js " ")] (span Patterns.blank s) prev s) = true).
Proof.
  induction s as [|c s IH]; intros Hs.
  - split; intros prev; reflexivity.
  - cbn [forallb] in Hs. apply andb_true_iff in Hs. destruct Hs as [Hc Hs].
    destruct (IH Hs) as [IH1 IH2]. cbn [span].
    destruct (alphabet_cases c Hc) as [[Hl [Hb _]]|[Hl Hb]]; rewrite Hb.
    + assert (forall prev,
        replace_from Patterns.blanks [TLit (js " ")] 0 prev (c :: s)
        = c :: replace_from Patterns.blanks [TLit (js " ")] 0 (Some c) s) as E.
      { intros prev. apply replace_from_miss, exec_blanks_miss, Hb. }
      split; intros prev; rewrite E; cbn [single_spaced]; rewrite Hl; apply IH1.
    + split; intros prev.
      * rewrite (replace_from_hit _ _ _ _ _ _ _ (exec_blanks_run prev c s Hb)).
        cbn [expand flat_map app]. change (js " ") with [SPACE]. cbn [app].
        cbn [single_spaced]. change (ascii_letter SPACE) with false.
        cbn [negb andb]. rewrite N.eqb_refl. apply IH2.
      * cbn [replace_from]. apply IH2.
Qed.

Lemma single_spaced_cons b c s :
  single_spaced b (c :: s) = true ->
  (ascii_letter c = true /\ single_spaced false s = true) \/
  (ascii_letter c = false /\ c = SPACE /\ b = false /\ single_spaced true s = true).
Proof.
  cbn [single_spaced]. destruct (ascii_letter c); [left; auto|].
  intros H. apply andb_true_iff in H. destruct H as [H H3].
  apply andb_true_iff in H. destruct H as [H1 H2]. apply N.eqb_eq in H1.
  apply negb_true_iff in H2. right; auto.
Qed.

Lemma single_spaced_after_space s :
  single_spaced true s = true ->
  s = [] \/ exists d s', s = d :: s' /\ ascii_letter d = true /\
                         single_spaced false s' = true.
Proof.
  destruct s as [|d s']; [auto|]. intros H. right.
  apply single_spaced_cons in H. destruct H as [[H1 H2]|[_ [_ [H _]]]]; [|discriminate].
  exists d, s'. auto.
Qed.

Lemma exec_line_edges_letter prev c s :
  ascii_letter c = true -> exec Patterns.line_edges prev (c :: s) = None.
Proof.
  intros Hc. unfold exec, Patterns.line_edges. cbn [rmatch fst snd].
  rewrite !rep_miss by (apply letter_not_edge, Hc).
  destruct (at_line_start _ _); reflexivity.
Qed.

Lemma exec_line_edges_end prev : exec Patterns.line_edges prev [] = None.
Proof.
  unfold exec, Patterns.line_edges. cbn [rmatch fst snd]. rewrite !rep_end.
  destruct (at_line_start _ _); reflexivity.
Qed.

Lemma exec_line_edges_trailing p :
  ascii_letter p = true ->
  exec Patterns.line_edges (Some p) [SPACE] = Some (1, []).
Proof.
  intros Hp. unfold exec, Patterns.line_edges. cbn [rmatch fst snd].
  unfold at_line_start. cbn [fst]. rewrite (letter_not_terminator p Hp).
  reflexivity.
Qed.

Lemma exec_line_edges_inner p d s :
  ascii_letter p = true -> ascii_letter d = true ->
  exec Patterns.line_edges (Some p) (SPACE :: d :: s) = None.
Proof.
  intros Hp Hd. unfold exec, Patterns.line_edges. cbn [rmatch fst snd].
  unfold at_line_start. cbn [fst]. rewrite (letter_not_terminator p Hp).
  cbn [andb orelse]. rewrite rep_take by reflexivity. cbn [pred].
  rewrite rep_stop by (apply letter_not_edge, Hd).
  cbn [rmatch]. unfold at_line_end. cbn [snd].
  now rewrite (letter_not_terminator d Hd).
Qed.

Lemma exec_line_edges_leading s :
  single_spaced true s = true ->
  exec Patterns.line_edges None (SPACE :: s) = Some (1, []).
Proof.
  intros Hs. unfold exec, Patterns.line_edges. cbn [rmatch fst snd].
  unfold at_line_start. cbn [fst]. rewrite rep_take by reflexivity. cbn [pred].
  destruct (single_spaced_after_space s Hs) as [->|[d [s' [-> [Hd _]]]]].
  - reflexivity.
  - rewrite rep_stop by (apply letter_not_edge, Hd). cbn [orelse snd length].
    do 2 f_equal. lia.
Qed.

(** Step 7 on single-spaced text, after a letter: a trailing space goes,
    the inner ones stay. *)
Lemma line_edges_after_letter n :
  forall t p, length t <= n ->
  ascii_letter p = true -> single_spaced false t = true ->
  clean_aux true (replace_from Patterns.line_edges [] 0 (Some p) t) = true.
Proof.
  induction n as [|n IH]; intros t p Hlen Hp Ht.
  - destruct t; [|cbn in Hlen; lia]. now rewrite replace_from_end by apply exec_line_edges_end.
  - destruct t as [|c t]; [now rewrite replace_from_end by apply exec_line_edges_end|].
    cbn [length] in Hlen.
    apply single_spaced_cons in Ht. destruct Ht as [[Hc Ht]|[Hc [-> [_ Ht]]]].
    + rewrite replace_from_miss by (apply exec_line_edges_letter, Hc).
      cbn [clean_aux]. rewrite Hc. apply IH; [lia | exact Hc | exact Ht].
    + destruct (single_spaced_after_space t Ht) as [->|[d [t' [-> [Hd Ht']]]]].
      * rewrite (replace_from_hit _ _ _ _ _ _ _ (exec_line_edges_trailing p Hp)).
        cbn [expand flat_map app].
        now rewrite replace_from_end by apply exec_line_edges_end.
      * rewrite replace_from_miss by (apply exec_line_edges_inner; assumption).
        rewrite replace_from_miss by (apply exec_line_edges_letter, Hd).
        cbn [clean_aux]. change (ascii_letter SPACE) with false. rewrite Hd.
        rewrite N.eqb_refl. cbn [andb].
        apply IH; [cbn [length] in Hlen; lia | exact Hd | exact Ht'].
Qed.

Lemma line_edges_single_spaced t :
  single_spaced false t = true ->
  clean_text (replace_all Patterns.line_edges [] t) = true.
Proof.
  intros Ht. unfold replace_all.
  assert (forall d X, ascii_letter d = true -> clean_aux true X = true ->
                      clean_text (d :: X) = true) as Hhead.
  { intros d X Hd HX. cbn [clean_text clean_aux]. now rewrite Hd. }
  destruct t as [|c t]; [now rewrite replace_from_end by apply exec_line_edges_end|].
  apply single_spaced_cons in Ht. destruct Ht as [[Hc Ht]|[Hc [-> [_ Ht]]]].
  - rewrite replace_from_miss by (apply exec_line_edges_letter, Hc).
    apply Hhead; [exact Hc|]. now apply (line_edges_after_letter (length t)).
  - rewrite (replace_from_hit _ _ _ _ _ _ _ (exec_line_edges_leading t Ht)).
    cbn [expand flat_map app].
    destruct (single_spaced_after_space t Ht) as [->|[d [t' [-> [Hd Ht']]]]].
    + now rewrite replace_from_end by apply exec_line_edges_end.
    + rewrite replace_from_miss by (apply exec_line_edges_letter, Hd).
      apply Hhead; [exact Hd|]. now apply (line_edges_after_letter (length t')).
Qed.

Lemma single_spaced_over b t :
  single_spaced b t = true -> forallb (one_of alphabet) t = true.
Proof.
  revert b. induction t as [|c t IH]; intros b H; [reflexivity|].
  cbn [forallb]. apply single_spaced_cons in H.
  destruct H as [[H1 H2]|[_ [-> [_ H2]]]].
  - rewrite (IH _ H2), andb_true_r. apply one_of_In. unfold alphabet.
    apply in_or_app. right. apply one_of_In, ascii_letter_enum, H1.
  - rewrite (IH _ H2). reflexivity.
Qed.

Lemma clean_text_over t : clean_text t = true -> forallb (one_of alphabet) t = true.
Proof. destruct t; [reflexivity|]. apply clean_aux_over. Qed.

Lemma trim_clean_text t : clean_text t = true -> trim t = t.
Proof. destruct t; [reflexivity|]. apply trim_clean. Qed.

Lemma letters_and_blanks_over s :
  letters_and_blanks s = true -> forallb (one_of alphabet) s = true.
Proof.
  unfold letters_and_blanks. intros H. rewrite forallb_forall in *.
  intros c Hc. specialize (H c Hc). unfold cls_or in H.
  apply orb_true_iff in H. apply one_of_In. unfold alphabet. apply in_or_app.
  destruct H as [H|H]; [right; apply one_of_In, ascii_letter_enum, H | left; now apply one_of_In].
Qed.

Lemma alphabet_ascii s :
  forallb (one_of alphabet) s = true -> forallb (fun c => c <? 128)%N s = true.
Proof.
  intros H. rewrite forallb_forall in *. intros c Hc. specialize (H c Hc).
  apply one_of_In in H.
  assert (forallb (fun c => c <? 128)%N alphabet = true) as Ha
    by (vm_compute; reflexivity).
  rewrite forallb_forall in Ha. apply Ha, H.
Qed.

Section Normalizer.
Variable nfc : jsstring -> jsstring.
Hypothesis nfc_ascii : nfc_fixes_ascii nfc.

(** On ASCII text the canonical composition drops out of the pipeline. *)
Lemma cleanText_ascii s :
  forallb (fun c => c <? 128)%N s = true ->
  cleanText nfc (VStr s) = cleanText (fun x => x) (VStr s).
Proof. intros H. unfold cleanText. now rewrite (nfc_ascii s H). Qed.

Lemma cleanText_clean s : clean_text s = true -> cleanText nfc (VStr s) = s.
Proof.
  destruct s as [|c s]; [reflexivity|]. unfold clean_text. intros H.
  pose proof (clean_aux_over _ _ H) as Hover.
  rewrite cleanText_ascii by (apply alphabet_ascii, Hover).
  unfold cleanText. cbn [truthy typeof_string negb orb]. cbv zeta.
  rewrite (replace_all_dead alphabet Patterns.apostrophes) by (vm_compute; reflexivity || exact Hover).
  rewrite (replace_all_dead alphabet Patterns.quotes) by (vm_compute; reflexivity || exact Hover).
  rewrite (replace_all_dead alphabet Patterns.ellipsis) by (vm_compute; reflexivity || exact Hover).
  rewrite (replace_all_dead alphabet Patterns.em_dash) by (vm_compute; reflexivity || exact Hover).
  rewrite (replace_all_dead alphabet Patterns.en_dash) by (vm_compute; reflexivity || exact Hover).
  rewrite (replace_all_dead alphabet Patterns.page_number) by (vm_compute; reflexivity || exact Hover).
  rewrite (replace_all_dead alphabet Patterns.hyphenation) by (vm_compute; reflexivity || exact Hover).
  rewrite (blanks_clean_all _ H).
  rewrite (replace_all_dead alphabet Patterns.line_breaks) by (vm_compute; reflexivity || exact Hover).
  rewrite (line_edges_clean _ H).
  rewrite (replace_all_dead alphabet Patterns.citation) by (vm_compute; reflexivity || exact Hover).
  rewrite (replace_all_dead alphabet Patterns.space_before_punct) by (vm_compute; reflexivity || exact Hover).
  rewrite (replace_all_dead alphabet Patterns.adjacent_punct) by (vm_compute; reflexivity || exact Hover).
  rewrite (replace_all_dead alphabet Patterns.url) by (vm_compute; reflexivity || exact Hover).
  rewrite (replace_all_dead alphabet Patterns.email) by (vm_compute; reflexivity || exact Hover).
  apply trim_clean, H.
Qed.
(** One pass over letters and blanks ends in already-clean text. *)
Lemma cleanText_plain_clean s :
  letters_and_blanks s = true -> clean_text (cleanText nfc (VStr s)) = true.
Proof.
  destruct s as [|c s]; [reflexivity|]. intros Hs.
  pose proof (letters_and_blanks_over _ Hs) as Hover.
  rewrite cleanText_ascii by (apply alphabet_ascii, Hover).
  unfold cleanText. cbn [truthy typeof_string negb orb]. cbv zeta.
  rewrite (replace_all_dead alphabet Patterns.apostrophes) by (vm_compute; reflexivity || exact Hover).
  rewrite (replace_all_dead alphabet Patterns.quotes) by (vm_compute; reflexivity || exact Hover).
  rewrite (replace_all_dead alphabet Patterns.ellipsis) by (vm_compute; reflexivity || exact Hover).
  rewrite (replace_all_dead alphabet Patterns.em_dash) by (vm_compute; reflexivity || exact Hover).
  rewrite (replace_all_dead alphabet Patterns.en_dash) by (vm_compute; reflexivity || exact Hover).
  rewrite (replace_all_dead alphabet Patterns.page_number) by (vm_compute; reflexivity || exact Hover).
  rewrite (replace_all_dead alphabet Patterns.hyphenation) by (vm_compute; reflexivity || exact Hover).
  set (t5 := replace_all Patterns.blanks [TLit (js " ")] (c :: s)).
  assert (single_spaced false t5 = true) as H5
    by apply (proj1 (blanks_single_spaced (c :: s) Hover) None).
  pose proof (single_spaced_over _ _ H5) as Hover5.
  rewrite (replace_all_dead alphabet Patterns.line_breaks) by (vm_compute; reflexivity || exact Hover5).
  set (t7 := replace_all Patterns.line_edges [] t5).
  pose proof (line_edges_single_spaced t5 H5) as H7. fold t7 in H7.
  pose proof (clean_text_over _ H7) as Hover7.
  rewrite (replace_all_dead alphabet Patterns.citation) by (vm_compute; reflexivity || exact Hover7).
  rewrite (replace_all_dead alphabet Patterns.space_before_punct) by (vm_compute; reflexivity || exact Hover7).
  rewrite (replace_all_dead alphabet Patterns.adjacent_punct) by (vm_compute; reflexivity || exact Hover7).
  rewrite (replace_all_dead alphabet Patterns.url) by (vm_compute; reflexivity || exact Hover7).
  rewrite (replace_all_dead alphabet Patterns.email) by (vm_compute; reflexivity || exact Hover7).
  now rewrite trim_clean_text.
Qed.
End Normalizer.

(** The call and the function agree: what [cleanText(text)] answers is
    the string [cleanText nfc text], whatever the value. *)
Lemma cleanText_call_answers nfc v :
  cleanText_call nfc v = Ok (VStr (cleanText nfc v)).
Proof.
  unfold cleanText_call, cleanText.
  destruct (negb (truthy v) || negb (typeof_string v)) eqn:E; [reflexivity|].
  apply orb_false_iff in E. destruct E as [_ E].
  destruct v; try discriminate E. reflexivity.
Qed.

(** Without the first test the body of [cleanText] throws on everything
    that is not a string: its first assignment calls [normalize]. *)
Lemma cleanText_steps_throw nfc v :
  typeof_string v = false -> cleanText_steps nfc v = Throw TypeError.
Proof. destruct v; try discriminate; reflexivity. Qed.

(** C6. A call of [cleanText] never throws and answers a string, for
    every value and every behaviour of the host's [normalize]: the answer
    is the value of one function of the argument.  For anything that is
    not a string, and for the empty string, the answer is the empty
    string.  This is the work of the first test of the function: the
    assignments that follow it throw a [TypeError] on every value that is
    not a string, and on a string every one of them answers a string. *)
Theorem cleanText_total (nfc : jsstring -> jsstring) :
  (forall v, cleanText_call nfc v = Ok (VStr (cleanText nfc v))) /\
  (forall v, typeof_string v = false -> cleanText_call nfc v = Ok (VStr [])) /\
  cleanText_call nfc (VStr []) = Ok (VStr []) /\
  (forall v, typeof_string v = false -> cleanText_steps nfc v = Throw TypeError) /\
  (forall s, exists s', cleanText_steps nfc (VStr s) = Ok (VStr s')).
Proof.
  split; [apply cleanText_call_answers|]. split; [|split; [|split]].
  - intros v Hv. unfold cleanText_call. rewrite Hv. cbn [negb].
    now rewrite orb_true_r.
  - reflexivity.
  - apply cleanText_steps_throw.
  - intros s. eexists. reflexivity.
Qed.

Lemma nfc_identity : nfc_fixes_ascii (fun s => s).
Proof. intros s _. reflexivity. Qed.

(** The worked examples of the pipeline: a hyphenated line break is
    rejoined, a run of spaces collapses, citation markers go and the
    space before the full stop with them, and a URL goes while the words
    around it stay. *)
Theorem cleanText_examples nfc :
  nfc_fixes_ascii nfc ->
  cleanText nfc (VStr (js "exam-" ++ [LF] ++ js "ple")) = js "example" /\
  cleanText nfc (VStr (js "Hello   world")) = js "Hello world" /\
  cleanText nfc (VStr (js "See [1] and [23].")) = js "See  and." /\
  cleanText nfc (VStr (js "Visit https://example.com now")) = js "Visit  now".
Proof.
  intros Hnfc.
  repeat split; rewrite (cleanText_ascii nfc Hnfc) by reflexivity;
    vm_compute; reflexivity.
Qed.

Lemma cleanText_examples_witness :
  let nfc := fun s : jsstring => s in
  nfc_fixes_ascii nfc /\
  cleanText nfc (VStr (js "Hello   world")) = js "Hello world".
Proof.
  intros nfc. split; [exact nfc_identity|].
  exact (proj1 (proj2 (cleanText_examples nfc nfc_identity))).
Defined.

(* ===================================================================== *)
(** ** The record builder *)
(* ===================================================================== *)

Lemma ceil_div4_spec n : n <= 4 * ceil_div4 n < n + 4.
Proof.
  unfold ceil_div4. pose proof (Nat.div_mod_eq n 4) as Hd.
  pose proof (Nat.mod_upper_bound n 4) as Hm.
  destruct (Nat.eqb_spec (n mod 4) 0); lia.
Qed.

(** X2. The builder of the cleaning script stores the normalized text and
    counts it: [character_count] is its length and [token_count] that
    length divided by four, rounded up, so 100 for a length of 400. *)
Theorem CleaningScript_counts_normalized_text nfc f h :
  let built := CleaningScript.createDocumentStructure nfc f h in
  let meta := Schema.training_metadata_of built in
  Schema.content_text built = cleanText nfc (VStr (trim (content_text_field f))) /\
  Schema.character_count meta = length (Schema.content_text built) /\
  Schema.token_count meta = ceil_div4 (Schema.character_count meta) /\
  Schema.character_count meta <= 4 * Schema.token_count meta < Schema.character_count meta + 4 /\
  (length (Schema.content_text built) = 400 -> Schema.token_count meta = 100).
Proof.
  cbn. split; [reflexivity|]. split; [reflexivity|]. split; [reflexivity|].
  split; [apply ceil_div4_spec|]. intros ->. reflexivity.
Qed.

(** The builder of [public/script.js] counts the trimmed input as typed. *)
Lemma PublicScript_counts f h :
  let built := PublicScript.createDocumentStructure f h in
  let meta := Schema.training_metadata_of built in
  Schema.content_text built = trim (content_text_field f) /\
  Schema.character_count meta = length (trim (content_text_field f)) /\
  Schema.token_count meta = ceil_div4 (Schema.character_count meta).
Proof. cbn. repeat split. Qed.

(** C4 fails for the builder of [public/script.js]: on the input
    [Hello   world] (three spaces) it stores the text as typed and
    counts its 13 units, where the normalized text has 11 and the builder
    of the cleaning script stores and counts those. *)
Theorem PublicScript_counts_raw_text nfc h :
  nfc_fixes_ascii nfc ->
  let f := sample_form (js "Hello   world") in
  let built := PublicScript.createDocumentStructure f h in
  let cleaned := CleaningScript.createDocumentStructure nfc f h in
  Schema.content_text built = js "Hello   world" /\
  Schema.character_count (Schema.training_metadata_of built) = 13 /\
  Schema.token_count (Schema.training_metadata_of built) = 4 /\
  Schema.content_text cleaned = js "Hello world" /\
  Schema.character_count (Schema.training_metadata_of cleaned) = 11 /\
  Schema.token_count (Schema.training_metadata_of cleaned) = 3.
Proof.
  intros Hnfc f built cleaned.
  assert (Schema.content_text cleaned = js "Hello world") as Hc.
  { subst cleaned f. unfold CleaningScript.createDocumentStructure, assemble.
    cbn [Schema.content_text content_text_field sample_form].
    rewrite (cleanText_ascii nfc Hnfc) by reflexivity. vm_compute. reflexivity. }
  split; [reflexivity|]. split; [reflexivity|]. split; [reflexivity|].
  split; [exact Hc|].
  change (Schema.character_count (Schema.training_metadata_of cleaned))
    with (length (Schema.content_text cleaned)).
  change (Schema.token_count (Schema.training_metadata_of cleaned))
    with (ceil_div4 (length (Schema.content_text cleaned))).
  rewrite Hc. split; reflexivity.
Qed.

Lemma PublicScript_counts_raw_text_witness :
  let nfc := fun s : jsstring => s in
  let f := sample_form (js "Hello   world") in
  nfc_fixes_ascii nfc /\
  Schema.character_count
    (Schema.training_metadata_of (PublicScript.createDocumentStructure f sample_host))
  = 13 /\
  Schema.character_count
    (Schema.training_metadata_of
       (CleaningScript.createDocumentStructure nfc f sample_host))
  = 11.
Proof.
  intros nfc f. split; [exact nfc_identity|].
  destruct (PublicScript_counts_raw_text nfc sample_host nfc_identity)
    as [_ [H2 [_ [_ [H5 _]]]]].
  split; [exact H2 | exact H5].
Defined.

(* ===================================================================== *)
(** ** The store gateway *)
(* ===================================================================== *)

Lemma jsstring_eqb_eq x y : jsstring_eqb x y = true <-> x = y.
Proof.
  revert y. induction x as [|c x IH]; intros [|d y]; simpl; split;
    try congruence; try discriminate.
  - intros H. apply andb_true_iff in H. destruct H as [H1 H2].
    apply N.eqb_eq in H1. apply IH in H2. congruence.
  - intros [= -> ->]. rewrite N.eqb_refl. now apply IH.
Qed.

Lemma jsstring_eqb_refl x : jsstring_eqb x x = true.
Proof. now apply jsstring_eqb_eq. Qed.

Lemma value_eqb_eq : forall a b, value_eqb a b = true <-> a = b.
Proof.
  fix IH 1. intros a b.
  destruct a as [| |x|x| |x|x|l|o]; destruct b as [| |y|y| |y|y|l'|o'];
    cbn [value_eqb]; try (split; [discriminate | congruence]);
    try (split; [reflexivity | reflexivity]).
  - rewrite Bool.eqb_true_iff. split; congruence.
  - rewrite Z.eqb_eq. split; congruence.
  - rewrite jsstring_eqb_eq. split; congruence.
  - rewrite Nat.eqb_eq. split; congruence.
  - revert l'. induction l as [|v l IHl]; intros [|v' l'];
      try (split; [discriminate | congruence]); [split; reflexivity|].
    rewrite andb_true_iff, IH. split.
    + intros [-> H]. apply IHl in H. congruence.
    + intros [= -> ->]. split; [reflexivity|]. now apply IHl.
  - revert o'. induction o as [|[k v] o IHo]; intros [|[k' v'] o'];
      try (split; [discriminate | congruence]); [split; reflexivity|].
    rewrite !andb_true_iff, IH, String.eqb_eq. split.
    + intros [[-> ->] H]. apply IHo in H. congruence.
    + intros [= -> -> ->]. split; [split; reflexivity|]. now apply IHo.
Qed.

(** The world after [connect()] has run. *)
Lemma connect_ok w :
  can_connect w = true ->
  exists h w1,
    MongoService.connect w = (Ok (Some h), w1) /\
    can_connect w1 = true /\
    coll w1 = coll w /\ heap w1 = heap w /\ now w1 = now w /\
    calls w1 = calls w /\ next_oid w1 = next_oid w.
Proof.
  unfold can_connect, MongoService.connect, MongoService.connect_begin,
    MongoService.connect_resume.
  destruct w as [c d n r l k t hp cl cf]; cbn.
  destruct c as [c|]; intros H.
  - destruct d as [d|]; [|discriminate]. exists d. eexists. cbn. repeat split.
  - rewrite H. exists n. eexists. cbn. repeat split.
Qed.

Lemma prologue {A} (body : M A) w :
  can_connect w = true ->
  exists w1,
    (let* db := MongoService.connect in
     let* _ := MongoService.db_collection db in body) w = body w1 /\
    can_connect w1 = true /\
    coll w1 = coll w /\ heap w1 = heap w /\ now w1 = now w /\
    calls w1 = calls w /\ next_oid w1 = next_oid w.
Proof.
  intros H. destruct (connect_ok w H) as [h [w1 [Hc Hrest]]].
  exists w1. split; [|exact Hrest]. unfold bind. rewrite Hc. reflexivity.
Qed.

Lemma find_first_some f l d :
  In d l -> matches f d = true -> exists d', find_first f l = Some d'.
Proof.
  induction l as [|x l IH]; [contradiction|]. intros [->|Hin] Hm; simpl.
  - rewrite Hm. eauto.
  - destruct (matches f x); eauto.
Qed.

Lemma find_first_none f l :
  find_first f l = None <-> Forall (fun d => matches f d = false) l.
Proof.
  induction l as [|x l IH]; simpl.
  - split; [constructor | reflexivity].
  - destruct (matches f x) eqn:E; split.
    + discriminate.
    + intros H. inversion H. congruence.
    + intros H. constructor; [exact E | now apply IH].
    + intros H. inversion H. now apply IH.
Qed.

Lemma find_first_in f l d :
  find_first f l = Some d -> In d l /\ matches f d = true.
Proof.
  induction l as [|x l IH]; simpl; [discriminate|].
  destruct (matches f x) eqn:E.
  - intros [= ->]. auto.
  - intros H. destruct (IH H). auto.
Qed.

Lemma value_eqb_refl v : value_eqb v v = true.
Proof. now apply value_eqb_eq. Qed.

(** *** Strings on their way to the store *)

Lemma surrogate_apart c : high_surrogate c = true -> low_surrogate c = false.
Proof.
  unfold high_surrogate, low_surrogate, in_range.
  rewrite andb_true_iff, andb_false_iff, !N.leb_le, !N.leb_gt. lia.
Qed.

Lemma toWellFormed_cons_plain c s :
  high_surrogate c = false -> low_surrogate c = false ->
  toWellFormed (c :: s) = c :: toWellFormed s.
Proof. intros H1 H2. cbn [toWellFormed]. now rewrite H1, H2. Qed.

Lemma toWellFormed_cons_low c s :
  low_surrogate c = true -> toWellFormed (c :: s) = 65533%N :: toWellFormed s.
Proof.
  intros H. cbn [toWellFormed].
  destruct (high_surrogate c) eqn:E; [|now rewrite H].
  apply surrogate_apart in E. congruence.
Qed.

Lemma toWellFormed_pair c d s :
  high_surrogate c = true -> low_surrogate d = true ->
  toWellFormed (c :: d :: s) = c :: d :: toWellFormed s.
Proof. intros H1 H2. cbn [toWellFormed]. now rewrite H1, H2. Qed.

Lemma toWellFormed_lone c d s :
  high_surrogate c = true -> low_surrogate d = false ->
  toWellFormed (c :: d :: s) = 65533%N :: toWellFormed (d :: s).
Proof. intros H1 H2. cbn [toWellFormed]. now rewrite H1, H2. Qed.

Lemma toWellFormed_last c :
  high_surrogate c = true -> toWellFormed [c] = [65533%N].
Proof. intros H. cbn [toWellFormed]. now rewrite H. Qed.

(** An induction that follows the recursion of [toWellFormed]. *)
Lemma units_ind (P : jsstring -> Prop) :
  P [] ->
  (forall c s, P s -> (forall d s', s = d :: s' -> P s') -> P (c :: s)) ->
  forall s, P s.
Proof.
  intros Hnil Hcons s.
  assert (P s /\ forall d s', s = d :: s' -> P s') as [H _]; [|exact H].
  induction s as [|c s [IH1 IH2]].
  - split; [exact Hnil | discriminate].
  - split; [now apply Hcons|]. intros d s' [= -> ->]. exact IH1.
Qed.

Ltac units_induction s :=
  pattern s; apply units_ind; clear s; [|intros ? ? ? ?].

Lemma toWellFormed_length s : length (toWellFormed s) = length s.
Proof.
  units_induction s; [reflexivity|]. rename H into IH, H0 into IH2.
  destruct (high_surrogate c) eqn:Eh.
  - destruct s as [|d s'].
    + now rewrite toWellFormed_last.
    + destruct (low_surrogate d) eqn:El.
      * rewrite toWellFormed_pair by assumption. cbn [length].
        now rewrite (IH2 d s' eq_refl).
      * rewrite toWellFormed_lone by assumption. cbn [length]. now rewrite IH.
  - destruct (low_surrogate c) eqn:El.
    + rewrite toWellFormed_cons_low by assumption. cbn [length]. now rewrite IH.
    + rewrite toWellFormed_cons_plain by assumption. cbn [length]. now rewrite IH.
Qed.

(** Where the second part does not begin with the second half of a pair,
    the two parts are sent as they would be on their own. *)
Lemma toWellFormed_app p s :
  (forall d s', s = d :: s' -> low_surrogate d = false) ->
  toWellFormed (p ++ s) = toWellFormed p ++ toWellFormed s.
Proof.
  intros Hs.
  units_induction p; [reflexivity|]. rename s0 into p, H into IH, H0 into IH2.
  cbn [app]. destruct (high_surrogate c) eqn:Eh.
  - destruct p as [|d p'].
    + cbn [app]. rewrite toWellFormed_last by assumption.
      destruct s as [|d s']; [now rewrite toWellFormed_last|].
      now rewrite toWellFormed_lone by eauto.
    + cbn [app] in *. destruct (low_surrogate d) eqn:El.
      * rewrite !toWellFormed_pair by assumption. cbn [app].
        now rewrite (IH2 d p' eq_refl).
      * rewrite !toWellFormed_lone by assumption. cbn [app]. now rewrite IH.
  - destruct (low_surrogate c) eqn:El.
    + rewrite !toWellFormed_cons_low by assumption. cbn [app]. now rewrite IH.
    + rewrite !toWellFormed_cons_plain by assumption. cbn [app]. now rewrite IH.
Qed.


Lemma toWellFormed_plain s : no_surrogates s = true -> toWellFormed s = s.
Proof.
  induction s as [|c s IH]; [reflexivity|]. cbn [no_surrogates forallb].
  rewrite !andb_true_iff, !negb_true_iff. intros [[H1 H2] H3].
  rewrite toWellFormed_cons_plain by assumption. f_equal. now apply IH.
Qed.

(** *** What a filter on a string selects *)

Lemma to_bson_string w s : to_bson w = VStr s <-> exists s', w = VStr s' /\ toWellFormed s' = s.
Proof.
  destruct w; cbn [to_bson]; split; try discriminate;
    try (intros [s' [H _]]; discriminate).
  - intros [= <-]. eauto.
  - intros [s' [[= <-] <-]]. reflexivity.
Qed.

Lemma cond_eq_string cands s :
  existsb (cond_holds (CEq (VStr s))) cands = true <->
  exists s', In (Some (VStr s')) cands /\ toWellFormed s' = toWellFormed s.
Proof.
  rewrite existsb_exists. split.
  - intros [[w|] [Hin H]]; cbn [cond_holds to_bson] in H; [|discriminate].
    apply value_eqb_eq, to_bson_string in H. destruct H as [s' [-> H]]. eauto.
  - intros [s' [Hin H]]. exists (Some (VStr s')). split; [exact Hin|].
    cbn [cond_holds to_bson]. rewrite H. apply value_eqb_refl.
Qed.

Lemma matches_id id d :
  matches (id_query (VStr id)) d = true <-> holds_string "document_id" id d.
Proof.
  unfold matches, id_query, holds_string. cbn [forallb fst snd].
  rewrite andb_true_r. apply cond_eq_string.
Qed.

(** The value at the end of a path through embedded documents is one of
    the values that a condition on the path is tried on. *)
Lemma get_path_candidates p : forall v x,
  get_path p v = Some x -> In (Some x) (candidates p v).
Proof.
  induction p as [|k p IH]; intros v x; cbn [get_path candidates].
  - intros [= ->]. destruct x; try (now left). apply in_or_app. right. now left.
  - destruct v; try discriminate.
    destruct (lookup_field k fields) as [v'|]; [apply IH | discriminate].
Qed.

Lemma has_string_holds path s d : has_string path s d -> holds_string path s d.
Proof.
  unfold has_string, holds_string, field. intros H.
  exists s. split; [now apply get_path_candidates | reflexivity].
Qed.

Lemma id_taken_found id l : id_taken id l -> id_found id l.
Proof.
  unfold id_taken, id_found. rewrite !Exists_exists.
  intros [d [Hin H]]. exists d. split; [exact Hin | now apply has_string_holds].
Qed.

(** *** Escaping makes the pattern literal *)


Lemma exec_one_unit (q : charclass) prev c s :
  exec (RChar q) prev (c :: s) = if q c then Some (1, []) else None.
Proof.
  unfold exec. cbn [rmatch snd]. destruct (q c); [|reflexivity].
  cbn [snd length]. do 2 f_equal. lia.
Qed.

Lemma escape_pattern_flat_map s :
  escape_pattern s = flat_map escape_unit s.
Proof.
  unfold escape_pattern, replace_all. generalize (@None code_unit).
  induction s as [|c s IH]; intros prev; [reflexivity|].
  cbn [replace_from flat_map]. rewrite exec_one_unit. unfold escape_unit at 1.
  destruct (pattern_special c).
  - cbn [expand flat_map take app]. now rewrite IH.
  - cbn [app]. now rewrite IH.
Qed.

Lemma one_of_false l c x : one_of l c = false -> In x l -> (c =? x)%N = false.
Proof.
  intros H Hin. destruct (c =? x)%N eqn:E; [|reflexivity].
  apply N.eqb_eq in E. subst x. apply one_of_In in Hin. congruence.
Qed.

Lemma one_of_subset l1 l2 c :
  incl l2 l1 -> one_of l1 c = false -> one_of l2 c = false.
Proof.
  intros Hsub H. destruct (one_of l2 c) eqn:E; [|reflexivity].
  apply one_of_In in E. apply Hsub in E. apply one_of_In in E. congruence.
Qed.

Lemma special_cases c :
  pattern_special c = true -> In c special_units.
Proof. apply one_of_In. Qed.

Lemma special_not_surrogate c :
  pattern_special c = true ->
  high_surrogate c = false /\ low_surrogate c = false /\
  is_alnum c = false /\ (c =? 0)%N = false.
Proof.
  intros H. apply special_cases in H. unfold special_units in H. cbn [In] in H.
  repeat (destruct H as [<-|H]; [repeat split; reflexivity|]). contradiction.
Qed.

Lemma tokens_plain c s :
  pattern_special c = false -> (c =? 0)%N = false ->
  tokens (c :: s) = option_map (cons (TkLit c)) (tokens s).
Proof.
  intros H H0. cbn [tokens].
  rewrite (one_of_false special_units c 92%N H) by (vm_compute; tauto).
  assert (unsupported_operator c = false) as ->.
  { destruct (unsupported_operator c) eqn:E; [|reflexivity].
    apply one_of_In in E. cbn [In] in E.
    repeat (destruct E as [<-|E]; [discriminate|]). contradiction. }
  rewrite (one_of_false special_units c 94%N H) by (vm_compute; tauto).
  reflexivity.
Qed.

Lemma tokens_escaped c s :
  pattern_special c = true ->
  tokens (92%N :: c :: s) = option_map (cons (TkLit c)) (tokens s).
Proof.
  intros H. cbn [tokens]. change (92 =? 92)%N with true. cbn iota.
  destruct (special_not_surrogate c H) as [_ [_ [-> ->]]]. reflexivity.
Qed.

Lemma tokens_escape s :
  tokens (flat_map escape_unit s) =
  if sendable s then Some (map TkLit s) else None.
Proof.
  induction s as [|c s IH]; [reflexivity|].
  cbn [flat_map map sendable forallb]. fold (sendable s). unfold escape_unit at 1.
  destruct (pattern_special c) eqn:E; cbn [app].
  - rewrite tokens_escaped, IH by exact E.
    destruct (special_not_surrogate c E) as [_ [_ [_ ->]]]. cbn [negb andb].
    now destruct (sendable s).
  - destruct (c =? 0)%N eqn:E0; cbn [negb andb].
    + apply N.eqb_eq in E0. subst c. reflexivity.
    + rewrite tokens_plain, IH by assumption. now destruct (sendable s).
Qed.

Lemma build_lits s : build (map TkLit s) = map lit s.
Proof. unfold build. rewrite map_map. reflexivity. Qed.

(** Escaping and sending commute: the units that are escaped are no
    surrogates. *)
Lemma toWellFormed_escape s :
  toWellFormed (flat_map escape_unit s) = flat_map escape_unit (toWellFormed s).
Proof.
  assert (forall c, high_surrogate c = true \/ low_surrogate c = true ->
                    escape_unit c = [c]) as Hsur.
  { intros c Hc. unfold escape_unit. destruct (pattern_special c) eqn:E; [|reflexivity].
    destruct (special_not_surrogate c E) as [H1 [H2 _]]. destruct Hc; congruence. }
  units_induction s; [reflexivity|]. rename H into IH, H0 into IH2.
  cbn [flat_map]. destruct (high_surrogate c) eqn:Eh.
  - rewrite (Hsur c) by auto. cbn [app]. destruct s as [|d s'].
    + cbn [flat_map]. now rewrite !toWellFormed_last.
    + destruct (low_surrogate d) eqn:El.
      * cbn [flat_map]. rewrite (Hsur d) by auto. cbn [app].
        rewrite !toWellFormed_pair by assumption. cbn [flat_map].
        rewrite (Hsur c), (Hsur d) by auto. cbn [app].
        now rewrite (IH2 d s' eq_refl).
      * rewrite (toWellFormed_lone c d s') by assumption. cbn [flat_map].
        assert (escape_unit 65533%N = [65533%N]) as -> by reflexivity. cbn [app].
        rewrite <- IH. cbn [flat_map]. unfold escape_unit at 1 3.
        destruct (pattern_special d); cbn [app].
        -- now rewrite toWellFormed_lone.
        -- now rewrite toWellFormed_lone.
  - destruct (low_surrogate c) eqn:El.
    + rewrite (Hsur c) by auto. cbn [app].
      rewrite !toWellFormed_cons_low by assumption. cbn [flat_map].
      assert (escape_unit 65533%N = [65533%N]) as -> by reflexivity. cbn [app].
      now rewrite IH.
    + rewrite (toWellFormed_cons_plain c s) by assumption. cbn [flat_map].
      unfold escape_unit at 1 3. destruct (pattern_special c); cbn [app].
      * rewrite (toWellFormed_cons_plain 92%N) by reflexivity.
        rewrite toWellFormed_cons_plain by assumption. now rewrite IH.
      * rewrite toWellFormed_cons_plain by assumption. now rewrite IH.
Qed.

Lemma sendable_toWellFormed s : sendable (toWellFormed s) = sendable s.
Proof.
  assert (forall c, high_surrogate c = true \/ low_surrogate c = true ->
                    (c =? 0)%N = false) as Hsur.
  { intros c [H|H]; destruct (N.eqb_spec c 0) as [->|]; auto; discriminate. }
  units_induction s; [reflexivity|]. rename H into IH, H0 into IH2.
  destruct (high_surrogate c) eqn:Eh.
  - destruct s as [|d s'].
    + rewrite toWellFormed_last by assumption. cbn [sendable forallb].
      now rewrite (Hsur c) by auto.
    + destruct (low_surrogate d) eqn:El.
      * rewrite toWellFormed_pair by assumption. cbn [sendable forallb].
        fold (sendable (toWellFormed s')). fold (sendable s').
        now rewrite (IH2 d s' eq_refl).
      * rewrite toWellFormed_lone by assumption.
        change (sendable (65533%N :: toWellFormed (d :: s')))
          with (sendable (toWellFormed (d :: s'))).
        rewrite IH. cbn [sendable forallb]. now rewrite (Hsur c) by auto.
  - destruct (low_surrogate c) eqn:El.
    + rewrite toWellFormed_cons_low by assumption.
      change (sendable (65533%N :: toWellFormed s)) with (sendable (toWellFormed s)).
      rewrite IH. cbn [sendable forallb]. now rewrite (Hsur c) by auto.
    + rewrite toWellFormed_cons_plain by assumption. cbn [sendable forallb].
      fold (sendable (toWellFormed s)). fold (sendable s). now rewrite IH.
Qed.

(** The pattern of the content look-up, as the store receives it. *)
Lemma pattern_sent p :
  toWellFormed (js "^" ++ escape_pattern p)
  = 94%N :: flat_map escape_unit (toWellFormed p).
Proof.
  rewrite escape_pattern_flat_map.
  change (js "^" ++ flat_map escape_unit p) with (94%N :: flat_map escape_unit p).
  rewrite toWellFormed_cons_plain by reflexivity. now rewrite toWellFormed_escape.
Qed.

Lemma pcre_compile_escaped p :
  pcre_compile (toWellFormed (js "^" ++ escape_pattern p)) =
  if sendable p then Some (rseq (RBol false :: map lit (toWellFormed p))) else None.
Proof.
  rewrite pattern_sent. unfold pcre_compile.
  change (tokens (94%N :: flat_map escape_unit (toWellFormed p)))
    with (option_map (cons TkBol) (tokens (flat_map escape_unit (toWellFormed p)))).
  rewrite tokens_escape, sendable_toWellFormed.
  destruct (sendable p); [|reflexivity].
  cbn [option_map]. change (build (TkBol :: map TkLit (toWellFormed p)))
    with (RBol false :: build (map TkLit (toWellFormed p))).
  now rewrite build_lits.
Qed.


Lemma rmatch_lits p :
  forall k prev s cs,
  rmatch (rseq (map lit p)) k (prev, s) cs =
  if starts_with p s
  then k (last_unit prev p, drop (length p) s) cs else None.
Proof.
  induction p as [|c p IH]; intros k prev s cs.
  - reflexivity.
  - cbn [map]. rewrite rmatch_rseq_cons. unfold lit at 1. cbn [rmatch snd].
    destruct s as [|d s]; [reflexivity|]. cbn [starts_with].
    destruct (c =? d)%N eqn:E; [|reflexivity]. apply N.eqb_eq in E. subst d.
    rewrite IH. cbn [andb length drop].
    replace (last_unit (Some c) p) with (last_unit prev (c :: p)); [reflexivity|].
    unfold last_unit. cbn [rev]. destruct (rev p); reflexivity.
Qed.

Lemma exec_anchored_lits p prev s :
  exec (rseq (RBol false :: map lit p)) prev s =
  match prev with
  | None => if starts_with p s then Some (length s - length (drop (length p) s), []) else None
  | Some _ => None
  end.
Proof.
  unfold exec. rewrite rmatch_rseq_cons. cbn [rmatch].
  unfold at_line_start. cbn [fst]. destruct prev; [reflexivity|].
  rewrite rmatch_lits. destruct (starts_with p s); reflexivity.
Qed.

Lemma search_anchored_lits p s :
  search_from (rseq (RBol false :: map lit p)) None s = starts_with p s.
Proof.
  assert (forall s c, search_from (rseq (RBol false :: map lit p)) (Some c) s = false) as Hlater.
  { clear s. induction s as [|d s IH]; intros c; cbn [search_from];
      rewrite exec_anchored_lits; [reflexivity | apply IH]. }
  destruct s as [|d s]; cbn [search_from]; rewrite exec_anchored_lits;
    destruct (starts_with p _); try reflexivity. apply Hlater.
Qed.

Lemma pcre_search_escaped p s :
  sendable p = true ->
  pcre_search (toWellFormed (js "^" ++ escape_pattern p)) s
  = Some (starts_with (toWellFormed p) s).
Proof.
  intros Hp. unfold pcre_search. rewrite pcre_compile_escaped, Hp. cbn [option_map].
  now rewrite search_anchored_lits.
Qed.

Lemma starts_with_prefix p s : starts_with p s = true <-> p `prefix_of` s.
Proof.
  revert s. induction p as [|c p IH]; intros s.
  - split; [intros _; apply prefix_nil | reflexivity].
  - destruct s as [|d s]; cbn [starts_with].
    + split; [discriminate | intros H; now apply prefix_nil_not in H].
    + rewrite andb_true_iff, N.eqb_eq, IH. split.
      * intros [-> H]. now apply prefix_cons.
      * intros H. split; [now apply prefix_cons_inv_1 in H | now apply prefix_cons_inv_2 in H].
Qed.

(** *** [insertDocument] *)

Lemma matches_signature title author p d :
  sendable p = true ->
  matches (content_signature (VStr title) (VStr author) p) d = true <->
  holds_string "attribution.title" title d /\
  holds_string "attribution.author" author d /\
  exists stored,
    In (Some (VStr stored)) (candidates (split_path "content_text") (VObj d)) /\
    starts_with (toWellFormed p) (toWellFormed stored) = true.
Proof.
  intros Hp. unfold matches, content_signature, holds_string.
  cbn [forallb fst snd]. rewrite andb_true_r, !andb_true_iff, !cond_eq_string.
  assert (existsb (cond_holds (CRegex (js "^" ++ escape_pattern p)))
            (candidates (split_path "content_text") (VObj d)) = true <->
          exists stored,
            In (Some (VStr stored)) (candidates (split_path "content_text") (VObj d)) /\
            starts_with (toWellFormed p) (toWellFormed stored) = true) as ->;
    [|tauto].
  rewrite existsb_exists. split.
  - intros [[w|] [Hin H]]; [|discriminate]. destruct w; try discriminate.
    cbn [cond_holds] in H. rewrite pcre_search_escaped in H by exact Hp. eauto.
  - intros [stored [Hin H]]. exists (Some (VStr stored)). split; [exact Hin|].
    cbn [cond_holds]. now rewrite pcre_search_escaped by exact Hp.
Qed.

Lemma check_id_query v :
  check_filter (id_query v) = if plain_value v then Ok tt else Throw OutsideModel.
Proof.
  unfold id_query. cbn [check_filter]. unfold check_condition. cbn [fst snd].
  assert (plain_path "document_id" = true) as -> by reflexivity.
  cbn [negb]. now destruct (plain_value v).
Qed.

Lemma check_id_string s : check_filter (id_query (VStr s)) = Ok tt.
Proof. reflexivity. Qed.

Lemma check_signature title author p :
  check_filter (content_signature (VStr title) (VStr author) p) =
  if sendable p then Ok tt else Throw OutsideModel.
Proof.
  unfold content_signature. cbn [check_filter and_then].
  assert (check_condition ("attribution.title"%string, CEq (VStr title)) = Ok tt)
    as -> by reflexivity.
  assert (check_condition ("attribution.author"%string, CEq (VStr author)) = Ok tt)
    as -> by reflexivity.
  cbn [and_then]. unfold check_condition. cbn [fst snd].
  assert (plain_path "content_text" = true) as -> by reflexivity. cbn [negb].
  rewrite pcre_compile_escaped. now destruct (sendable p).
Qed.

Lemma id_found_find id l :
  id_found id l <-> exists d, find_first (id_query (VStr id)) l = Some d.
Proof.
  unfold id_found. rewrite Exists_exists. split.
  - intros [d [Hin Hd]]. apply (find_first_some _ _ d Hin). now apply matches_id.
  - intros [d Hd]. apply find_first_in in Hd. destruct Hd as [Hin Hm].
    exists d. split; [exact Hin | now apply matches_id].
Qed.

Lemma content_found_find title author text l :
  prefix_sendable text ->
  content_found title author text l <->
  exists d, find_first (content_signature (VStr title) (VStr author) (take 100 text)) l = Some d.
Proof.
  intros Hp. unfold content_found. rewrite Exists_exists. split.
  - intros [d [Hin [H1 [H2 [stored [H3 H4]]]]]]. apply (find_first_some _ _ d Hin).
    apply (matches_signature _ _ _ _ Hp). repeat split; try assumption.
    exists stored. split; [assumption | now apply starts_with_prefix].
  - intros [d Hd]. apply find_first_in in Hd. destruct Hd as [Hin Hm].
    apply (matches_signature _ _ _ _ Hp) in Hm.
    destruct Hm as [H1 [H2 [stored [H3 H4]]]].
    exists d. repeat split; try assumption.
    exists stored. split; [assumption | now apply starts_with_prefix].
Qed.

Lemma not_found_find id l :
  ~ id_found id l -> find_first (id_query (VStr id)) l = None.
Proof.
  intros H. destruct (find_first _ l) as [d|] eqn:E; [|reflexivity].
  exfalso. apply H, id_found_find. eauto.
Qed.

(** [insertDocument] on a record, once the connection is there: the two
    look-ups decide. *)
Lemma insertDocument_record w document id title author text :
  can_connect w = true ->
  is_record document id title author text ->
  exists w1 w2 w3,
    coll w1 = coll w /\ coll w2 = coll w /\ coll w3 = coll w /\
    can_connect w1 = true /\ can_connect w2 = true /\ can_connect w3 = true /\
    next_oid w3 = next_oid w /\
    MongoService.insertDocument document w =
    match find_first (id_query (VStr id)) (coll w) with
    | Some _ => (Throw DuplicateIdError, w1)
    | None =>
        if sendable (take 100 text) then
          match find_first
                  (content_signature (VStr title) (VStr author) (take 100 text))
                  (coll w) with
          | Some _ => (Throw DuplicateContentError, w2)
          | None => insertOne document w3
          end
        else (Throw OutsideModel, w2)
    end.
Proof.
  intros Hc [o [a [-> [Hid [Htext [Hattr [Htitle Hauthor]]]]]]].
  unfold MongoService.insertDocument.
  destruct (connect_ok w Hc) as [h [w1 [Hconn [Hc1 [Hcoll [_ [_ [_ Hoid]]]]]]]].
  unfold bind at 1. rewrite Hconn.
  unfold bind at 1. cbn [MongoService.db_collection ret].
  set (wa := logged (CallFindOne (id_query (VStr id))) w1).
  set (wb := logged (CallFindOne
     (content_signature (VStr title) (VStr author) (take 100 text))) wa).
  exists wa, wb, wb. repeat split; try assumption.
  unfold bind at 1, lift at 1, get_prop at 1. rewrite Hid.
  unfold bind at 1, findOne at 1. rewrite check_id_string.
  change (coll (logged (CallFindOne (id_query (VStr id))) w1)) with (coll w1).
  rewrite Hcoll. fold wa.
  destruct (find_first (id_query (VStr id)) (coll w)) as [d|]; [reflexivity|].
  cbn [bool_of truthy].
  unfold bind at 1, lift at 1, get_prop at 1. rewrite Hattr.
  unfold bind at 1, lift at 1, get_prop at 1. rewrite Htitle.
  unfold bind at 1, lift at 1, get_prop at 1. rewrite Hauthor.
  unfold bind at 1, lift at 1, get_prop at 1. rewrite Htext.
  unfold bind at 1, lift at 1. cbn [substring0].
  unfold bind at 1, findOne at 1. rewrite check_signature.
  change (coll (logged _ wa)) with (coll w1). rewrite Hcoll. fold wb.
  destruct (sendable (take 100 text)); [|reflexivity].
  destruct (find_first _ (coll w)) as [d|]; reflexivity.
Qed.

Lemma lookup_set_field_ne k k' v o :
  k <> k' -> lookup_field k (set_field k' v o) = lookup_field k o.
Proof.
  intros Hne. induction o as [|[k0 v0] o IH]; cbn [set_field lookup_field].
  - destruct (String.eqb_spec k k'); [contradiction | reflexivity].
  - destruct (String.eqb_spec k' k0) as [->|Hk0]; cbn [lookup_field].
    + destruct (String.eqb_spec k k0); [contradiction | reflexivity].
    + now rewrite IH.
Qed.

Lemma lookup_set_field_eq k v o : lookup_field k (set_field k v o) = Some v.
Proof.
  induction o as [|[k0 v0] o IH]; cbn [set_field lookup_field].
  - now rewrite String.eqb_refl.
  - destruct (String.eqb_spec k k0) as [->|Hk0]; cbn [lookup_field].
    + now rewrite String.eqb_refl.
    + destruct (String.eqb_spec k k0); [contradiction | exact IH].
Qed.

Lemma insertOne_inv o w r w' :
  insertOne (VObj o) w = (r, w') ->
  can_connect w' = can_connect w /\
  match r with
  | Throw _ => coll w' = coll w
  | Ok _ =>
      exists o', coll w' = coll w ++ [o'] /\
        forall k, k <> "_id"%string -> lookup_field k o' = lookup_field k o
  end.
Proof.
  unfold insertOne.
  destruct (is_nullish (or_undefined (lookup_field "_id" o))).
  - destruct (is_array _); [intros [= <- <-]; split; reflexivity|].
    destruct (existsb _ _); intros [= <- <-]; (split; [reflexivity|]).
    + reflexivity.
    + eexists. split; [reflexivity|]. intros k Hk. now apply lookup_set_field_ne.
  - destruct (is_array _); [intros [= <- <-]; split; reflexivity|].
    destruct (existsb _ _); intros [= <- <-]; (split; [reflexivity|]).
    + reflexivity.
    + exists o. split; [reflexivity | auto].
Qed.

Lemma same_key_oid n e :
  same_key (VOid n) e = true -> lookup_field "_id" e = Some (VOid n).
Proof.
  unfold same_key. destruct (lookup_field "_id" e) as [k|]; [|discriminate].
  intros H. apply value_eqb_eq in H.
  destruct k; cbn [to_bson] in H; try discriminate. congruence.
Qed.

Lemma insertOne_fresh o w :
  lookup_field "_id" o = None ->
  key_unused w ->
  exists w',
    insertOne (VObj o) w = (Ok (VOid (next_oid w)), w') /\
    coll w' = coll w ++ [set_field "_id" (VOid (next_oid w)) o] /\
    can_connect w' = can_connect w.
Proof.
  intros Hnokey Hnew. unfold insertOne. rewrite Hnokey.
  cbn [or_undefined is_nullish is_array].
  change (next_oid (logged (CallInsertOne (VObj o)) w)) with (next_oid w).
  change (coll (with_next_oid (S (next_oid w)) (logged (CallInsertOne (VObj o)) w)))
    with (coll w).
  assert (existsb (same_key (VOid (next_oid w))) (coll w) = false) as ->.
  { apply not_true_is_false. intros H. apply existsb_exists in H.
    destruct H as [d [Hin Hd]]. unfold key_unused in Hnew.
    rewrite Forall_forall in Hnew. apply (Hnew d Hin). now apply same_key_oid. }
  eexists. split; [reflexivity|]. split; reflexivity.
Qed.

(** [insertOne] on a document without storage key: an answer is the
    generated key, under which the document is stored last; an error is
    the store's, and nothing is stored. *)
Lemma insertOne_keyless o w r w' :
  lookup_field "_id" o = None ->
  insertOne (VObj o) w = (r, w') ->
  match r with
  | Ok key =>
      key = VOid (next_oid w) /\ coll w' = coll w ++ [set_field "_id" key o]
  | Throw e => (exists code, e = MongoServerError code) /\ coll w' = coll w
  end.
Proof.
  intros Hnokey. unfold insertOne. rewrite Hnokey.
  cbn [or_undefined is_nullish is_array].
  change (next_oid (logged (CallInsertOne (VObj o)) w)) with (next_oid w).
  change (coll (with_next_oid (S (next_oid w)) (logged (CallInsertOne (VObj o)) w)))
    with (coll w).
  destruct (existsb _ (coll w)); intros [= <- <-].
  - split; [eauto | reflexivity].
  - split; reflexivity.
Qed.

Lemma field_top k o : field k o = get_path (split_path k) (VObj o).
Proof. reflexivity. Qed.

Lemma is_record_stored document id title author text o' :
  is_record document id title author text ->
  (forall o, document = VObj o ->
     forall k, k <> "_id"%string -> lookup_field k o' = lookup_field k o) ->
  has_string "document_id" id o' /\
  has_string "attribution.title" title o' /\
  has_string "attribution.author" author o' /\
  has_string "content_text" text o'.
Proof.
  intros [o [a [-> [Hid [Htext [Hattr [Htitle Hauthor]]]]]]] Hsame.
  specialize (Hsame o eq_refl). unfold has_string, field.
  change (split_path "document_id") with ["document_id"%string].
  change (split_path "attribution.title") with ["attribution"%string; "title"%string].
  change (split_path "attribution.author") with ["attribution"%string; "author"%string].
  change (split_path "content_text") with ["content_text"%string].
  cbn [get_path].
  rewrite !Hsame by discriminate. rewrite Hid, Htext, Hattr, Htitle, Hauthor.
  auto.
Qed.

(** What a call on a record does to the collection. *)
Lemma insertDocument_record_effect w document id title author text r w' :
  can_connect w = true ->
  is_record document id title author text ->
  MongoService.insertDocument document w = (r, w') ->
  match r with
  | Throw e =>
      coll w' = coll w /\
      (id_found id (coll w) -> e = DuplicateIdError) /\
      (~ id_found id (coll w) -> prefix_sendable text ->
       content_found title author text (coll w) -> e = DuplicateContentError)
  | Ok _ =>
      ~ id_found id (coll w) /\
      prefix_sendable text /\
      ~ content_found title author text (coll w) /\
      can_connect w' = true /\
      exists o', coll w' = coll w ++ [o'] /\
        has_string "document_id" id o' /\
        has_string "attribution.title" title o' /\
        has_string "attribution.author" author o' /\
        has_string "content_text" text o'
  end.
Proof.
  intros Hc Hrec Hrun.
  destruct (insertDocument_record w document id title author text Hc Hrec)
    as [w1 [w2 [w3 [H1 [H2 [H3 [Hc1 [_ [Hc3 [_ Heq]]]]]]]]]].
  rewrite Heq in Hrun. clear Heq.
  pose proof (id_found_find id (coll w)) as Hi.
  pose proof (content_found_find title author text (coll w)) as Hs.
  unfold prefix_sendable in *.
  destruct (find_first (id_query (VStr id)) (coll w)) as [d|] eqn:Eid.
  { injection Hrun as <- <-. split; [exact H1|]. split; [reflexivity|].
    intros Hno. exfalso. apply Hno, Hi. eauto. }
  assert (~ id_found id (coll w)) as Hfresh.
  { intros H. apply Hi in H. destruct H. discriminate. }
  destruct (sendable (take 100 text)) eqn:Esend.
  2:{ injection Hrun as <- <-. split; [exact H2|]. split.
      - intros H. contradiction.
      - intros _ H. discriminate. }
  specialize (Hs eq_refl).
  destruct (find_first (content_signature _ _ _) (coll w)) as [d|] eqn:Esig.
  { injection Hrun as <- <-. split; [exact H2|]. split.
    - intros H. contradiction.
    - reflexivity. }
  assert (~ content_found title author text (coll w)) as Hnew.
  { intros H. apply Hs in H. destruct H. discriminate. }
  pose proof Hrec as [o [a [-> _]]].
  apply insertOne_inv in Hrun. destruct Hrun as [Hcan Hrun].
  destruct r as [key|e].
  - destruct Hrun as [o' [Hcoll Hsame]].
    split; [exact Hfresh|]. split; [reflexivity|]. split; [exact Hnew|].
    split; [congruence|].
    exists o'. split; [congruence|].
    apply (is_record_stored _ _ _ _ _ o' Hrec).
    intros o0 [= <-]. exact Hsame.
  - split; [congruence|]. split; intros; contradiction.
Qed.

(** C1. A record whose [document_id] is already stored is refused with
    the duplicate-id error and the collection stays as it was; in
    particular, after a successful insert, a second call with the same
    [document_id] is refused and adds nothing. *)
Theorem insertDocument_duplicate_id w document id title author text :
  can_connect w = true ->
  is_record document id title author text ->
  (id_taken id (coll w) ->
   exists w', MongoService.insertDocument document w = (Throw DuplicateIdError, w') /\
              coll w' = coll w) /\
  (forall key w1,
     MongoService.insertDocument document w = (Ok key, w1) ->
     forall document2 title2 author2 text2,
       is_record document2 id title2 author2 text2 ->
       exists w2,
         MongoService.insertDocument document2 w1 = (Throw DuplicateIdError, w2) /\
         coll w2 = coll w1).
Proof.
  intros Hc Hrec.
  assert (forall w0 doc t a x, can_connect w0 = true -> is_record doc id t a x ->
            id_taken id (coll w0) ->
            exists w', MongoService.insertDocument doc w0 = (Throw DuplicateIdError, w') /\
                       coll w' = coll w0) as Hdup.
  { intros w0 doc t a x Hc0 Hrec0 Htaken.
    destruct (MongoService.insertDocument doc w0) as [r w'] eqn:E.
    pose proof (insertDocument_record_effect _ _ _ _ _ _ _ _ Hc0 Hrec0 E) as H.
    apply id_taken_found in Htaken.
    destruct r as [key|e].
    - destruct H as [Hno _]. contradiction.
    - destruct H as [Hcoll [He _]]. rewrite (He Htaken). eauto. }
  split.
  - apply (Hdup w document title author text Hc Hrec).
  - intros key w1 E document2 title2 author2 text2 Hrec2.
    pose proof (insertDocument_record_effect _ _ _ _ _ _ _ _ Hc Hrec E) as H.
    destruct H as [_ [_ [_ [Hc1 [o' [Hcoll [Hid _]]]]]]].
    apply (Hdup w1 document2 title2 author2 text2 Hc1 Hrec2).
    unfold id_taken. rewrite Hcoll. apply Exists_app. right. now constructor.
Qed.

Lemma sample_is_record id title author text :
  is_record (sample_record id title author text)
    (js id) (js title) (js author) (js text).
Proof. eexists _, _. repeat split. Qed.

Lemma insertDocument_duplicate_id_witness :
  let w := sample_world [sample_object "doc-1" "Walden" "Thoreau" "I went to the woods"] in
  let r := sample_record "doc-1" "Civil Disobedience" "Thoreau" "I heartily accept" in
  can_connect w = true /\
  id_taken (js "doc-1") (coll w) /\
  exists w', MongoService.insertDocument r w = (Throw DuplicateIdError, w') /\
             coll w' = coll w.
Proof.
  intros w r.
  assert (id_taken (js "doc-1") (coll w)) as Htaken by (constructor; reflexivity).
  split; [reflexivity|]. split; [exact Htaken|].
  exact (proj1 (insertDocument_duplicate_id w r (js "doc-1")
                  (js "Civil Disobedience") (js "Thoreau") (js "I heartily accept")
                  eq_refl (sample_is_record _ _ _ _)) Htaken).
Defined.

Lemma is_record_fields o id title author text :
  is_record (VObj o) id title author text ->
  has_string "document_id" id o /\
  has_string "attribution.title" title o /\
  has_string "attribution.author" author o /\
  has_string "content_text" text o.
Proof.
  intros H. apply (is_record_stored _ _ _ _ _ o H). intros o0 [= <-]. auto.
Qed.

(** What the store reads at a path of one component. *)
Lemma candidates_top k d :
  candidates (split_path k) (VObj d) = candidates [k] (VObj d) ->
  forall s, lookup_field k d = Some (VStr s) ->
  candidates (split_path k) (VObj d) = [Some (VStr s)].
Proof. intros -> s H. cbn [candidates]. now rewrite H. Qed.

(** The cut pattern against the text it was cut from. *)
Lemma cut_in_pair_miss text :
  cut_in_pair text ->
  ~ toWellFormed (take 100 text) `prefix_of` toWellFormed text.
Proof.
  intros [p [hi [lo [rest [-> [Hlen [Hhi Hlo]]]]]]].
  assert (take 100 (p ++ hi :: lo :: rest) = p ++ [hi]) as ->.
  { rewrite take_app, Hlen, take_ge by lia. reflexivity. }
  rewrite !toWellFormed_app
    by (intros d s' [= <- <-]; now apply surrogate_apart).
  rewrite toWellFormed_last, toWellFormed_pair by assumption.
  intros H. apply prefix_app_inv in H. apply prefix_cons_inv_1 in H.
  subst hi. discriminate.
Qed.

(** C2 fails where the cut after 100 units falls inside a surrogate
    pair.  The store holds one record; a second record with another id
    and the same title, author and text is given, so that the stored text
    begins with the first 100 units of the new one.  The pattern that
    reaches the store ends in U+FFFD, the stored text has the pair in
    that place, and the look-up finds nothing: the call does not throw
    the duplicate-content error but goes on to [insertOne], and when
    that answers, the duplicate is stored. *)
Theorem insertDocument_duplicate_content w o d id id' title author text :
  can_connect w = true ->
  is_record (VObj o) id title author text ->
  lookup_field "_id" o = None ->
  coll w = [d] ->
  is_record (VObj d) id' title author text ->
  toWellFormed id' <> toWellFormed id ->
  prefix_sendable text ->
  cut_in_pair text ->
  content_taken title author text (coll w) /\
  ~ content_found title author text (coll w) /\
  let '(r, w') := MongoService.insertDocument (VObj o) w in
  r <> Throw DuplicateContentError /\
  match r with
  | Ok key => key = VOid (next_oid w) /\ coll w' = [d; set_field "_id" key o]
  | Throw _ => coll w' = [d]
  end.
Proof.
  intros Hc Hrec Hnokey Hcoll Hd Hid Hsend Hcut.
  destruct (is_record_fields _ _ _ _ _ Hd) as [Hd1 [Hd2 [Hd3 Hd4]]].
  pose proof Hd as [d0 [a [[= <-] [Hlid [Hltext _]]]]].
  assert (content_taken title author text (coll w)) as Htaken.
  { rewrite Hcoll. constructor. split; [exact Hd2|]. split; [exact Hd3|].
    exists text. split; [exact Hd4 | apply prefix_take]. }
  assert (~ content_found title author text (coll w)) as Hmiss.
  { rewrite Hcoll. intros H. apply Exists_cons in H.
    destruct H as [[_ [_ [stored [Hin Hp]]]]|H]; [|inversion H].
    rewrite (candidates_top "content_text" d eq_refl text Hltext) in Hin.
    destruct Hin as [[= <-]|[]]. now apply (cut_in_pair_miss text). }
  assert (~ id_found id (coll w)) as Hfresh.
  { rewrite Hcoll. intros H. apply Exists_cons in H.
    destruct H as [[s' [Hin Hs']]|H]; [|inversion H].
    rewrite (candidates_top "document_id" d eq_refl id' Hlid) in Hin.
    destruct Hin as [[= <-]|[]]. contradiction. }
  split; [exact Htaken|]. split; [exact Hmiss|].
  destruct (insertDocument_record w _ _ _ _ _ Hc Hrec)
    as [w1 [w2 [w3 [_ [_ [H3 [_ [_ [Hc3 [Hoid ->]]]]]]]]]].
  rewrite (not_found_find _ _ Hfresh). unfold prefix_sendable in Hsend.
  rewrite Hsend.
  destruct (find_first (content_signature _ _ _) (coll w)) as [x|] eqn:E.
  { exfalso. apply Hmiss. apply (content_found_find _ _ _ _ Hsend). eauto. }
  destruct (insertOne (VObj o) w3) as [r w'] eqn:Hins.
  apply (insertOne_keyless _ _ _ _ Hnokey) in Hins.
  rewrite Hoid, H3, Hcoll in Hins.
  destruct r as [key|e].
  - split; [discriminate | exact Hins].
  - destruct Hins as [[code ->] Hins]. split; [discriminate | exact Hins].
Qed.

Lemma insertDocument_duplicate_content_witness :
  let d := sample_object_of "doc-1" "Notes" "A. Author" sample_astral_text in
  let o := sample_object_of "doc-2" "Notes" "A. Author" sample_astral_text in
  let w := sample_world [d] in
  cut_in_pair sample_astral_text /\
  content_taken (js "Notes") (js "A. Author") sample_astral_text (coll w) /\
  exists w',
    MongoService.insertDocument (VObj o) w = (Ok (VOid 1), w') /\
    coll w' = [d; set_field "_id" (VOid 1) o].
Proof.
  intros d o w.
  assert (cut_in_pair sample_astral_text) as Hcut.
  { exists (repeat 97%N 99), 55357%N, 56832%N, (js " and more").
    repeat split; reflexivity. }
  assert (forall i, is_record (VObj (sample_object_of i "Notes" "A. Author"
                                       sample_astral_text))
                      (js i) (js "Notes") (js "A. Author") sample_astral_text)
    as Hrec by (intros i; eexists _, _; repeat split).
  split; [exact Hcut|].
  destruct (insertDocument_duplicate_content w o d (js "doc-2") (js "doc-1")
              (js "Notes") (js "A. Author") sample_astral_text)
    as [H1 [_ H2]]; try reflexivity; try exact Hcut; try apply Hrec.
  - vm_compute. discriminate.
  - split; [exact H1|].
    destruct (MongoService.insertDocument (VObj o) w) as [r w'] eqn:E.
    assert (r = Ok (VOid 1)) as ->.
    { apply (f_equal fst) in E. cbn [fst] in E. rewrite <- E.
      vm_compute. reflexivity. }
    exists w'. split; [reflexivity|]. destruct H2 as [_ [_ H2]]. exact H2.
Defined.

(** X5. On a record the two look-ups of [insertDocument] decide in
    their order: a stored document found by the id makes the call throw
    the duplicate-id error, otherwise one found by the content signature
    makes it throw the duplicate-content error, and nothing is stored in
    either case.  When neither finds anything the call is [insertOne] on
    the record: an answer is the generated key, under which a record
    without storage key is stored after the others; an error is none of
    the two duplicate errors, and nothing is stored. *)
Theorem insertDocument_persists w o id title author text :
  can_connect w = true ->
  is_record (VObj o) id title author text ->
  prefix_sendable text ->
  lookup_field "_id" o = None ->
  let '(r, w') := MongoService.insertDocument (VObj o) w in
  (id_found id (coll w) ->
   r = Throw DuplicateIdError /\ coll w' = coll w) /\
  (~ id_found id (coll w) -> content_found title author text (coll w) ->
   r = Throw DuplicateContentError /\ coll w' = coll w) /\
  (~ id_found id (coll w) -> ~ content_found title author text (coll w) ->
   match r with
   | Ok key =>
       key = VOid (next_oid w) /\ coll w' = coll w ++ [set_field "_id" key o]
   | Throw e =>
       e <> DuplicateIdError /\ e <> DuplicateContentError /\ coll w' = coll w
   end).
Proof.
  intros Hc Hrec Hsend Hnokey.
  destruct (insertDocument_record w _ _ _ _ _ Hc Hrec)
    as [w1 [w2 [w3 [H1 [H2 [H3 [_ [_ [_ [Hoid ->]]]]]]]]]].
  pose proof (id_found_find id (coll w)) as Hi.
  pose proof (content_found_find title author text (coll w) Hsend) as Hs.
  unfold prefix_sendable in Hsend. rewrite Hsend.
  destruct (find_first (id_query (VStr id)) (coll w)) as [x|].
  { split; [auto|]. split; intros Hno; exfalso; apply Hno, Hi; eauto. }
  assert (~ id_found id (coll w)) as Hfresh
    by (intros [x Hx]%Hi; discriminate).
  destruct (find_first (content_signature _ _ _) (coll w)) as [x|].
  { split; [intros; contradiction|]. split; [auto|].
    intros _ Hno. exfalso. apply Hno, Hs. eauto. }
  assert (~ content_found title author text (coll w)) as Hnew
    by (intros [x Hx]%Hs; discriminate).
  destruct (insertOne (VObj o) w3) as [r w'] eqn:Hins.
  apply (insertOne_keyless _ _ _ _ Hnokey) in Hins.
  rewrite Hoid, H3 in Hins.
  split; [intros; contradiction|]. split; [intros; contradiction|].
  intros _ _. destruct r as [key|e]; [exact Hins|].
  destruct Hins as [[code ->] Hins]. repeat split; [discriminate.. | exact Hins].
Qed.

Lemma insertDocument_persists_witness :
  let stored := set_field "_id" (VOid 0)
                  (sample_object "doc-1" "Walden" "Thoreau" "I went to the woods") in
  let w := sample_world [stored] in
  let o := sample_object "doc-2" "Essays" "Emerson" "To be great" in
  can_connect w = true /\
  exists w',
    MongoService.insertDocument (VObj o) w = (Ok (VOid 1), w') /\
    coll w' = [stored; set_field "_id" (VOid 1) o].
Proof.
  intros stored w o. split; [reflexivity|].
  pose proof (insertDocument_persists w o (js "doc-2") (js "Essays")
                (js "Emerson") (js "To be great") eq_refl
                (sample_is_record _ _ _ _) eq_refl eq_refl) as H.
  destruct (MongoService.insertDocument (VObj o) w) as [r w'] eqn:E.
  assert (r = Ok (VOid 1)) as ->.
  { apply (f_equal fst) in E. cbn [fst] in E. rewrite <- E.
    vm_compute. reflexivity. }
  destruct H as [_ [_ H]]. exists w'. split; [reflexivity|].
  apply H.
  - intros H0. apply Exists_cons in H0.
    destruct H0 as [[s' [Hin Hs]]|H0]; [|inversion H0].
    destruct Hin as [[= <-]|[]]. vm_compute in Hs. discriminate.
  - intros H0. apply Exists_cons in H0.
    destruct H0 as [[[s' [Hin Hs]] _]|H0]; [|inversion H0].
    destruct Hin as [[= <-]|[]]. vm_compute in Hs. discriminate.
Defined.

(** *** [deleteDocument] *)

Lemma remove_first_split f l d :
  find_first f l = Some d ->
  exists l1 l2,
    l = l1 ++ d :: l2 /\ find_first f l1 = None /\ matches f d = true /\
    remove_first f l = l1 ++ l2.
Proof.
  induction l as [|x l IH]; cbn [find_first remove_first]; [discriminate|].
  destruct (matches f x) eqn:E.
  - intros [= ->]. exists [], l. auto.
  - intros H. destruct (IH H) as [l1 [l2 [-> [H1 [H2 H3]]]]].
    exists (x :: l1), l2. cbn [find_first app]. rewrite E, H3. auto.
Qed.

Lemma deleteDocument_run documentId w :
  can_connect w = true ->
  plain_value documentId = true ->
  exists w',
    MongoService.deleteDocument documentId w
    = (Ok (match find_first (id_query documentId) (coll w) with
           | Some _ => 1 | None => 0 end), w') /\
    coll w' = remove_first (id_query documentId) (coll w) /\
    can_connect w' = true.
Proof.
  intros Hc Hplain. unfold MongoService.deleteDocument.
  destruct (connect_ok w Hc) as [h [w1 [Hconn [Hc1 [Hcoll _]]]]].
  unfold bind at 1. rewrite Hconn.
  unfold bind at 1. cbn [MongoService.db_collection ret].
  unfold deleteOne. rewrite check_id_query, Hplain.
  change (coll (logged _ w1)) with (coll w1). rewrite Hcoll.
  destruct (find_first (id_query documentId) (coll w)) as [d|] eqn:E.
  - eexists. split; [reflexivity|]. split; [reflexivity | exact Hc1].
  - eexists. split; [reflexivity|]. split; [|exact Hc1].
    change (coll (logged _ w1)) with (coll w1). rewrite Hcoll.
    clear -E. induction (coll w) as [|x l IH]; [reflexivity|].
    cbn [find_first remove_first] in *. destruct (matches _ x); [discriminate|].
    now rewrite <- IH.
Qed.

(** A document found by the id whose [document_id] is a string has the
    id, as the store receives it. *)
Lemma holds_id_string id d s :
  holds_string "document_id" id d -> has_string "document_id" s d ->
  toWellFormed s = toWellFormed id.
Proof.
  unfold holds_string, has_string, field.
  change (split_path "document_id") with ["document_id"%string].
  cbn [get_path candidates]. intros [s' [Hin Hs]] H.
  destruct (lookup_field "document_id" d) as [v|]; [|discriminate H].
  injection H as ->. cbn in Hin. destruct Hin as [[= <-]|[]]. exact Hs.
Qed.

(** C9. For every string, [deleteDocument] completes without error once
    the connection is there, and the service stays connected.  When the
    look-up by the id finds no stored document, the answer is 0 and the
    collection is unchanged; otherwise the answer is 1 and the first
    document found by the id is removed and nothing else.  A stored
    record whose [document_id] is the string is found, and a document
    that is found and whose [document_id] is a string has the id. *)
Theorem deleteDocument_absent_ok w id :
  can_connect w = true ->
  (id_taken id (coll w) -> id_found id (coll w)) /\
  exists n w',
    MongoService.deleteDocument (VStr id) w = (Ok n, w') /\
    can_connect w' = true /\
    (~ id_found id (coll w) -> n = 0 /\ coll w' = coll w) /\
    (id_found id (coll w) ->
     n = 1 /\
     exists before d after,
       coll w = before ++ d :: after /\
       holds_string "document_id" id d /\
       (forall s, has_string "document_id" s d ->
                  toWellFormed s = toWellFormed id) /\
       ~ id_found id before /\
       coll w' = before ++ after).
Proof.
  intros Hc. split; [apply id_taken_found|].
  destruct (deleteDocument_run (VStr id) w Hc eq_refl) as [w' [Hrun [Hcoll Hc']]].
  eexists _, w'. split; [exact Hrun|]. split; [exact Hc'|].
  pose proof (id_found_find id (coll w)) as Hi.
  destruct (find_first (id_query (VStr id)) (coll w)) as [d|] eqn:E.
  - split.
    + intros Hno. exfalso. apply Hno, Hi. eauto.
    + intros _. split; [reflexivity|].
      destruct (remove_first_split _ _ _ E) as [l1 [l2 [Hl [H1 [H2 H3]]]]].
      exists l1, d, l2. split; [exact Hl|]. split; [now apply matches_id|].
      split; [intros s; apply holds_id_string; now apply matches_id|].
      split; [|congruence].
      intros H. apply id_found_find in H. destruct H as [d' Hd']. congruence.
  - split.
    + intros _. split; [reflexivity|]. rewrite Hcoll.
      clear -E. induction (coll w) as [|x l IH]; [reflexivity|].
      cbn [find_first remove_first] in *. destruct (matches _ x); [discriminate|].
      now rewrite IH.
    + intros H. apply Hi in H. destruct H. discriminate.
Qed.

Lemma deleteDocument_absent_ok_witness :
  let w := sample_world [sample_object "doc-1" "Walden" "Thoreau" "I went to the woods"] in
  can_connect w = true /\
  ~ id_found (js "missing") (coll w) /\
  exists n w',
    MongoService.deleteDocument (VStr (js "missing")) w = (Ok n, w') /\
    n = 0 /\ coll w' = coll w.
Proof.
  intros w.
  assert (~ id_found (js "missing") (coll w)) as Hno.
  { intros H. apply Exists_cons in H. destruct H as [[s' [Hin Hs]]|H]; [|inversion H].
    destruct Hin as [[= <-]|[]]. vm_compute in Hs. discriminate. }
  split; [reflexivity|]. split; [exact Hno|].
  destruct (deleteDocument_absent_ok w (js "missing") eq_refl)
    as [_ [n [w' [Hrun [_ [Habsent _]]]]]].
  exists n, w'. split; [exact Hrun | exact (Habsent Hno)].
Defined.

(** *** [getCollectionStats] *)


Lemma existsb_value_eqb v acc : existsb (value_eqb v) acc = true <-> In v acc.
Proof.
  rewrite existsb_exists. split.
  - intros [x [Hin Hx]]. apply value_eqb_eq in Hx. now subst.
  - intros Hin. exists v. split; [exact Hin | now apply value_eqb_eq].
Qed.

Lemma add_to_set_in v acc x : In x (add_to_set v acc) <-> x = v \/ In x acc.
Proof.
  unfold add_to_set. destruct (existsb (value_eqb v) acc) eqn:E.
  - apply existsb_value_eqb in E. split; [auto | intros [->|H]; assumption].
  - rewrite in_app_iff. cbn [In]. split; intros H; intuition congruence.
Qed.

Lemma add_to_set_nodup v acc : List.NoDup acc -> List.NoDup (add_to_set v acc).
Proof.
  intros H. unfold add_to_set. destruct (existsb (value_eqb v) acc) eqn:E; [exact H|].
  apply List.NoDup_app; [exact H | repeat constructor; intros [] |].
  intros x Hx [Hv|[]]. subst x.
  assert (existsb (value_eqb v) acc = true) by now apply existsb_value_eqb.
  congruence.
Qed.

Lemma distinct_field_spec path l :
  List.NoDup (distinct_field path l) /\
  forall v, In v (distinct_field path l) <->
            exists d, In d l /\ field path d = Some v.
Proof.
  unfold distinct_field.
  assert (forall acc, List.NoDup acc ->
            List.NoDup (fold_left (fun acc d =>
               match field path d with Some v => add_to_set v acc | None => acc end) l acc) /\
            forall v, In v (fold_left (fun acc d =>
               match field path d with Some v => add_to_set v acc | None => acc end) l acc) <->
                      In v acc \/ exists d, In d l /\ field path d = Some v) as H.
  { induction l as [|d l IH]; intros acc Hacc; cbn [fold_left].
    - split; [exact Hacc|]. intros v. split; [auto | intros [H|[d [[] _]]]; exact H].
    - destruct (field path d) as [x|] eqn:E.
      + destruct (IH (add_to_set x acc) (add_to_set_nodup _ _ Hacc)) as [H1 H2].
        split; [exact H1|]. intros v. rewrite H2, add_to_set_in. split.
        * intros [[->|H]|[d' [Hin Hd']]]; [right; exists d; cbn; auto | auto |
            right; exists d'; cbn; auto].
        * intros [H|[d' [[<-|Hin] Hd']]]; [auto | left; left; congruence | right; eauto].
      + destruct (IH acc Hacc) as [H1 H2]. split; [exact H1|].
        intros v. rewrite H2. split.
        * intros [H|[d' [Hin Hd']]]; [auto | right; exists d'; cbn; auto].
        * intros [H|[d' [[<-|Hin] Hd']]]; [auto | congruence | right; eauto]. }
  destruct (H [] (List.NoDup_nil _)) as [H1 H2]. split; [exact H1|].
  intros v. rewrite H2. cbn [In]. tauto.
Qed.

Lemma sum_field_rows path (get : Z * Z * Z -> Z) l rows :
  Forall2 (fun d row => field path d = Some (VNum (get row))) l rows ->
  sum_field path l = sum_Z (map get rows) /\
  numeric_values path l = map get rows.
Proof.
  induction 1 as [|d row l rows Hd _ [IH1 IH2]]; [split; reflexivity|].
  unfold sum_field, numeric_values in *. cbn [fold_right map sum_Z omap list_omap].
  rewrite Hd. cbn [numeric default]. simpl default.
  split; [now rewrite IH1 | now rewrite IH2].
Qed.

Lemma has_counts_fields l rows :
  Forall2 has_counts l rows ->
  Forall2 (fun d row => field "training_metadata.character_count" d
                        = Some (VNum (fst (fst row)))) l rows /\
  Forall2 (fun d row => field "training_metadata.token_count" d
                        = Some (VNum (snd (fst row)))) l rows /\
  Forall2 (fun d row => field "training_metadata.weighting" d
                        = Some (VNum (snd row))) l rows.
Proof.
  induction 1 as [|d [[c t] wt] l rows [H1 [H2 H3]] _ [IH1 [IH2 IH3]]].
  - repeat split; constructor.
  - repeat split; constructor; assumption.
Qed.

(** C7. On an empty collection the statistics are the all-zero object
    with no content types; on a non-empty one they are the number of
    documents, the sums of the two counts, the mean weighting and the
    distinct content types of the whole collection. *)
Theorem getCollectionStats_spec w :
  can_connect w = true ->
  exists st w',
    MongoService.getCollectionStats w = (Ok st, w') /\
    coll w' = coll w /\
    (coll w = [] ->
     totalDocuments st = 0%Z /\ totalCharacters st = 0%Z /\
     totalTokens st = 0%Z /\ averageWeight st = Some (0 # 1)%Q /\
     contentTypes st = []) /\
    (coll w <> [] ->
     totalDocuments st = Z.of_nat (length (coll w)) /\
     (forall rows, Forall2 has_counts (coll w) rows ->
        totalCharacters st = sum_Z (map (fun row => fst (fst row)) rows) /\
        totalTokens st = sum_Z (map (fun row => snd (fst row)) rows) /\
        averageWeight st
        = Some (sum_Z (map snd rows) # Pos.of_nat (length (coll w)))%Q) /\
     List.NoDup (contentTypes st) /\
     forall v, In v (contentTypes st) <->
               exists d, In d (coll w) /\
                         field "attribution.content_type" d = Some v).
Proof.
  intros Hc. unfold MongoService.getCollectionStats.
  destruct (connect_ok w Hc) as [h [w1 [Hconn [Hc1 [Hcoll _]]]]].
  unfold bind at 1. rewrite Hconn.
  unfold bind at 1. cbn [MongoService.db_collection ret].
  unfold bind, aggregate_group, ret.
  change (coll (logged CallAggregate w1)) with (coll w1). rewrite Hcoll.
  eexists _, _. split; [reflexivity|]. split; [exact Hcoll|].
  destruct (coll w) as [|d l] eqn:El.
  - split; [|intros H; now contradiction H]. intros _. cbn. auto.
  - split; [discriminate|]. intros _. cbn [group_all totalDocuments
      totalCharacters totalTokens averageWeight contentTypes].
    split; [reflexivity|]. split.
    + intros rows Hrows. apply has_counts_fields in Hrows.
      destruct Hrows as [H1 [H2 H3]].
      destruct (sum_field_rows _ (fun row => fst (fst row)) _ _ H1) as [-> _].
      destruct (sum_field_rows _ (fun row => snd (fst row)) _ _ H2) as [-> _].
      destruct (sum_field_rows _ snd _ _ H3) as [_ Hn].
      split; [reflexivity|]. split; [reflexivity|].
      unfold avg_field. rewrite Hn.
      assert (length (map snd rows) = length (d :: l)) as Hlen.
      { rewrite length_map. symmetry. eapply Forall2_length; eassumption. }
      destruct (map snd rows) as [|x xs]; [discriminate|].
      now rewrite Hlen.
    + apply distinct_field_spec.
Qed.

Lemma getCollectionStats_spec_witness :
  let w := sample_world [sample_object "doc-1" "Walden" "Thoreau" "I went to the woods";
                         sample_object "doc-2" "Essays" "Emerson" "To be great"] in
  can_connect w = true /\
  exists st w',
    MongoService.getCollectionStats w = (Ok st, w') /\
    totalDocuments st = 2%Z /\ totalCharacters st = 30%Z /\
    totalTokens st = 8%Z /\ averageWeight st = Some (2 # 2)%Q.
Proof.
  intros w. split; [reflexivity|].
  destruct (getCollectionStats_spec w eq_refl) as [st [w' [Hrun [_ [_ Hfull]]]]].
  exists st, w'. split; [exact Hrun|].
  destruct (Hfull ltac:(discriminate)) as [Hn [Hrows _]].
  destruct (Hrows [(19, 5, 1); (11, 3, 1)]%Z) as [Hc [Ht Ha]].
  { repeat constructor. }
  auto.
Defined.

(** *** [updateDocument] *)

Lemma set_field_in k v o : In (k, v) (set_field k v o).
Proof.
  induction o as [|[k0 v0] o IH]; cbn [set_field]; [now left|].
  destruct (String.eqb k k0); [now left | now right].
Qed.

Lemma is_prefix_path_refl p : is_prefix_path p p = true.
Proof. induction p as [|k p IH]; cbn; [reflexivity|]. now rewrite String.eqb_refl. Qed.

Lemma has_conflict_repeat p ps : In p ps -> has_conflict (ps ++ [p]) = true.
Proof.
  induction ps as [|q ps IH]; [contradiction|]. intros [->|Hin]; cbn [app has_conflict].
  - apply orb_true_iff. left. apply existsb_exists. exists p.
    split; [apply in_or_app; right; now left|].
    unfold conflicting. now rewrite is_prefix_path_refl.
  - rewrite (IH Hin). apply orb_true_r.
Qed.

(** The command of [updateDocument] names [version] under both
    operators. *)
Lemma update_conflict stamp o :
  check_update {| upd_set := patched stamp o; upd_inc := [("version", VNum 1)] |}
  = Throw (MongoServerError 40).
Proof.
  unfold check_update. cbn [upd_inc upd_set forallb snd is_number negb andb].
  unfold update_paths. cbn [upd_inc upd_set]. rewrite map_app. cbn [map fst].
  rewrite has_conflict_repeat; [reflexivity|].
  apply in_map_iff. exists ("version"%string, version_bump).
  split; [reflexivity | apply set_field_in].
Qed.

Lemma updateDocument_run w documentId ref o :
  can_connect w = true ->
  heap w !! ref = Some o ->
  exists w',
    MongoService.updateDocument documentId ref w
    = (Throw (MongoServerError 40), w') /\
    coll w' = coll w /\
    heap w' = <[ref := patched (now w) o]> (heap w) /\
    calls w' = CallUpdateOne (id_query documentId)
                 {| upd_set := patched (now w) o;
                    upd_inc := [("version", VNum 1)] |} :: calls w.
Proof.
  intros Hc Hheap. unfold MongoService.updateDocument.
  destruct (connect_ok w Hc) as [h [w1 [Hconn [Hc1 [Hcoll [Hh [Hnow [Hcalls _]]]]]]]].
  unfold bind at 1. rewrite Hconn.
  unfold bind at 1. cbn [MongoService.db_collection ret].
  unfold bind at 1, MongoService.current_time at 1.
  unfold bind at 1, MongoService.assign at 1. rewrite Hh, Hheap.
  unfold bind at 1, MongoService.assign at 1. cbn [heap with_heap].
  rewrite lookup_insert_eq.
  unfold bind at 1, MongoService.deref at 1. cbn [heap with_heap].
  rewrite lookup_insert_eq, insert_insert_eq.
  change (set_field "version" version_bump
            (set_field "updated_at" (VStr (now w1)) o))
    with (patched (now w1) o).
  rewrite Hnow.
  unfold updateOne. rewrite check_id_query, update_conflict.
  eexists. split; [reflexivity|]. cbn. rewrite Hcalls. auto.
Qed.

(** C3. Every call of [updateDocument] is refused by the store (the
    command sets and increments [version] at once), so no stored record
    is merged, stamped or given a new version. *)
Theorem updateDocument_rejected w documentId ref o :
  can_connect w = true ->
  heap w !! ref = Some o ->
  exists w',
    MongoService.updateDocument documentId ref w
    = (Throw (MongoServerError 40), w') /\
    coll w' = coll w.
Proof.
  intros Hc Hheap.
  destruct (updateDocument_run w documentId ref o Hc Hheap) as [w' [H1 [H2 _]]].
  eauto.
Qed.

Lemma updateDocument_rejected_witness :
  let w := sample_world [sample_object "doc-1" "Walden" "Thoreau" "I went to the woods"] in
  can_connect w = true /\
  heap w !! 1%nat = Some [("note", VStr (js "revised"))] /\
  exists w',
    MongoService.updateDocument (VStr (js "doc-1")) 1 w
    = (Throw (MongoServerError 40), w') /\
    coll w' = coll w.
Proof.
  intros w. split; [reflexivity|]. split; [reflexivity|].
  exact (updateDocument_rejected w (VStr (js "doc-1")) 1 _ eq_refl eq_refl).
Defined.

(** C10. [updateDocument] changes the caller's patch object: it gets
    [updated_at] set to the current time and [version] overwritten with
    the object that holds [$inc]; that same object is what goes out under
    [$set], next to an [$inc] of [version] by 1. *)
Theorem updateDocument_mutates_patch w documentId ref o :
  can_connect w = true ->
  heap w !! ref = Some o ->
  exists r w' o',
    MongoService.updateDocument documentId ref w = (r, w') /\
    heap w' !! ref = Some o' /\
    lookup_field "updated_at" o' = Some (VStr (now w)) /\
    lookup_field "version" o' = Some (VObj [("$inc", VObj [("version", VNum 1)])]) /\
    (forall k, k <> "updated_at"%string -> k <> "version"%string ->
               lookup_field k o' = lookup_field k o) /\
    calls w' = CallUpdateOne (id_query documentId)
                 {| upd_set := o'; upd_inc := [("version", VNum 1)] |} :: calls w.
Proof.
  intros Hc Hheap.
  destruct (updateDocument_run w documentId ref o Hc Hheap)
    as [w' [H1 [_ [H3 H4]]]].
  exists (Throw (MongoServerError 40)), w', (patched (now w) o).
  split; [exact H1|]. split; [rewrite H3; apply lookup_insert_eq|].
  unfold patched. split.
  - rewrite lookup_set_field_ne by discriminate. apply lookup_set_field_eq.
  - split; [apply lookup_set_field_eq|]. split; [|exact H4].
    intros k Hk1 Hk2. now rewrite !lookup_set_field_ne.
Qed.

Lemma updateDocument_mutates_patch_witness :
  let w := sample_world [sample_object "doc-1" "Walden" "Thoreau" "I went to the woods"] in
  can_connect w = true /\
  heap w !! 1%nat = Some [("note", VStr (js "revised"))] /\
  exists r w' o',
    MongoService.updateDocument (VStr (js "doc-1")) 1 w = (r, w') /\
    heap w' !! 1%nat = Some o' /\
    lookup_field "version" o' = Some (VObj [("$inc", VObj [("version", VNum 1)])]).
Proof.
  intros w. split; [reflexivity|]. split; [reflexivity|].
  destruct (updateDocument_mutates_patch w (VStr (js "doc-1")) 1 _ eq_refl eq_refl)
    as [r [w' [o' [H1 [H2 [_ [H4 _]]]]]]].
  exists r, w', o'. auto.
Defined.

(** *** [connect] *)

(** Run on its own, [connect()] is idempotent: a later call answers with
    the memoized handle and constructs nothing. *)
Lemma connect_memoized w h w1 :
  MongoService.connect w = (Ok (Some h), w1) ->
  MongoService.connect w1 = (Ok (Some h), w1) /\
  clients_created w1 <= S (clients_created w).
Proof.
  unfold MongoService.connect, MongoService.connect_begin,
    MongoService.connect_resume.
  destruct w as [c d n r l k t hp cl cf]; cbn.
  destruct c as [c|]; cbn.
  - intros [= -> <-]. cbn. split; [reflexivity | lia].
  - destruct r; cbn; [|discriminate]. intros [= <- <-]. cbn. split; [reflexivity | lia].
Qed.

Lemma step_call_client c w :
  let '(_, w') := MongoService.step_call c w in
  match this_client w with
  | Some x => this_client w' = Some x /\ clients_created w' = clients_created w
  | None =>
      (this_client w' = None /\ clients_created w' = clients_created w) \/
      (this_client w' <> None /\ clients_created w' = S (clients_created w))
  end.
Proof.
  destruct w as [cl d n r l k t hp cs cf].
  destruct c as [| |db|e]; destruct cl as [x|]; cbn;
    try destruct r; cbn; auto; right; auto.
Qed.

(** X1. However the calls of [connect()] interleave, a service without
    a client constructs at most one, and a service with a client
    constructs none. *)
Theorem run_single_client schedule :
  forall cs w,
  let '(_, w') := MongoService.run schedule (cs, w) in
  match this_client w with
  | Some _ => clients_created w' = clients_created w
  | None => clients_created w' <= S (clients_created w)
  end.
Proof.
  induction schedule as [|i schedule IH]; intros cs w.
  - cbn. destruct (this_client w); lia.
  - unfold MongoService.run in *. cbn [fold_left].
    unfold MongoService.step at 2. cbn [fst snd].
    destruct (cs !! i) as [c|].
    + pose proof (step_call_client c w) as Hs.
      destruct (MongoService.step_call c w) as [c' w1].
      specialize (IH (<[i := c']> cs) w1).
      destruct (fold_left _ schedule _) as [cs' w'].
      destruct (this_client w) as [x|].
      * destruct Hs as [Hx Hn]. rewrite Hx in IH. lia.
      * destruct Hs as [[Hx Hn]|[Hx Hn]].
        -- rewrite Hx in IH. lia.
        -- destruct (this_client w1); [lia | contradiction].
    + specialize (IH cs w). destruct (fold_left _ schedule _) as [cs' w']. exact IH.
Qed.

(** C8. Two overlapping calls on a new service: the second call returns
    before the first attempt has settled, and what it returns is the
    handle that is not there yet ([null]); only one client is made. *)
Theorem connect_overlap_returns_null w :
  just_constructed w ->
  reachable w = true ->
  exists w',
    MongoService.run [0; 1; 0]
      ([MongoService.NotStarted; MongoService.NotStarted], w)
    = ([MongoService.Returned (Some (clients_created w));
        MongoService.Returned None], w') /\
    clients_created w' = S (clients_created w).
Proof.
  destruct w as [c d n r l k t hp cs cf]. unfold just_constructed. cbn.
  intros [-> ->] ->. eexists. split; reflexivity.
Qed.

Lemma connect_overlap_returns_null_witness :
  let w := sample_world [] in
  just_constructed w /\ reachable w = true /\
  exists w',
    MongoService.run [0; 1; 0]
      ([MongoService.NotStarted; MongoService.NotStarted], w)
    = ([MongoService.Returned (Some 0); MongoService.Returned None], w') /\
    clients_created w' = 1.
Proof.
  intros w. split; [split; reflexivity|]. split; [reflexivity|].
  exact (connect_overlap_returns_null w (conj eq_refl eq_refl) eq_refl).
Defined.

(** X4. [close()] on a service without a client does nothing.  With
    a client, when the driver closes the connection, client and handle
    are dropped and the next [connect()] makes a new client; when the
    driver rejects the closing, the error goes to the caller and client
    and handle stay as they were, so that the next [connect()] answers
    with the old handle and makes no client.  The collection is not
    touched. *)
Theorem close_outcomes w :
  let '(r, w') := MongoService.close w in
  coll w' = coll w /\
  match this_client w with
  | None => r = Ok tt /\ w' = w
  | Some _ =>
      match r with
      | Ok _ =>
          this_client w' = None /\ this_db w' = None /\
          clients_created (snd (MongoService.connect w'))
          = S (clients_created w)
      | Throw _ =>
          w' = w /\ this_db w <> None /\ close_fails w = true /\
          MongoService.connect w' = (Ok (this_db w), w')
      end
  end.
Proof.
  unfold MongoService.close, MongoService.client_close, bind.
  destruct w as [c d n r l k t hp cs cf]. cbn.
  destruct c as [c|]; [|auto].
  destruct d as [d|]; [destruct cf|]; cbn.
  - repeat split. discriminate.
  - repeat split. now destruct r.
  - repeat split. now destruct r.
Qed.

Lemma bind_inv {A B} (m : M A) (k : A -> M B) w r w' :
  bind m k w = (r, w') ->
  (exists a w1, m w = (Ok a, w1) /\ k a w1 = (r, w')) \/
  (exists e, m w = (Throw e, w') /\ r = Throw e).
Proof.
  unfold bind. destruct (m w) as [[a|e] w1].
  - intros H. left. eauto.
  - intros [= <- <-]. right. eauto.
Qed.

Lemma connect_frame w r w1 :
  MongoService.connect w = (r, w1) ->
  coll w1 = coll w /\ heap w1 = heap w /\ now w1 = now w /\
  next_oid w1 = next_oid w /\ calls w1 = calls w.
Proof.
  unfold MongoService.connect, MongoService.connect_begin,
    MongoService.connect_resume.
  destruct w as [c d n rc l k t hp cl cf]; cbn.
  destruct c as [c|]; cbn; [intros [= <- <-]; cbn; auto|].
  destruct rc; cbn; intros [= <- <-]; cbn; auto.
Qed.

(** The common opening of the methods: [connect()], then
    [db.collection(...)]. *)
Lemma opening_inv {A} (body : M A) w r w' :
  (let* db := MongoService.connect in
   let* _ := MongoService.db_collection db in body) w = (r, w') ->
  (exists w1, coll w1 = coll w /\ heap w1 = heap w /\ now w1 = now w /\
              next_oid w1 = next_oid w /\ calls w1 = calls w /\
              body w1 = (r, w')) \/
  (exists e, r = Throw e /\ coll w' = coll w /\ heap w' = heap w /\
             calls w' = calls w).
Proof.
  intros H. apply bind_inv in H.
  destruct H as [[db [w1 [Hc H]]]|[e [Hc ->]]].
  - apply connect_frame in Hc. destruct Hc as [H1 [H2 [H3 [H4 H5]]]].
    apply bind_inv in H. destruct H as [[[] [w2 [Hd H]]]|[e [Hd ->]]].
    + destruct db; cbn in Hd; [|discriminate]. injection Hd as <-.
      left. exists w1. repeat split; assumption.
    + destruct db; cbn in Hd; [discriminate|]. injection Hd as <- <-.
      right. exists TypeError. repeat split; assumption.
  - apply connect_frame in Hc. right. exists e. tauto.
Qed.

Lemma findOne_inv f w r w' :
  findOne f w = (r, w') ->
  coll w' = coll w /\ heap w' = heap w /\ next_oid w' = next_oid w /\
  match r with Ok found => found = find_first f (coll w) | Throw _ => True end.
Proof.
  unfold findOne. destruct (check_filter f); intros [= <- <-]; cbn; auto.
Qed.

Lemma lift_inv {A} (x : result A) w r w' :
  lift x w = (r, w') -> r = x /\ w' = w.
Proof. intros [= <- <-]. auto. Qed.

(** What [insertDocument] does to the collection, whatever it is given. *)
Lemma insertDocument_frame document w r w' :
  MongoService.insertDocument document w = (r, w') ->
  match r with
  | Throw _ => coll w' = coll w
  | Ok _ =>
      exists o o',
        document = VObj o /\ coll w' = coll w ++ [o'] /\
        (forall k, k <> "_id"%string -> lookup_field k o' = lookup_field k o) /\
        find_first (id_query (or_undefined (lookup_field "document_id" o)))
          (coll w) = None
  end.
Proof.
  unfold MongoService.insertDocument. intros H.
  apply opening_inv in H.
  destruct H as [[w1 [Hcoll [_ [_ [_ [_ H]]]]]]|[e [-> [Hcoll _]]]]; [|exact Hcoll].
  apply bind_inv in H. destruct H as [[id [w2 [Hid H]]]|[e [Hid ->]]];
    apply lift_inv in Hid; destruct Hid as [Hid ->]; [|congruence].
  apply bind_inv in H. destruct H as [[existing [w3 [Hf H]]]|[e [Hf ->]]];
    apply findOne_inv in Hf; destruct Hf as [Hc3 [_ [_ Hex]]]; [|congruence].
  destruct existing as [d|]; cbn [bool_of truthy] in H.
  { injection H as <- <-. congruence. }
  repeat (apply bind_inv in H;
          destruct H as [[? [? [Hl H]]]|[? [Hl ->]]];
          apply lift_inv in Hl; destruct Hl as [? ->]; [|congruence]).
  apply bind_inv in H. destruct H as [[dup [w4 [Hf H]]]|[e [Hf ->]]];
    apply findOne_inv in Hf; destruct Hf as [Hc4 [_ [_ Hdup]]]; [|congruence].
  destruct dup as [d|]; cbn [bool_of truthy] in H.
  { injection H as <- <-. congruence. }
  destruct document as [| | | | | | | |o];
    try (unfold insertOne in H; injection H as <- <-; cbn; congruence).
  apply insertOne_inv in H. destruct H as [_ H].
  destruct r as [key|e]; [|congruence].
  destruct H as [o' [Ho' Hsame]]. exists o, o'.
  split; [reflexivity|]. split; [congruence|]. split; [exact Hsame|].
  symmetry in Hex. rewrite Hcoll in Hex.
  cbn [get_prop] in Hid.
  destruct (lookup_field "document_id" o); cbn [or_undefined];
    injection Hid as ->; exact Hex.
Qed.

Lemma updateDocument_frame documentId ref w r w' :
  MongoService.updateDocument documentId ref w = (r, w') ->
  coll w' = coll w /\ exists e, r = Throw e.
Proof.
  unfold MongoService.updateDocument. intros H.
  apply opening_inv in H.
  destruct H as [[w1 [Hcoll [_ [_ [_ [_ H]]]]]]|[e [-> [Hcoll _]]]]; [|eauto].
  unfold bind at 1, MongoService.current_time at 1 in H.
  unfold bind at 1, MongoService.assign at 1 in H.
  destruct (heap w1 !! ref) as [o|]; [|injection H as <- <-; eauto].
  unfold bind at 1, MongoService.assign at 1 in H. cbn [heap with_heap] in H.
  rewrite lookup_insert_eq in H.
  unfold bind at 1, MongoService.deref at 1 in H. cbn [heap with_heap] in H.
  rewrite lookup_insert_eq in H.
  change (set_field "version" version_bump
            (set_field "updated_at" (VStr (now w1)) o))
    with (patched (now w1) o) in H.
  unfold updateOne in H. rewrite check_id_query, update_conflict in H.
  injection H as <- <-. cbn. eauto.
Qed.

Lemma remove_first_none f l : find_first f l = None -> remove_first f l = l.
Proof.
  induction l as [|x l IH]; [reflexivity|]. cbn [find_first remove_first].
  destruct (matches f x); [discriminate|]. intros H. now rewrite IH.
Qed.

Lemma deleteDocument_frame documentId w r w' :
  MongoService.deleteDocument documentId w = (r, w') ->
  match r with
  | Ok _ => coll w' = remove_first (id_query documentId) (coll w)
  | Throw _ => coll w' = coll w
  end.
Proof.
  unfold MongoService.deleteDocument. intros H.
  apply opening_inv in H.
  destruct H as [[w1 [Hcoll [_ [_ [_ [_ H]]]]]]|[e [-> [Hcoll _]]]]; [|exact Hcoll].
  unfold deleteOne in H. rewrite check_id_query in H.
  destruct (plain_value documentId); [|injection H as <- <-; exact Hcoll].
  change (coll (logged _ w1)) with (coll w1) in H. rewrite Hcoll in H.
  destruct (find_first _ (coll w)) eqn:E; injection H as <- <-; cbn.
  - reflexivity.
  - rewrite Hcoll. symmetry. now apply remove_first_none.
Qed.

Lemma findDocuments_frame q limit w r w' :
  MongoService.findDocuments q limit w = (r, w') -> coll w' = coll w.
Proof.
  unfold MongoService.findDocuments. intros H.
  apply opening_inv in H.
  destruct H as [[w1 [Hcoll [_ [_ [_ [_ H]]]]]]|[e [-> [Hcoll _]]]]; [|exact Hcoll].
  unfold find_limit in H. destruct (check_filter q); injection H as <- <-; exact Hcoll.
Qed.

Lemma getDocumentById_frame documentId w r w' :
  MongoService.getDocumentById documentId w = (r, w') -> coll w' = coll w.
Proof.
  unfold MongoService.getDocumentById. intros H.
  apply opening_inv in H.
  destruct H as [[w1 [Hcoll [_ [_ [_ [_ H]]]]]]|[e [-> [Hcoll _]]]]; [|exact Hcoll].
  apply findOne_inv in H. destruct H as [H _]. congruence.
Qed.

Lemma getCollectionStats_frame w r w' :
  MongoService.getCollectionStats w = (r, w') -> coll w' = coll w.
Proof.
  unfold MongoService.getCollectionStats. intros H.
  apply opening_inv in H.
  destruct H as [[w1 [Hcoll [_ [_ [_ [_ H]]]]]]|[e [-> [Hcoll _]]]]; [|exact Hcoll].
  unfold bind, aggregate_group, ret in H. injection H as <- <-. exact Hcoll.
Qed.

Lemma close_frame w r w' : MongoService.close w = (r, w') -> coll w' = coll w.
Proof.
  unfold MongoService.close, MongoService.client_close, bind.
  destruct (this_client w); [|intros [= <- <-]; reflexivity].
  destruct (this_db w); [destruct (close_fails w)|];
    intros [= <- <-]; reflexivity.
Qed.

Lemma drop_answer_inv {A} (m : M A) w r w' :
  (let* _ := m in ret tt) w = (r, w') ->
  exists r0, m w = (r0, w') /\
    match r0 with Ok _ => r = Ok tt | Throw e => r = Throw e end.
Proof.
  unfold bind, ret. destruct (m w) as [[a|e] w1]; intros [= <- <-];
    eexists; split; reflexivity.
Qed.

Lemma remove_first_cases f l :
  remove_first f l = l \/
  exists l1 d l2, l = l1 ++ d :: l2 /\ remove_first f l = l1 ++ l2.
Proof.
  destruct (find_first f l) as [d|] eqn:E.
  - right. destruct (remove_first_split _ _ _ E) as [l1 [l2 [H1 [_ [_ H2]]]]]. eauto.
  - left. now apply remove_first_none.
Qed.

Lemma perform_frame c w r w' :
  perform c w = (r, w') ->
  (forall e, r = Throw e -> coll w' = coll w) /\
  match c with
  | InsertDocument _ =>
      coll w' = coll w \/ exists stored, coll w' = coll w ++ [stored]
  | DeleteDocument _ =>
      coll w' = coll w \/
      exists before d after,
        coll w = before ++ d :: after /\ coll w' = before ++ after
  | UpdateDocument _ _ => coll w' = coll w /\ r <> Ok tt
  | _ => coll w' = coll w
  end.
Proof.
  destruct c as [|document|q limit|documentId|documentId ref|documentId| |];
    cbn [perform]; intros H;
    try (apply drop_answer_inv in H; destruct H as [r0 [H Hr]]).
  - apply connect_frame in H. destruct H as [H _]. auto.
  - apply insertDocument_frame in H. destruct r0 as [key|e].
    + destruct H as [o [o' [_ [H _]]]]. subst r. split; [discriminate|]. eauto.
    + auto.
  - apply findDocuments_frame in H. auto.
  - apply getDocumentById_frame in H. auto.
  - apply updateDocument_frame in H. destruct H as [H [e ->]]. subst r.
    split; [auto|]. split; [exact H | discriminate].
  - apply deleteDocument_frame in H. destruct r0 as [n|e]; [|auto].
    subst r. split; [discriminate|]. rewrite H.
    destruct (remove_first_cases (id_query documentId) (coll w)) as [->|Hc]; auto.
  - apply getCollectionStats_frame in H. auto.
  - apply close_frame in H. auto.
Qed.

(** X6. What one call can do to the collection: a call that throws
    leaves it as it was; [insertDocument] adds at most one document, at
    the end; [deleteDocument] takes at most one out; [updateDocument]
    never completes and changes nothing; the other methods only read. *)
Theorem perform_effect c w :
  let '(r, w') := perform c w in
  (forall e, r = Throw e -> coll w' = coll w) /\
  match c with
  | InsertDocument _ =>
      coll w' = coll w \/ exists stored, coll w' = coll w ++ [stored]
  | DeleteDocument _ =>
      coll w' = coll w \/
      exists before d after,
        coll w = before ++ d :: after /\ coll w' = before ++ after
  | UpdateDocument _ _ => coll w' = coll w /\ r <> Ok tt
  | _ => coll w' = coll w
  end.
Proof.
  destruct (perform c w) as [r w'] eqn:H. now apply perform_frame.
Qed.

(** *** Unique ids *)

Lemma string_id_top d :
  string_id d =
  match lookup_field "document_id" d with Some (VStr s) => Some s | _ => None end.
Proof.
  unfold string_id, field. change (split_path "document_id") with ["document_id"%string].
  cbn [get_path]. destruct (lookup_field "document_id" d); reflexivity.
Qed.

Lemma string_id_has_string d s :
  string_id d = Some s <-> has_string "document_id" s d.
Proof.
  unfold string_id, has_string.
  destruct (field "document_id" d) as [[]|]; split; congruence.
Qed.

Lemma not_taken_ids s l :
  find_first (id_query (VStr s)) l = None -> ~ In s (omap string_id l).
Proof.
  intros Hnone Hin. apply list_elem_of_In, list_elem_of_omap in Hin.
  destruct Hin as [d [Hd Hs]]. apply string_id_has_string in Hs.
  assert (id_taken s l) as Ht.
  { apply Exists_exists. exists d. split; [now apply list_elem_of_In | exact Hs]. }
  apply id_taken_found, id_found_find in Ht. destruct Ht. congruence.
Qed.

Lemma omap_cons_match {A B} (f : A -> option B) x l :
  omap f (x :: l) =
  match f x with Some y => y :: omap f l | None => omap f l end.
Proof. reflexivity. Qed.

Lemma unique_ids_remove f l : unique_ids l -> unique_ids (remove_first f l).
Proof.
  unfold unique_ids. intros H.
  destruct (remove_first_cases f l) as [->|[l1 [d [l2 [-> ->]]]]]; [exact H|].
  rewrite omap_app in *. rewrite omap_cons_match in H.
  destruct (string_id d) as [s|]; [|exact H].
  now apply List.NoDup_remove_1 in H.
Qed.

Lemma perform_unique_ids c w :
  unique_ids (coll w) -> unique_ids (coll (snd (perform c w))).
Proof.
  intros Hu. destruct (perform c w) as [r w'] eqn:H. cbn [snd].
  pose proof (perform_frame c w r w' H) as [Hthrow He].
  destruct c as [|document|q limit|documentId|documentId ref|documentId| |];
    try (now rewrite He).
  - cbn [perform] in H. apply drop_answer_inv in H. destruct H as [r0 [H _]].
    apply insertDocument_frame in H. destruct r0 as [key|e]; [|now rewrite H].
    destruct H as [o [o' [_ [-> [Hsame Hnone]]]]].
    unfold unique_ids in *. rewrite omap_app, omap_cons_match.
    change (omap string_id []) with (@nil jsstring).
    rewrite string_id_top, Hsame by discriminate.
    destruct (lookup_field "document_id" o) as [[]|]; cbn [or_undefined] in Hnone;
      rewrite ?app_nil_r; try exact Hu.
    apply List.NoDup_app; [exact Hu | repeat constructor; intros [] |].
    intros x Hx [Hv|[]]. subst x. now apply (not_taken_ids _ _ Hnone).
  - now rewrite (proj1 He).
  - cbn [perform] in H. apply drop_answer_inv in H. destruct H as [r0 [H _]].
    apply deleteDocument_frame in H. destruct r0; rewrite H; [|exact Hu].
    now apply unique_ids_remove.
Qed.

(** X7. Calls made one after the other keep the string ids of the
    collection distinct, whatever the calls and their arguments are. *)
Theorem perform_all_unique_ids cs w :
  unique_ids (coll w) -> unique_ids (coll (perform_all cs w)).
Proof.
  revert w. induction cs as [|c cs IH]; intros w Hu; [exact Hu|].
  cbn [perform_all fold_left]. apply IH. now apply perform_unique_ids.
Qed.

Lemma perform_all_unique_ids_witness :
  let w := sample_world [sample_object "doc-1" "Walden" "Thoreau" "I went to the woods"] in
  let cs := [InsertDocument (sample_record "doc-1" "Essays" "Emerson" "To be great");
             InsertDocument (sample_record "doc-2" "Essays" "Emerson" "To be great");
             UpdateDocument (VStr (js "doc-1")) 1;
             DeleteDocument (VStr (js "doc-1"));
             InsertDocument (sample_record "doc-2" "Nature" "Emerson" "Our age")] in
  unique_ids (coll w) /\ unique_ids (coll (perform_all cs w)).
Proof.
  intros w cs.
  assert (unique_ids (coll w)) as Hu.
  { unfold unique_ids. vm_compute. repeat constructor. intros []. }
  split; [exact Hu | exact (perform_all_unique_ids cs w Hu)].
Defined.

(** *** Look-ups *)

Lemma getDocumentById_run documentId w :
  can_connect w = true ->
  plain_value documentId = true ->
  exists w',
    MongoService.getDocumentById documentId w
    = (Ok (find_first (id_query documentId) (coll w)), w') /\
    coll w' = coll w /\ can_connect w' = true.
Proof.
  intros Hc Hplain. unfold MongoService.getDocumentById.
  destruct (connect_ok w Hc) as [h [w1 [Hconn [Hc1 [Hcoll _]]]]].
  unfold bind at 1. rewrite Hconn.
  unfold bind at 1. cbn [MongoService.db_collection ret].
  unfold findOne. rewrite check_id_query, Hplain.
  change (coll (logged _ w1)) with (coll w1). rewrite Hcoll.
  eexists. split; [reflexivity|]. split; [exact Hcoll | exact Hc1].
Qed.

Lemma find_first_app_none f l1 l2 :
  find_first f l1 = None -> find_first f (l1 ++ l2) = find_first f l2.
Proof.
  induction l1 as [|x l1 IH]; [reflexivity|]. cbn [find_first app].
  destruct (matches f x); [discriminate | exact IH].
Qed.

Lemma remove_first_app_none f l1 l2 :
  find_first f l1 = None -> remove_first f (l1 ++ l2) = l1 ++ remove_first f l2.
Proof.
  induction l1 as [|x l1 IH]; [reflexivity|]. cbn [find_first remove_first app].
  destruct (matches f x); [discriminate|]. intros H. now rewrite IH.
Qed.

(** X8. [getDocumentById] on a string only reads: it answers with the
    first stored document that the look-up by the id finds (one that
    holds the string as its [document_id] or in an array there), and with
    [null] exactly when the look-up finds none; a stored record whose
    [document_id] is the string is found. *)
Theorem getDocumentById_spec w id :
  can_connect w = true ->
  (id_taken id (coll w) -> id_found id (coll w)) /\
  exists found w',
    MongoService.getDocumentById (VStr id) w = (Ok found, w') /\
    coll w' = coll w /\
    (found = None <-> ~ id_found id (coll w)) /\
    (forall d, found = Some d ->
       exists before after,
         coll w = before ++ d :: after /\
         holds_string "document_id" id d /\ ~ id_found id before).
Proof.
  intros Hc. split; [apply id_taken_found|].
  destruct (getDocumentById_run (VStr id) w Hc eq_refl) as [w' [Hrun [Hcoll _]]].
  eexists _, w'. split; [exact Hrun|]. split; [exact Hcoll|].
  pose proof (id_found_find id (coll w)) as Hi. split.
  - split.
    + intros Hn [d Hd]%Hi. congruence.
    + apply not_found_find.
  - intros d Hd.
    destruct (remove_first_split _ _ _ Hd) as [l1 [l2 [Hl [H1 [H2 _]]]]].
    exists l1, l2. split; [exact Hl|]. split; [now apply matches_id|].
    intros [d' Hd']%id_found_find. congruence.
Qed.

Lemma getDocumentById_spec_witness :
  let w := sample_world [sample_object "doc-1" "Walden" "Thoreau" "I went to the woods"] in
  can_connect w = true /\
  exists found w',
    MongoService.getDocumentById (VStr (js "doc-2")) w = (Ok found, w') /\
    coll w' = coll w /\
    (found = None <-> ~ id_found (js "doc-2") (coll w)).
Proof.
  intros w. split; [reflexivity|].
  destruct (getDocumentById_spec w (js "doc-2") eq_refl)
    as [_ [found [w' [H1 [H2 [H3 _]]]]]].
  exists found, w'. auto.
Defined.


(** X10. Deleting by its id a record that [insertDocument] has just
    accepted takes out that record and gives back the collection as it
    was before the insert. *)
Theorem deleteDocument_after_insert w document id title author text key w1 :
  can_connect w = true ->
  is_record document id title author text ->
  MongoService.insertDocument document w = (Ok key, w1) ->
  exists w2,
    MongoService.deleteDocument (VStr id) w1 = (Ok 1, w2) /\
    coll w2 = coll w.
Proof.
  intros Hc Hrec Hins.
  pose proof (insertDocument_record_effect _ _ _ _ _ _ _ _ Hc Hrec Hins) as H.
  destruct H as [Hfresh [_ [_ [Hc1 [o' [Hcoll [Hid _]]]]]]].
  destruct (deleteDocument_run (VStr id) w1 Hc1 eq_refl) as [w2 [Hrun [Hcoll2 _]]].
  apply has_string_holds, matches_id in Hid.
  exists w2. rewrite Hrun, Hcoll2, Hcoll.
  rewrite find_first_app_none, remove_first_app_none by now apply not_found_find.
  cbn [find_first remove_first]. rewrite Hid. now rewrite app_nil_r.
Qed.


Lemma deleteDocument_after_insert_witness :
  let w := sample_world [sample_object "doc-1" "Walden" "Thoreau" "I went to the woods"] in
  let doc := sample_record "doc-2" "Essays" "Emerson" "To be great" in
  can_connect w = true /\
  exists key w1,
    MongoService.insertDocument doc w = (Ok key, w1) /\
    exists w2,
      MongoService.deleteDocument (VStr (js "doc-2")) w1 = (Ok 1, w2) /\
      coll w2 = coll w.
Proof.
  intros w doc. split; [reflexivity|].
  assert (MongoService.insertDocument doc w
          = (Ok (VOid 1), snd (MongoService.insertDocument doc w))) as Hins
    by (vm_compute; reflexivity).
  exists (VOid 1), (snd (MongoService.insertDocument doc w)).
  split; [exact Hins|].
  exact (deleteDocument_after_insert w doc _ _ _ _ _ _ eq_refl
           (sample_is_record _ _ _ _) Hins).
Defined.

Lemma filter_all {A} (l : list A) : List.filter (fun _ => true) l = l.
Proof. induction l as [|x l IH]; [reflexivity|]. cbn. now rewrite IH. Qed.

Lemma findDocuments_run w q limit :
  can_connect w = true ->
  check_filter q = Ok tt ->
  exists w',
    MongoService.findDocuments q limit w
    = (Ok (match limit with
           | O => List.filter (matches q) (coll w)
           | S _ => take limit (List.filter (matches q) (coll w))
           end), w') /\
    coll w' = coll w /\ can_connect w' = true /\
    this_client w' <> None /\ this_db w' <> None.
Proof.
  intros Hc Hq. unfold MongoService.findDocuments.
  destruct (connect_ok w Hc) as [h [w1 [Hconn [Hc1 [Hcoll _]]]]].
  unfold bind at 1. rewrite Hconn.
  unfold bind at 1. cbn [MongoService.db_collection ret].
  unfold find_limit. rewrite Hq.
  change (coll (logged _ w1)) with (coll w1). rewrite Hcoll.
  eexists. split; [reflexivity|]. split; [exact Hcoll|]. split; [exact Hc1|].
  cbn. clear -Hconn. unfold MongoService.connect, MongoService.connect_begin,
    MongoService.connect_resume in Hconn.
  destruct w as [c d n r l k t hp cl cf]; cbn in *.
  destruct c as [c|]; cbn in Hconn.
  - injection Hconn as -> <-. cbn. split; discriminate.
  - destruct r; cbn in Hconn; [|discriminate]. injection Hconn as <- <-.
    cbn. split; discriminate.
Qed.

(** *** A failed attempt to connect *)

Lemma connect_null w :
  this_client w <> None -> this_db w = None ->
  MongoService.connect w = (Ok None, w).
Proof.
  unfold MongoService.connect, MongoService.connect_begin.
  destruct (this_client w); [|contradiction]. now intros _ ->.
Qed.

Lemma opening_null {A} (body : M A) w :
  this_client w <> None -> this_db w = None ->
  (let* db := MongoService.connect in
   let* _ := MongoService.db_collection db in body) w = (Throw TypeError, w).
Proof.
  intros H1 H2. unfold bind at 1. rewrite (connect_null w H1 H2). reflexivity.
Qed.

(** X12. A first [connect()] that fails leaves the client in place and
    the handle empty.  From then on, whether or not the server can be
    reached again, [connect()] answers [null] without an error and without
    a new attempt, and every method that uses the collection throws a
    [TypeError] and sends nothing to the store; only [close()] makes the
    service try again. *)
Theorem connect_failure_is_kept w :
  just_constructed w ->
  reachable w = false ->
  exists w1,
    MongoService.connect w = (Throw MongoNetworkError, w1) /\
    this_client w1 <> None /\ this_db w1 = None /\
    forall back,
      let w2 := with_reachable back w1 in
      MongoService.connect w2 = (Ok None, w2) /\
      (forall c, c <> Connect -> c <> Close -> perform c w2 = (Throw TypeError, w2)) /\
      (back = true ->
       exists h w3, (let* _ := MongoService.close in MongoService.connect) w2
                    = (Ok (Some h), w3)).
Proof.
  destruct w as [c d n r l k t hp cs cf]. unfold just_constructed. cbn.
  intros [-> ->] ->. eexists. split; [reflexivity|]. cbn.
  split; [discriminate|]. split; [reflexivity|]. intros back.
  set (w2 := with_reachable back _).
  assert (this_client w2 <> None) as H1 by discriminate.
  assert (this_db w2 = None) as H2 by reflexivity.
  split; [reflexivity|]. split.
  - intros [|document|q limit|documentId|documentId ref|documentId| |] Hc Hx;
      try contradiction; cbn [perform]; unfold bind at 1;
      [ unfold MongoService.insertDocument
      | unfold MongoService.findDocuments
      | unfold MongoService.getDocumentById
      | unfold MongoService.updateDocument
      | unfold MongoService.deleteDocument
      | unfold MongoService.getCollectionStats ];
      now rewrite (opening_null _ w2 H1 H2).
  - intros ->. eexists _, _. reflexivity.
Qed.

Lemma connect_failure_is_kept_witness :
  let w := with_reachable false (sample_world []) in
  just_constructed w /\ reachable w = false /\
  exists w1,
    MongoService.connect w = (Throw MongoNetworkError, w1) /\
    MongoService.connect (with_reachable true w1) = (Ok None, with_reachable true w1).
Proof.
  intros w. split; [split; reflexivity|]. split; [reflexivity|].
  destruct (connect_failure_is_kept w (conj eq_refl eq_refl) eq_refl)
    as [w1 [H1 [_ [_ H2]]]].
  exists w1. split; [exact H1 | exact (proj1 (H2 true))].
Defined.

(** ** The request handlers *)

Section HandlerProperties.
Variable foreign_message : error -> string.

Lemma truthy_get_prop v k : truthy v = true -> exists y, get_prop v k = Ok y.
Proof.
  destruct v; try discriminate; cbn; intros _; eauto.
  destruct (lookup_field k fields); eauto.
Qed.

Lemma required_present_object document :
  required_present document = true -> exists o, document = VObj o.
Proof.
  unfold required_present. destruct document; cbn; try discriminate; eauto.
Qed.

Lemma get_prop_object o k :
  get_prop (VObj o) k = Ok (or_undefined (lookup_field k o)).
Proof. cbn. now destruct (lookup_field k o). Qed.

Lemma lookup_stamped_other k t o :
  k <> "created_at"%string -> k <> "updated_at"%string -> k <> "version"%string ->
  lookup_field k (stamped t o) = lookup_field k o.
Proof.
  intros H1 H2 H3. unfold stamped.
  destruct (truthy _); now rewrite !lookup_set_field_ne by assumption.
Qed.

(** The [try] block of the insert handler, case by case. *)
Lemma insert_document_try_cases document w :
  (required_present document = false /\
   ((exists m, Server.insert_document_try document w
               = (Ok {| status := 400; body := Refused m |}, w)) \/
    (Server.insert_document_try document w = (Throw TypeError, w) /\
     (document = VUndefined \/ document = VNull)))) \/
  (required_present document = true /\
   exists o, document = VObj o /\
     Server.insert_document_try document w =
     match MongoService.insertDocument (VObj (stamped (now w) o)) w with
     | (Ok key, w') =>
         if loggable document
         then (Ok {| status := 200; body := Inserted key |}, w')
         else (Throw TypeError, w')
     | (Throw e, w') => (Throw e, w')
     end).
Proof.
  unfold Server.insert_document_try, required_present.
  destruct document as [| | | | | | | |o];
    try (left; split; [reflexivity|]; right; split; [reflexivity|]; auto; fail);
    try (left; split; [reflexivity|]; left; cbn; eauto; fail).
  unfold loggable. rewrite !get_prop_object.
  set (content_text := or_undefined (lookup_field "content_text" o)).
  set (attribution := or_undefined (lookup_field "attribution" o)).
  unfold bind, lift, ret, new_date.
  destruct (truthy content_text) eqn:Ec; cbn [negb orb andb];
    [|left; split; [reflexivity|]; left; eauto].
  destruct (truthy attribution) eqn:Ea; cbn [negb orb andb];
    [|left; split; [reflexivity|]; left; eauto].
  destruct (truthy_get_prop attribution "title" Ea) as [title Ht].
  destruct (truthy_get_prop attribution "author" Ea) as [author Hau].
  rewrite Ht, Hau.
  destruct (truthy title) eqn:Et; cbn [negb orb andb];
    [|left; split; [reflexivity|]; left; eauto].
  destruct (truthy author) eqn:Eau; cbn [negb orb andb];
    [|left; split; [reflexivity|]; left; eauto].
  right. split; [reflexivity|]. exists o. split; [reflexivity|].
  cbn [set_prop]. rewrite get_prop_object.
  assert (forall o3 : object,
            lookup_field "attribution" o3 = lookup_field "attribution" o ->
            forall key (w' : world),
            match get_prop (VObj o3) "attribution" with
            | Ok a =>
                match get_prop a "title" with
                | Ok a0 =>
                    match get_prop a "author" with
                    | Ok a1 =>
                        match template_literal [a0; a1] with
                        | Ok _ => (Ok {| status := 200%N; body := Inserted key |}, w')
                        | Throw e => (Throw e, w')
                        end
                    | Throw e => (Throw e, w')
                    end
                | Throw e => (Throw e, w')
                end
            | Throw e => (Throw e, w')
            end =
            if negb (existsb ToString_throws [title; author])
            then (Ok {| status := 200%N; body := Inserted key |}, w')
            else (Throw TypeError, w')) as Hlog.
  { intros o3 Ho3 key w'. rewrite get_prop_object, Ho3. fold attribution.
    rewrite Ht, Hau. unfold template_literal.
    now destruct (existsb ToString_throws [title; author]). }
  unfold stamped, date_at.
  set (o2 := set_field "updated_at" _ _).
  assert (lookup_field "attribution" o2 = lookup_field "attribution" o) as Ho2.
  { subst o2. now rewrite !lookup_set_field_ne by discriminate. }
  destruct (truthy (or_undefined (lookup_field "version" o2)));
    cbn [negb set_prop];
    destruct (MongoService.insertDocument _ w) as [[key|e] w'];
    try reflexivity; apply Hlog; [exact Ho2|].
  now rewrite lookup_set_field_ne by discriminate.
Qed.

Lemma insert_document_run document w :
  (required_present document = false /\
   ((exists m, Server.insert_document foreign_message document w
               = ({| status := 400; body := Refused m |}, w)) \/
    ((document = VUndefined \/ document = VNull) /\
     exists m, Server.insert_document foreign_message document w
               = ({| status := if includes (message foreign_message TypeError)
                                    "already exists" then 409 else 500;
                     body := Refused m |}, w)))) \/
  (required_present document = true /\
   exists o, document = VObj o /\
     Server.insert_document foreign_message document w =
     let refuse e w' :=
       if includes (message foreign_message e) "already exists" then
         ({| status := 409; body := Refused (message foreign_message e) |}, w')
       else
         ({| status := 500;
             body := Refused (String.append "Failed to insert document: "
                                (message foreign_message e)) |}, w') in
     match MongoService.insertDocument (VObj (stamped (now w) o)) w with
     | (Ok key, w') =>
         if loggable document
         then ({| status := 200; body := Inserted key |}, w')
         else refuse TypeError w'
     | (Throw e, w') => refuse e w'
     end).
Proof.
  unfold Server.insert_document.
  destruct (insert_document_try_cases document w)
    as [[Hp [[m ->]|[-> Hd]]]|[Hp [o [-> ->]]]].
  - left. split; [exact Hp|]. left. eauto.
  - left. split; [exact Hp|]. right. split; [exact Hd|].
    destruct (includes _ _); eauto.
  - right. split; [exact Hp|]. exists o. split; [reflexivity|].
    destruct (MongoService.insertDocument _ w) as [[key|e] w'];
      [destruct (loggable (VObj o))|]; reflexivity.
Qed.

(** X13. [POST /api/insert-document] answers 200 with the inserted key
    only when one document was added at the end of the collection; every
    other answer is 400, 409 or 500 with an error text.  Such an answer
    leaves the collection as it was, with one exception: when the title
    or the author of the body cannot be made a string, the log line
    written after the insert throws, and the answer is an error although
    the document is stored. *)
Theorem insert_document_outcomes document w :
  let '(res, w') := Server.insert_document foreign_message document w in
  match body res with
  | Inserted _ =>
      status res = 200%N /\ loggable document = true /\
      exists stored, coll w' = coll w ++ [stored]
  | Refused _ =>
      (status res = 400%N \/ status res = 409%N \/ status res = 500%N) /\
      (coll w' = coll w \/
       (loggable document = false /\ status res <> 400%N /\
        exists stored, coll w' = coll w ++ [stored]))
  end.
Proof.
  destruct (insert_document_run document w)
    as [[_ [[m ->]|[_ [m ->]]]]|[_ [o [-> ->]]]]; cbn [body status].
  - auto.
  - destruct (includes _ _); auto.
  - cbv zeta.
    destruct (MongoService.insertDocument _ w) as [[key|e] w'] eqn:E;
      apply insertDocument_frame in E.
    + destruct E as [o0 [o' [_ [E _]]]].
      destruct (loggable (VObj o)); cbn [body status]; [eauto|].
      destruct (includes _ _); cbn [body status];
        (split; [auto|]); right; (split; [reflexivity|]);
        (split; [discriminate|]); eauto.
    + destruct (includes _ _); cbn [body status]; auto.
Qed.

(** X14. The handler answers 400 exactly for a body (not [null]) that
    lacks a truthy [content_text], [attribution], [attribution.title] or
    [attribution.author], and then nothing has happened: no connection is
    attempted and nothing is sent to the store. *)
Theorem insert_document_validation o w :
  let '(res, w') := Server.insert_document foreign_message (VObj o) w in
  (status res = 400%N <-> required_present (VObj o) = false) /\
  (status res = 400%N -> w' = w).
Proof.
  destruct (insert_document_run (VObj o) w)
    as [[Hp [[m ->]|[[Hd|Hd] _]]]|[Hp [o0 [_ ->]]]]; try discriminate.
  - cbn [status]. tauto.
  - rewrite Hp. cbv zeta.
    destruct (MongoService.insertDocument _ w) as [[key|e] w'];
      [destruct (loggable _)|]; try destruct (includes _ _); cbn [status];
      split; try split; discriminate.
Qed.

Lemma is_record_set_field k v o id title author text :
  k <> "document_id"%string -> k <> "content_text"%string ->
  k <> "attribution"%string ->
  is_record (VObj o) id title author text ->
  is_record (VObj (set_field k v o)) id title author text.
Proof.
  intros H1 H2 H3 [o0 [a [[= <-] [Hid [Htext [Hattr Hrest]]]]]].
  exists (set_field k v o), a. split; [reflexivity|].
  rewrite !lookup_set_field_ne by congruence. auto.
Qed.

Lemma is_record_stamped t o id title author text :
  is_record (VObj o) id title author text ->
  is_record (VObj (stamped t o)) id title author text.
Proof.
  intros H. unfold stamped.
  destruct (truthy _); repeat apply is_record_set_field; try discriminate;
    exact H.
Qed.

Lemma lookup_stamped t o :
  lookup_field "created_at" (stamped t o) = Some (date_at t) /\
  lookup_field "updated_at" (stamped t o) = Some (date_at t) /\
  exists v, lookup_field "version" (stamped t o) = Some v /\ truthy v = true /\
            (truthy (or_undefined (lookup_field "version" o)) = true ->
             lookup_field "version" o = Some v).
Proof.
  unfold stamped.
  set (o2 := set_field "updated_at" _ _).
  assert (lookup_field "version" o2 = lookup_field "version" o) as Hv.
  { subst o2. now rewrite !lookup_set_field_ne by discriminate. }
  assert (lookup_field "created_at" o2 = Some (date_at t)) as Hc.
  { subst o2. rewrite lookup_set_field_ne by discriminate. apply lookup_set_field_eq. }
  assert (lookup_field "updated_at" o2 = Some (date_at t)) as Hu.
  { subst o2. apply lookup_set_field_eq. }
  destruct (truthy (or_undefined (lookup_field "version" o2))) eqn:E.
  - split; [exact Hc|]. split; [exact Hu|]. rewrite Hv in *.
    destruct (lookup_field "version" o) as [v|]; [|discriminate]. eauto.
  - rewrite !lookup_set_field_ne by discriminate. split; [exact Hc|].
    split; [exact Hu|]. exists (VNum 1). rewrite lookup_set_field_eq.
    rewrite Hv in E. split; [reflexivity|]. split; [reflexivity|]. congruence.
Qed.

Lemma is_record_required document id title author text :
  is_record document id title author text ->
  title <> [] -> author <> [] -> text <> [] ->
  required_present document = true.
Proof.
  intros [o [a [-> [Hid [Htext [Hattr [Htitle Hauthor]]]]]]] H1 H2 H3.
  unfold required_present. rewrite !get_prop_object, Htext, Hattr. cbn [or_undefined].
  rewrite !get_prop_object, Htitle, Hauthor. cbn [or_undefined truthy].
  destruct title, author, text; try contradiction; reflexivity.
Qed.

Lemma is_record_loggable document id title author text :
  is_record document id title author text -> loggable document = true.
Proof.
  intros [o [a [-> [_ [_ [Hattr [Htitle Hauthor]]]]]]].
  unfold loggable. rewrite !get_prop_object, Hattr. cbn [or_undefined].
  rewrite !get_prop_object, Htitle, Hauthor. reflexivity.
Qed.

(** A prefix that is sent as it is stays a prefix on the way to the
    store. *)
Lemma toWellFormed_app_fixed p rest :
  toWellFormed p = p -> toWellFormed (p ++ rest) = p ++ toWellFormed rest.
Proof.
  units_induction p; [reflexivity|]. rename s into p, H into IH, H0 into IH2.
  cbn [app]. destruct (high_surrogate c) eqn:Eh.
  - destruct p as [|d p'].
    + rewrite toWellFormed_last by assumption. intros [= <-]. discriminate.
    + destruct (low_surrogate d) eqn:El.
      * rewrite toWellFormed_pair by assumption. intros [= Hp]. cbn [app].
        rewrite toWellFormed_pair by assumption. now rewrite (IH2 d p' eq_refl).
      * rewrite toWellFormed_lone by assumption. intros [= <- _]. discriminate.
  - destruct (low_surrogate c) eqn:El.
    + rewrite toWellFormed_cons_low by assumption. intros [= <- _]. discriminate.
    + rewrite !toWellFormed_cons_plain by assumption. intros [= Hp].
      now rewrite IH.
Qed.

(** Where the cut after 100 units does not fall inside a pair, a stored
    record with the title, the author and a text beginning with the first
    100 units is found by the content signature. *)
Lemma content_taken_found title author text l :
  toWellFormed (take 100 text) = take 100 text ->
  content_taken title author text l -> content_found title author text l.
Proof.
  intros Hcut. unfold content_taken, content_found. rewrite !Exists_exists.
  intros [d [Hin [H1 [H2 [stored [H3 [rest ->]]]]]]]. exists d.
  split; [exact Hin|]. split; [now apply has_string_holds|].
  split; [now apply has_string_holds|].
  exists (take 100 text ++ rest). split; [now apply get_path_candidates|].
  rewrite toWellFormed_app_fixed, Hcut by exact Hcut. now exists (toWellFormed rest).
Qed.

(** X15. For a record with a title, an author and a text whose first 100
    units can be sent as a pattern, the handler answers 409 with the
    gateway's message when the look-up by id finds a stored document, and
    when the look-up by content signature does; an answer of 200 means
    that neither found anything and that the record was stored last, with
    [created_at] and [updated_at] replaced by the server's date and a
    version that is not falsy.  A stored record with the id is found by
    the id; one with the title, the author and a text beginning with the
    first 100 units is found by the content signature where the cut after
    100 units does not fall inside a surrogate pair. *)
Theorem insert_document_conflict w document id title author text :
  can_connect w = true ->
  is_record document id title author text ->
  title <> [] -> author <> [] -> text <> [] ->
  prefix_sendable text ->
  let '(res, w') := Server.insert_document foreign_message document w in
  (id_found id (coll w) ->
   res = {| status := 409;
            body := Refused "Document with this ID already exists in corpus" |} /\
   coll w' = coll w) /\
  (~ id_found id (coll w) -> content_found title author text (coll w) ->
   res = {| status := 409;
            body := Refused "Similar content already exists in corpus" |} /\
   coll w' = coll w) /\
  (status res = 200%N ->
   ~ id_found id (coll w) /\ ~ content_found title author text (coll w) /\
   exists stored version,
     coll w' = coll w ++ [stored] /\
     has_string "document_id" id stored /\
     has_string "content_text" text stored /\
     field "created_at" stored = Some (date_at (now w)) /\
     field "updated_at" stored = Some (date_at (now w)) /\
     field "version" stored = Some version /\ truthy version = true) /\
  (id_taken id (coll w) -> id_found id (coll w)) /\
  (toWellFormed (take 100 text) = take 100 text ->
   content_taken title author text (coll w) ->
   content_found title author text (coll w)).
Proof.
  intros Hc Hrec Ht Ha Hx Hsend.
  pose proof (is_record_required _ _ _ _ _ Hrec Ht Ha Hx) as Hp.
  pose proof (is_record_loggable _ _ _ _ _ Hrec) as Hlog.
  destruct (insert_document_run document w)
    as [[Hp' _]|[_ [o [-> ->]]]]; [congruence|].
  rewrite Hlog. cbv zeta.
  apply (is_record_stamped (now w)) in Hrec.
  destruct (MongoService.insertDocument _ w) as [[key|e] w'] eqn:E;
    pose proof (insertDocument_record_effect _ _ _ _ _ _ _ _ Hc Hrec E) as H.
  - destruct H as [Hfresh [_ [Hnew [_ [o' [Hcoll [Hid [_ [_ Htext]]]]]]]]].
    split; [intros; contradiction|]. split; [intros; contradiction|].
    split; [|split; [apply id_taken_found | apply content_taken_found]].
    intros _. split; [exact Hfresh|]. split; [exact Hnew|].
    apply insertDocument_frame in E.
    destruct E as [o0 [o2 [[= <-] [Hcoll2 [Hsame _]]]]].
    assert (o2 = o') as -> by (rewrite Hcoll2 in Hcoll; now apply app_inj_tail in Hcoll).
    destruct (lookup_stamped (now w) o) as [H1 [H2 [v [H3 [H4 _]]]]].
    exists o', v. unfold field.
    change (split_path "created_at") with ["created_at"%string].
    change (split_path "updated_at") with ["updated_at"%string].
    change (split_path "version") with ["version"%string].
    cbn [get_path]. rewrite !Hsame by discriminate. rewrite H1, H2, H3.
    repeat split; assumption.
  - destruct H as [Hcoll [Hdup Hsim]].
    destruct (includes _ _) eqn:Ei; (split; [|split; [|split; [|split]]]);
      cbn [status]; try discriminate;
      try apply id_taken_found; try apply content_taken_found.
    + intros Htaken. now rewrite (Hdup Htaken).
    + intros Hfresh Htaken. now rewrite (Hsim Hfresh Hsend Htaken).
    + intros Htaken. now rewrite (Hdup Htaken) in Ei.
    + intros Hfresh Htaken. now rewrite (Hsim Hfresh Hsend Htaken) in Ei.
Qed.


Lemma readable_get_prop v k :
  get_prop v k = if readable v then get_prop v k else Throw TypeError.
Proof. now destruct v. Qed.

Lemma get_prop_readable v k : readable v = true -> exists x, get_prop v k = Ok x.
Proof.
  destruct v; try discriminate; cbn; intros _; eauto.
  destruct (lookup_field k fields); eauto.
Qed.

Lemma summary_run d :
  if listable d then
    exists fields, (forall w, Server.summary (VObj d) w = (Ok (VObj fields), w)) /\
                   map fst fields = summary_keys
  else forall w, Server.summary (VObj d) w = (Throw TypeError, w).
Proof.
  unfold listable, Server.summary. rewrite !get_prop_object.
  unfold bind, lift, ret.
  destruct (readable (or_undefined (lookup_field "attribution" d))) eqn:Ea.
  - destruct (get_prop_readable _ "title" Ea) as [x1 ->].
    destruct (get_prop_readable _ "author" Ea) as [x2 ->].
    destruct (get_prop_readable _ "content_type" Ea) as [x3 ->].
    destruct (readable (or_undefined (lookup_field "training_metadata" d))) eqn:Et;
      cbn [andb].
    + destruct (get_prop_readable _ "character_count" Et) as [x4 ->].
      destruct (get_prop_readable _ "weighting" Et) as [x5 ->].
      eexists. split; reflexivity.
    + destruct (or_undefined (lookup_field "training_metadata" d));
        try discriminate; reflexivity.
  - cbn [andb].
    destruct (or_undefined (lookup_field "attribution" d));
      try discriminate; reflexivity.
Qed.

Lemma map_summary_run docs w :
  if forallb listable docs then
    exists summaries,
      Server.map_M (fun doc => Server.summary (VObj doc)) docs w
      = (Ok summaries, w) /\
      Forall2 (fun d s => exists fields,
                 s = VObj fields /\ map fst fields = summary_keys /\
                 forall w0, Server.summary (VObj d) w0 = (Ok s, w0))
        docs summaries
  else
    Server.map_M (fun doc => Server.summary (VObj doc)) docs w
    = (Throw TypeError, w).
Proof.
  induction docs as [|d docs IH]; cbn [forallb Server.map_M].
  - exists []. split; [reflexivity | constructor].
  - unfold bind, ret. pose proof (summary_run d) as Hd.
    destruct (listable d) eqn:El; cbn [andb].
    + destruct Hd as [fields [Hd Hk]]. rewrite Hd.
      destruct (forallb listable docs).
      * destruct IH as [summaries [-> Hall]]. eexists. split; [reflexivity|].
        constructor; [|exact Hall]. exists fields. auto.
      * now rewrite IH.
    + now rewrite Hd.
Qed.


Lemma find_recent_run n w :
  can_connect w = true ->
  (0 < n < 2 ^ 53)%Z ->
  exists w',
    Server.find_recent (Finite n) w = (Ok (take (Z.to_nat n) (coll w)), w') /\
    coll w' = coll w /\ can_connect w' = true.
Proof.
  intros Hc Hn. unfold Server.find_recent.
  assert ((0 <? n)%Z && (n <? 2 ^ 53)%Z = true) as ->.
  { apply andb_true_iff. split; apply Z.ltb_lt; lia. }
  destruct (findDocuments_run w [] (Z.to_nat n) Hc eq_refl) as [w1 [Hrun [Hcoll [Hc1 _]]]].
  exists w1. split; [|auto]. rewrite Hrun.
  replace (List.filter (matches []) (coll w)) with (coll w)
    by (symmetry; apply filter_all).
  destruct (Z.to_nat n) eqn:E; [lia | reflexivity].
Qed.

Lemma get_documents_run limit n w :
  can_connect w = true ->
  Server.query_limit limit = Finite n ->
  (0 < n < 2 ^ 53)%Z ->
  let '(res, w') := Server.get_documents limit w in
  coll w' = coll w /\
  if forallb listable (take (Z.to_nat n) (coll w)) then
    exists summaries,
      res = {| status := 200; body := inl (map json_value summaries) |} /\
      Forall2 (fun d s => exists fields,
                 s = VObj fields /\ map fst fields = summary_keys /\
                 forall w0, Server.summary (VObj d) w0 = (Ok s, w0))
        (take (Z.to_nat n) (coll w)) summaries
  else res = {| status := 500; body := inr "Failed to fetch documents" |}.
Proof.
  intros Hc Hlimit Hn. unfold Server.get_documents. rewrite Hlimit.
  destruct (find_recent_run n w Hc Hn) as [w1 [Hrun [Hcoll _]]].
  unfold bind at 1. rewrite Hrun.
  pose proof (map_summary_run (take (Z.to_nat n) (coll w)) w1) as Hm.
  destruct (forallb listable (take (Z.to_nat n) (coll w))).
  - destruct Hm as [summaries [-> Hall]]. split; [exact Hcoll|].
    exists summaries. auto.
  - rewrite Hm. auto.
Qed.


(** X17. After a first connection attempt that failed, [GET /api/health]
    answers 200 [healthy] from then on, whether or not the server can be
    reached, while the routes that use the collection answer with an
    error: the statistics and the listing with 500, an insert of a
    complete body with 409 or 500. *)
Theorem get_health_after_failure w :
  just_constructed w ->
  reachable w = false ->
  exists w1,
    Server.get_health foreign_message w
    = ({| status := 503;
          body := Unhealthy (message foreign_message MongoNetworkError) (now w) |},
       w1) /\
    forall back,
      let w2 := with_reachable back w1 in
      Server.get_health foreign_message w2
      = ({| status := 200; body := Healthy (now w) |}, w2) /\
      Server.get_stats w2
      = ({| status := 500; body := inr "Failed to fetch collection statistics" |}, w2) /\
      (forall limit,
         Server.get_documents limit w2
         = ({| status := 500; body := inr "Failed to fetch documents" |}, w2)) /\
      (forall document,
         required_present document = true ->
         exists res, Server.insert_document foreign_message document w2 = (res, w2) /\
                     (status res = 409%N \/ status res = 500%N)).
Proof.
  destruct w as [c d n r l k t hp cs cf]. unfold just_constructed. cbn.
  intros [-> ->] ->. eexists. split; [reflexivity|]. intros back.
  set (w2 := with_reachable back _).
  assert (this_client w2 <> None) as H1 by discriminate.
  assert (this_db w2 = None) as H2 by reflexivity.
  split; [reflexivity|]. split; [|split].
  - unfold Server.get_stats, MongoService.getCollectionStats.
    now rewrite (opening_null _ w2 H1 H2).
  - intros limit. unfold Server.get_documents, Server.find_recent.
    unfold bind at 1.
    destruct (Server.query_limit limit) as [m| |negative];
      [destruct (_ && _)| |]; unfold MongoService.findDocuments;
      now rewrite (opening_null _ w2 H1 H2).
  - intros document Hp.
    destruct (insert_document_run document w2) as [[Hp' _]|[_ [o [-> ->]]]];
      [congruence|].
    unfold MongoService.insertDocument. rewrite (opening_null _ w2 H1 H2).
    cbv zeta.
    destruct (includes _ _); eexists; (split; [reflexivity|]); cbn; auto.
Qed.

End HandlerProperties.
Lemma insert_document_conflict_witness :
  let w := sample_world [sample_object "doc-1" "Walden" "Thoreau" "I went to the woods"] in
  let r := sample_record "doc-1" "Civil Disobedience" "Thoreau" "I heartily accept" in
  can_connect w = true /\ id_taken (js "doc-1") (coll w) /\
  let '(res, w') := Server.insert_document sample_message r w in
  status res = 409%N /\ coll w' = coll w.
Proof.
  intros w r.
  assert (id_taken (js "doc-1") (coll w)) as Htaken by (constructor; reflexivity).
  split; [reflexivity|]. split; [exact Htaken|].
  pose proof (insert_document_conflict sample_message w r (js "doc-1")
                (js "Civil Disobedience") (js "Thoreau") (js "I heartily accept")
                eq_refl (sample_is_record _ _ _ _)) as H.
  destruct (Server.insert_document sample_message r w) as [res w'].
  destruct H as [H [_ [_ [Hf _]]]]; try discriminate; [reflexivity|].
  destruct (H (Hf Htaken)) as [-> Hcoll]. split; [reflexivity | exact Hcoll].
Defined.

(** ** The normalizer: what every result looks like *)

Lemma trim_start_head s c : head (trim_start s) = Some c -> cls_space c = false.
Proof.
  induction s as [|d s IH]; cbn [trim_start]; [discriminate|].
  destruct (cls_space d) eqn:E; [exact IH|]. cbn. now intros [= <-].
Qed.

Lemma trim_start_fixed s :
  (forall c, head s = Some c -> cls_space c = false) -> trim_start s = s.
Proof.
  destruct s as [|d s]; [reflexivity|]. intros H. cbn [trim_start].
  now rewrite (H d eq_refl).
Qed.

Lemma trim_start_suffix s : exists p, s = p ++ trim_start s.
Proof.
  induction s as [|d s [p IH]]; [now exists []|]. cbn [trim_start].
  destruct (cls_space d); [|now exists []].
  exists (d :: p). cbn. now rewrite <- IH.
Qed.

Lemma trim_trimmed s : trimmed (trim s).
Proof.
  unfold trim, trimmed. set (a := trim_start s).
  set (b := trim_start (rev a)). rewrite rev_involutive. split.
  - intros c Hc. destruct (trim_start_suffix (rev a)) as [p Hp]. fold b in Hp.
    apply (f_equal (@rev _)) in Hp. rewrite rev_involutive, rev_app_distr in Hp.
    apply (trim_start_head s). fold a. rewrite Hp.
    destruct (rev b); [discriminate | exact Hc].
  - apply trim_start_head.
Qed.

Lemma trim_fixed s : trimmed s -> trim s = s.
Proof.
  intros [H1 H2]. unfold trim. rewrite (trim_start_fixed s H1).
  rewrite (trim_start_fixed (rev s) H2). apply rev_involutive.
Qed.

Lemma cleanText_ends nfc v : trimmed (cleanText nfc v).
Proof.
  unfold cleanText. destruct (negb (truthy v) || negb (typeof_string v));
    [split; discriminate|].
  destruct v; try (split; discriminate). apply trim_trimmed.
Qed.

(** X18. Whatever it is given, [cleanText] answers a text that neither
    begins nor ends with white space, and that [trim] leaves as it is. *)
Theorem cleanText_trimmed nfc v :
  trimmed (cleanText nfc v) /\ trim (cleanText nfc v) = cleanText nfc v.
Proof.
  split; [apply cleanText_ends|]. apply trim_fixed, cleanText_ends.
Qed.

Section Units.
Variable S : code_unit -> Prop.

Lemma get_capture_in i cs : captures_in S cs -> Forall S (get_capture i cs).
Proof.
  induction cs as [|[j t] cs IH]; intros H; cbn [get_capture]; [constructor|].
  inversion H; subst. destruct (Nat.eqb i j); auto.
Qed.

Lemma set_capture_in i t cs :
  Forall S t -> captures_in S cs -> captures_in S (set_capture i t cs).
Proof.
  intros Ht. unfold captures_in.
  induction cs as [|[j u] cs IH]; intros H; cbn [set_capture].
  - repeat constructor. exact Ht.
  - inversion H; subst. destruct (Nat.eqb i j); constructor; cbn [snd]; auto.
Qed.

Lemma rep_keeps p k :
  keeps S k ->
  forall s min prev cs res,
    Forall S s -> captures_in S cs -> rep p min k prev s cs = Some res ->
    captures_in S (snd res).
Proof.
  intros Hk. induction s as [|c s IH]; intros min prev cs res Hs Hcs; cbn [rep].
  - destruct min; [|discriminate]. now apply Hk.
  - destruct (p c).
    + destruct (rep p (pred min) k (Some c) s cs) as [x|] eqn:E; cbn [orelse].
      * intros [= <-]. inversion Hs; subst. eapply IH; eauto.
      * destruct min; [|discriminate]. now apply Hk.
    + destruct min; [|discriminate]. now apply Hk.
Qed.

Lemma rmatch_keeps r : forall k, keeps S k -> keeps S (rmatch r k).
Proof.
  induction r as [|p|r1 IH1 r2 IH2|r1 IH1 r2 IH2|min p|i r IH|ml|ml];
    intros k Hk pos cs res Hpos Hcs; cbn [rmatch].
  - now apply Hk.
  - destruct pos as [prev [|c s]]; cbn [snd] in *; [discriminate|].
    destruct (p c); [|discriminate]. inversion Hpos; subst. now apply Hk.
  - apply IH1; auto.
  - destruct (rmatch r1 k pos cs) as [x|] eqn:E; cbn [orelse].
    + intros [= <-]. eapply IH1; eauto.
    + now apply IH2.
  - now apply rep_keeps.
  - apply IH; auto. intros pos' cs' res' Hpos' Hcs'. apply Hk; [exact Hpos'|].
    apply set_capture_in; [|exact Hcs']. unfold consumed. now apply Forall_take.
  - destruct (at_line_start ml pos); [now apply Hk | discriminate].
  - destruct (at_line_end ml pos); [now apply Hk | discriminate].
Qed.

Lemma exec_keeps r prev s len cs :
  Forall S s -> exec r prev s = Some (len, cs) -> captures_in S cs.
Proof.
  intros Hs. unfold exec.
  match goal with
  | |- context [rmatch ?a ?b ?c ?d] =>
      destruct (rmatch a b c d) as [[pos' cs']|] eqn:E; [|discriminate]
  end.
  intros H. injection H as _ <-.
  apply rmatch_keeps in E; auto.
  - intros pos cs0 res _ H [= <-]. exact H.
  - constructor.
Qed.

Lemma expand_in t matched cs :
  template_in S t -> Forall S matched -> captures_in S cs ->
  Forall S (expand t matched cs).
Proof.
  intros Ht Hm Hcs. unfold expand. induction Ht as [|it t Hit Ht IH];
    cbn [flat_map]; [constructor|].
  apply Forall_app. split; [|exact IH].
  destruct it; [exact Hit | now apply get_capture_in | exact Hm].
Qed.

(** A global replace brings in nothing but the literal text of its
    template. *)
Lemma replace_from_in r t :
  template_in S t ->
  forall s skip prev, Forall S s -> Forall S (replace_from r t skip prev s).
Proof.
  intros Ht. induction s as [|c s IH]; intros skip prev Hs.
  - destruct skip; cbn [replace_from]; [|constructor].
    destruct (exec r prev []) as [[len cs]|] eqn:E; [|constructor].
    rewrite app_nil_r.
    apply expand_in;
      [exact Ht | apply Forall_take; exact Hs
      | eapply exec_keeps; [exact Hs | exact E]].
  - pose proof Hs as Hs0. inversion Hs; subst.
    destruct skip; cbn [replace_from]; [|now apply IH].
    destruct (exec r prev (c :: s)) as [[len cs]|] eqn:E.
    + apply Forall_app. split.
      * apply expand_in;
          [exact Ht | apply Forall_take; exact Hs0
          | eapply exec_keeps; [exact Hs0 | exact E]].
      * destruct len; [constructor|]; auto.
    + constructor; auto.
Qed.

Lemma replace_all_in r t s :
  template_in S t -> Forall S s -> Forall S (replace_all r t s).
Proof. intros Ht Hs. now apply replace_from_in. Qed.

Lemma trim_start_in s : Forall S s -> Forall S (trim_start s).
Proof.
  induction 1 as [|c s Hc Hs IH]; cbn [trim_start]; [constructor|].
  destruct (cls_space c); [exact IH | now constructor].
Qed.

Lemma trim_in s : Forall S s -> Forall S (trim s).
Proof.
  intros H. unfold trim. apply Forall_rev, trim_start_in, Forall_rev, trim_start_in, H.
Qed.
End Units.

(** The scan of step 5 leaves no white space but spaces and line feeds,
    whatever the text. *)
Lemma blanks_plain_space s :
  forall skip prev,
    Forall (fun c => plain_space c = true)
      (replace_from Patterns.blanks [TLit (js " ")] skip prev s).
Proof.
  induction s as [|c s IH]; intros skip prev.
  - destruct skip; cbn [replace_from]; [|constructor].
    change (exec Patterns.blanks prev []) with (@None (nat * captures)).
    constructor.
  - destruct skip; [|cbn [replace_from]; apply IH].
    destruct (Patterns.blank c) eqn:Ec.
    + rewrite (replace_from_hit _ _ _ _ _ _ _ (exec_blanks_run prev c s Ec)).
      apply Forall_app. split; [repeat constructor | apply IH].
    + rewrite (replace_from_miss _ _ _ _ _ (exec_blanks_miss prev c s Ec)).
      constructor; [|apply IH].
      unfold Patterns.blank, cls_not, cls_or in Ec. unfold plain_space.
      apply negb_false_iff, orb_true_iff in Ec. destruct Ec as [->|Ec]; [reflexivity|].
      rewrite N.eqb_sym in Ec. rewrite Ec. now rewrite orb_true_r.
Qed.

(** X20. In a text that [cleanText] answers, the only white space is
    the space and the line feed: tabs, carriage returns, no-break spaces
    and the other blanks are all gone. *)
Theorem cleanText_plain_spaces nfc v :
  forallb plain_space (cleanText nfc v) = true.
Proof.
  unfold cleanText. destruct (negb (truthy v) || negb (typeof_string v));
    [reflexivity|].
  destruct v; try reflexivity.
  apply forallb_forall, Forall_forall.
  apply trim_in.
  do 7 (apply replace_all_in; [repeat constructor|]).
  apply blanks_plain_space.
Qed.

(** X19. [cleanText] makes up no text: every unit of its answer is a
    unit of the composed input or one of the six units of its
    replacement texts (apostrophe, quotation mark, full stop, hyphen,
    space, line feed). *)
Theorem cleanText_units nfc raw :
  Forall (fun c => In c (nfc raw) \/ In c inserted_units)
    (cleanText nfc (VStr raw)).
Proof.
  unfold cleanText. destruct (negb (truthy (VStr raw)) || negb (typeof_string (VStr raw)));
    [constructor|].
  apply trim_in.
  repeat (apply replace_all_in;
          [repeat constructor; right; unfold inserted_units; cbn; tauto|]).
  apply Forall_forall. intros x Hx. now left.
Qed.

(** ** From the page to the server *)

Lemma validateForm_fields f :
  validateForm f = true ->
  trim (content_title f) <> [] /\ trim (content_author f) <> [] /\
  content_type_field f <> [] /\ trim (content_text_field f) <> [].
Proof.
  unfold validateForm. cbn [truthy].
  destruct (trim (content_title f)); [discriminate|].
  destruct (trim (content_author f)); [discriminate|].
  destruct (content_type_field f); [discriminate|].
  destruct (trim (content_text_field f)); [discriminate|].
  intros _. repeat split; discriminate.
Qed.

Lemma posted_is_record r :
  is_record (posted_body r) (Schema.document_id r)
    (Schema.title (Schema.attribution_of r))
    (Schema.author (Schema.attribution_of r)) (Schema.content_text r).
Proof. eexists _, _. repeat split. Qed.

Lemma stamped_other k t o :
  k <> "created_at"%string -> k <> "updated_at"%string -> k <> "version"%string ->
  lookup_field k (stamped t o) = lookup_field k o.
Proof.
  intros H1 H2 H3. unfold stamped.
  destruct (truthy _); now rewrite !lookup_set_field_ne by assumption.
Qed.

Lemma stamped_no_key t o :
  lookup_field "_id" o = None -> lookup_field "_id" (stamped t o) = None.
Proof. intros H. now rewrite stamped_other by discriminate. Qed.

(** A call of [insertDocument] that answers has left the service
    connected. *)
Lemma insertDocument_connected document w key w' :
  MongoService.insertDocument document w = (Ok key, w') ->
  can_connect w' = true.
Proof.
  unfold MongoService.insertDocument. intros H.
  apply bind_inv in H. destruct H as [[db [w1 [Hconn H]]]|[e [_ [=]]]].
  assert (can_connect w1 = true /\ exists h, db = Some h) as [Hc1 [h ->]].
  { apply bind_inv in H. destruct H as [[[] [w2 [Hd _]]]|[e [_ [=]]]].
    destruct db as [h|]; [|discriminate]. split; [|eauto].
    revert Hconn. unfold MongoService.connect, MongoService.connect_begin,
      MongoService.connect_resume, can_connect.
    destruct w as [c d n r l k t hp cl cf]; cbn.
    destruct c as [c|]; cbn.
    - intros [= -> <-]. reflexivity.
    - destruct r; cbn; [|discriminate]. intros [= <- <-]. reflexivity. }
  unfold bind at 1 in H. cbn [MongoService.db_collection ret] in H.
  assert (forall f wa r wb, findOne f wa = (r, wb) -> can_connect wb = can_connect wa)
    as Hfind.
  { intros f wa r wb. unfold findOne. destruct (check_filter f); now intros [= <- <-]. }
  apply bind_inv in H. destruct H as [[id [w2 [Hid H]]]|[e [_ [=]]]].
  apply lift_inv in Hid. destruct Hid as [_ ->].
  apply bind_inv in H. destruct H as [[existing [w3 [Hf H]]]|[e [_ [=]]]].
  apply Hfind in Hf.
  destruct existing as [d|]; cbn [bool_of truthy] in H; [discriminate H|].
  repeat (apply bind_inv in H;
          destruct H as [[? [? [Hl H]]]|[? [_ [=]]]];
          apply lift_inv in Hl; destruct Hl as [_ ->]).
  apply bind_inv in H. destruct H as [[dup [w4 [Hf2 H]]]|[e [_ [=]]]].
  apply Hfind in Hf2.
  destruct dup as [d|]; cbn [bool_of truthy] in H; [discriminate H|].
  destruct document as [| | | | | | | |o]; try discriminate H.
  apply insertOne_inv in H. destruct H as [H _]. congruence.
Qed.

Section Submission.
Variable foreign_message : error -> string.

(** The insert handler on a record with a title, an author and a text:
    the two look-ups of the gateway decide. *)
Lemma insert_document_record w document id title author text :
  can_connect w = true ->
  is_record document id title author text ->
  title <> [] -> author <> [] -> text <> [] ->
  exists o w1 w2 w3,
    document = VObj o /\
    coll w1 = coll w /\ coll w2 = coll w /\ coll w3 = coll w /\
    can_connect w1 = true /\ can_connect w3 = true /\
    next_oid w3 = next_oid w /\
    Server.insert_document foreign_message document w =
    let refuse e w' :=
      if includes (message foreign_message e) "already exists" then
        ({| status := 409; body := Refused (message foreign_message e) |}, w')
      else
        ({| status := 500;
            body := Refused (String.append "Failed to insert document: "
                               (message foreign_message e)) |}, w') in
    match find_first (id_query (VStr id)) (coll w) with
    | Some _ =>
        ({| status := 409;
            body := Refused "Document with this ID already exists in corpus" |}, w1)
    | None =>
        if sendable (take 100 text) then
          match find_first
                  (content_signature (VStr title) (VStr author) (take 100 text))
                  (coll w) with
          | Some _ =>
              ({| status := 409;
                  body := Refused "Similar content already exists in corpus" |}, w2)
          | None =>
              match insertOne (VObj (stamped (now w) o)) w3 with
              | (Ok key, w') => ({| status := 200; body := Inserted key |}, w')
              | (Throw e, w') => refuse e w'
              end
          end
        else refuse OutsideModel w2
    end.
Proof.
  intros Hc Hrec Ht Ha Hx.
  pose proof (is_record_required _ _ _ _ _ Hrec Ht Ha Hx) as Hp.
  pose proof (is_record_loggable _ _ _ _ _ Hrec) as Hlog.
  destruct (insert_document_run foreign_message document w)
    as [[Hp' _]|[_ [o [-> ->]]]]; [congruence|].
  rewrite Hlog. cbv zeta.
  apply (is_record_stamped (now w)) in Hrec.
  destruct (insertDocument_record w _ id title author text Hc Hrec)
    as [w1 [w2 [w3 [H1 [H2 [H3 [Hc1 [_ [Hc3 [Hoid ->]]]]]]]]]].
  exists o, w1, w2, w3. repeat split; try assumption.
  destruct (find_first (id_query (VStr id)) (coll w)); [reflexivity|].
  destruct (sendable (take 100 text)); [|reflexivity].
  destruct (find_first (content_signature _ _ _) (coll w)); [reflexivity|].
  now destruct (insertOne _ w3) as [[key|e] w'].
Qed.

Lemma posted_no_key r o : posted_body r = VObj o -> lookup_field "_id" o = None.
Proof. intros [= <-]. reflexivity. Qed.

(** A record with a title, an author and a text, given to the handler of
    a service that can connect. *)
Lemma submit_record r w :
  can_connect w = true ->
  key_unused w ->
  Schema.title (Schema.attribution_of r) <> [] ->
  Schema.author (Schema.attribution_of r) <> [] ->
  Schema.content_text r <> [] ->
  let found :=
    id_found (Schema.document_id r) (coll w) \/
    content_found (Schema.title (Schema.attribution_of r))
      (Schema.author (Schema.attribution_of r)) (Schema.content_text r) (coll w) in
  let '(res, w') := Server.insert_document foreign_message (posted_body r) w in
  ((status res = 409%N \/ status res = 500%N) /\ coll w' = coll w /\
   (prefix_sendable (Schema.content_text r) -> found /\ status res = 409%N)) \/
  (prefix_sendable (Schema.content_text r) /\ ~ found /\
   res = {| status := 200; body := Inserted (VOid (next_oid w)) |} /\
   can_connect w' = true /\
   exists o, posted_body r = VObj o /\
     coll w' = coll w ++ [set_field "_id" (VOid (next_oid w)) (stamped (now w) o)]).
Proof.
  intros Hc Hkey Ht Ha Hx found.
  destruct (insert_document_record w _ _ _ _ _ Hc (posted_is_record r) Ht Ha Hx)
    as [o [w1 [w2 [w3 [Ho [H1 [H2 [H3 [Hc1 [Hc3 [Hoid ->]]]]]]]]]]].
  cbv zeta.
  pose proof (id_found_find (Schema.document_id r) (coll w)) as Hi.
  pose proof (content_found_find (Schema.title (Schema.attribution_of r))
                (Schema.author (Schema.attribution_of r))
                (Schema.content_text r) (coll w)) as Hs.
  unfold prefix_sendable in *.
  destruct (find_first (id_query _) (coll w)) as [d|].
  { left. cbn [status]. split; [auto|]. split; [exact H1|]. intros _.
    split; [left; apply Hi; eauto | reflexivity]. }
  destruct (sendable (take 100 (Schema.content_text r))).
  2:{ destruct (includes _ _); left; cbn [status];
        (split; [auto|]); (split; [exact H2|]); discriminate. }
  specialize (Hs eq_refl).
  destruct (find_first (content_signature _ _ _) (coll w)) as [d|].
  { left. cbn [status]. split; [auto|]. split; [exact H2|]. intros _.
    split; [right; apply Hs; eauto | reflexivity]. }
  destruct (insertOne_fresh (stamped (now w) o) w3) as [w' [Hins [Hcoll Hc']]].
  - apply stamped_no_key. now apply (posted_no_key r).
  - unfold key_unused. now rewrite Hoid, H3.
  - rewrite Hins, Hoid. right. split; [reflexivity|]. split.
    { intros [H|H]; [apply Hi in H | apply Hs in H]; destruct H; discriminate. }
    split; [reflexivity|]. split; [congruence|].
    exists o. split; [exact Ho|]. now rewrite Hcoll, Hoid, H3.
Qed.

(** X21. A form that [validateForm] accepts, built into a record by the
    script of [public/script.js] and posted.  A request body over the
    limit of the JSON parser is answered 500 by the error handler and
    nothing happens.  Otherwise, for a text whose first 100 units can be
    sent as a pattern, the server never answers 400 or 500: it answers
    409 and stores nothing when the look-up by id or the one by content
    signature finds a stored document, and otherwise 200 with the
    generated key, the record being stored last with the trimmed text of
    the form and the length of that text as [character_count]. *)
Theorem submit_public_record f h w content_length :
  validateForm f = true ->
  can_connect w = true ->
  key_unused w ->
  prefix_sendable (trim (content_text_field f)) ->
  let r := PublicScript.createDocumentStructure f h in
  let text := trim (content_text_field f) in
  let found :=
    id_found (Schema.document_id r) (coll w) \/
    content_found (trim (content_title f)) (trim (content_author f)) text (coll w) in
  let '(res, w') :=
    Server.post_insert_document foreign_message content_length (posted_body r) w in
  if (json_limit <? content_length)%N then
    res = {| status := 500; body := Refused "Internal server error" |} /\ w' = w
  else
    (found /\ status res = 409%N /\ coll w' = coll w) \/
    (~ found /\ res = {| status := 200; body := Inserted (VOid (next_oid w)) |} /\
     exists stored,
       coll w' = coll w ++ [stored] /\
       has_string "content_text" text stored /\
       field "training_metadata.character_count" stored
       = Some (VNum (Z.of_nat (length text))) /\
       field "version" stored = Some (VNum 1) /\
       field "created_at" stored = Some (date_at (now w))).
Proof.
  intros Hv Hc Hkey Hsend r text found. unfold Server.post_insert_document.
  destruct (json_limit <? content_length)%N; [auto|].
  destruct (validateForm_fields f Hv) as [Ht [Ha [_ Hx]]].
  pose proof (submit_record r w Hc Hkey Ht Ha Hx) as H. cbv zeta in H.
  destruct (Server.insert_document foreign_message (posted_body r) w) as [res w'].
  destruct H as [[_ [Hcoll H]]|[_ [Hn [Hres [_ [o [Ho Hcoll]]]]]]].
  - left. destruct (H Hsend) as [Hf Hs]. auto.
  - right. split; [exact Hn|]. split; [exact Hres|].
    eexists. split; [exact Hcoll|]. injection Ho as <-.
    repeat split.
Qed.

(** X29. The insert handler accepts what the listing cannot read.  When
    a body without [training_metadata] has been answered 200, then, as
    long as the stored document is among the first [n] documents,
    [GET /api/documents] answers 500. *)
Theorem listing_fails_after_insert w o limit n :
  lookup_field "training_metadata" o = None ->
  Server.query_limit limit = Finite n ->
  (0 < n < 2 ^ 53)%Z ->
  length (coll w) < Z.to_nat n ->
  let '(res, w1) := Server.insert_document foreign_message (VObj o) w in
  status res = 200%N ->
  fst (Server.get_documents limit w1)
  = {| status := 500; body := inr "Failed to fetch documents" |}.
Proof.
  intros Hnometa Hlimit Hn Hlen.
  destruct (insert_document_run foreign_message (VObj o) w)
    as [[_ [[m ->]|[_ [m ->]]]]|[_ [o0 [[= <-] ->]]]];
    [discriminate | destruct (includes _ _); discriminate |].
  cbv zeta.
  destruct (MongoService.insertDocument _ w) as [[key|e] w1] eqn:E.
  2:{ destruct (includes _ _); discriminate. }
  destruct (loggable (VObj o)); [|destruct (includes _ _); discriminate].
  intros _.
  pose proof (insertDocument_connected _ _ _ _ E) as Hcw.
  apply insertDocument_frame in E.
  destruct E as [o1 [o' [[= <-] [Hcoll [Hsame _]]]]].
  pose proof (get_documents_run limit n w1 Hcw Hlimit Hn) as H.
  destruct (Server.get_documents limit w1) as [res w4]. cbn [fst].
  destruct H as [_ H].
  rewrite Hcoll, take_ge in H by (rewrite length_app; cbn [length]; lia).
  rewrite forallb_app in H. cbn [forallb] in H.
  assert (listable o' = false) as Hl.
  { unfold listable. rewrite (Hsame "training_metadata"%string) by discriminate.
    rewrite stamped_other, Hnometa by discriminate. cbn. apply andb_false_r. }
  rewrite Hl in H. cbn [andb] in H. rewrite andb_false_r in H. exact H.
Qed.

Section Cleaning.
Variable nfc : jsstring -> jsstring.

(** X22. The same with the script that cleans the text: what is stored
    is the cleaned text and its length; and when cleaning leaves nothing
    of the text, the server answers 400 although the form was accepted,
    and nothing reaches the store. *)
Theorem submit_cleaned_record f h w content_length :
  validateForm f = true ->
  can_connect w = true ->
  key_unused w ->
  prefix_sendable (cleanText nfc (VStr (trim (content_text_field f)))) ->
  let r := CleaningScript.createDocumentStructure nfc f h in
  let text := cleanText nfc (VStr (trim (content_text_field f))) in
  let found :=
    id_found (Schema.document_id r) (coll w) \/
    content_found (trim (content_title f)) (trim (content_author f)) text (coll w) in
  let '(res, w') :=
    Server.post_insert_document foreign_message content_length (posted_body r) w in
  if (json_limit <? content_length)%N then
    res = {| status := 500; body := Refused "Internal server error" |} /\ w' = w
  else
    (text = [] /\ status res = 400%N /\ w' = w) \/
    (text <> [] /\ found /\ status res = 409%N /\ coll w' = coll w) \/
    (text <> [] /\ ~ found /\
     res = {| status := 200; body := Inserted (VOid (next_oid w)) |} /\
     exists stored,
       coll w' = coll w ++ [stored] /\
       has_string "content_text" text stored /\
       field "training_metadata.character_count" stored
       = Some (VNum (Z.of_nat (length text)))).
Proof.
  intros Hv Hc Hkey Hsend r text found. unfold Server.post_insert_document.
  destruct (json_limit <? content_length)%N; [auto|].
  destruct (validateForm_fields f Hv) as [Ht [Ha [_ _]]].
  fold text in Hsend.
  destruct text as [|c text'] eqn:Etext.
  - destruct (insert_document_run foreign_message (posted_body r) w)
      as [[Hp [[m ->]|[[Hd|Hd] _]]]|[Hp _]]; try discriminate.
    + left. cbn [status]. auto.
    + exfalso. revert Hp. unfold required_present, r, posted_body.
      cbn [get_prop lookup_field String.eqb Ascii.eqb Bool.eqb Schema.content_text
           CleaningScript.createDocumentStructure assemble].
      fold text. rewrite Etext. discriminate.
  - assert (Schema.content_text r <> []) as Hx.
    { unfold r. cbn. fold text. now rewrite Etext. }
    pose proof (submit_record r w Hc Hkey Ht Ha Hx) as H. cbv zeta in H.
    destruct (Server.insert_document foreign_message (posted_body r) w) as [res w'].
    assert (Schema.content_text r = c :: text') as Er.
    { unfold r. cbn. fold text. exact Etext. }
    rewrite Er in H. right.
    destruct H as [[_ [Hcoll H]]|[_ [Hn [Hres [_ [o [Ho Hcoll]]]]]]].
    + left. destruct (H Hsend) as [Hf Hs]. split; [discriminate|]. auto.
    + right. split; [discriminate|]. split; [exact Hn|]. split; [exact Hres|].
      eexists. split; [exact Hcoll|]. injection Ho as <-.
      split.
      * unfold has_string. cbn. fold text. now rewrite Etext.
      * cbn. fold text. now rewrite Etext.
Qed.
End Cleaning.
End Submission.

(** ** A text that is only a number *)

Lemma last_unit_cons prev c s : last_unit prev (c :: s) = last_unit (Some c) s.
Proof.
  unfold last_unit. cbn [rev].
  destruct (rev s) as [|x l] eqn:E; reflexivity.
Qed.

(** A greedy repetition over a stretch of units of its class that ends
    the subject takes the whole stretch when the rest of the pattern
    accepts the end. *)
Lemma rep_all p k s :
  forall min prev cs x,
    forallb p s = true -> min <= length s ->
    k (last_unit prev s, []) cs = Some x ->
    rep p min k prev s cs = Some x.
Proof.
  induction s as [|c s IH]; intros min prev cs x Hs Hmin Hk.
  - cbn in Hmin. assert (min = 0) as -> by lia. exact Hk.
  - cbn [forallb] in Hs. apply andb_true_iff in Hs. destruct Hs as [Hc Hs].
    rewrite (rep_take p min k prev c s cs Hc).
    rewrite (IH (pred min) (Some c) cs x Hs); [reflexivity | cbn in Hmin; lia |].
    rewrite <- (last_unit_cons prev c s). exact Hk.
Qed.

Lemma digit_not_space c : cls_digit c = true -> cls_space c = false.
Proof.
  intros H. assert (one_of digits c = true) as Hin.
  { unfold cls_digit, in_range in H. apply andb_true_iff in H.
    destruct H as [H1 H2]. apply N.leb_le in H1, H2.
    apply one_of_In. unfold digits. apply in_map_iff.
    exists (N.to_nat c). split; [apply N2Nat.id|]. apply in_seq. lia. }
  apply one_of_In in Hin. unfold digits in Hin. cbn in Hin.
  repeat (destruct Hin as [<-|Hin]; [reflexivity|]). contradiction.
Qed.

Lemma digit_not_terminator c : cls_digit c = true -> line_terminator c = false.
Proof.
  intros H. pose proof (digit_not_space c H) as Hs.
  unfold cls_space, cls_or in Hs. apply orb_false_iff in Hs. destruct Hs as [Hs _].
  unfold line_terminator. unfold one_of in *. cbn [existsb] in *.
  repeat (apply orb_false_iff in Hs; destruct Hs as [? Hs]).
  repeat (apply orb_false_iff; split); auto.
Qed.

Lemma exec_page_number_digits d ds :
  forallb cls_digit (d :: ds) = true ->
  exec Patterns.page_number None (d :: ds) = Some (S (length ds), []).
Proof.
  intros H. pose proof H as H0. cbn [forallb] in H0.
  apply andb_true_iff in H0. destruct H0 as [Hd _].
  unfold exec, Patterns.page_number.
  rewrite rmatch_rseq_cons. cbn [rmatch at_line_start fst].
  rewrite rmatch_rseq_cons. cbn [rmatch fst snd].
  rewrite (rep_stop cls_space _ None d ds [] (digit_not_space d Hd)).
  rewrite rmatch_rseq_cons. cbn [rmatch fst snd].
  erewrite rep_all; [|exact H | cbn; lia | reflexivity].
  reflexivity.
Qed.

Lemma page_number_skip ds :
  forall p, cls_digit p = true -> forallb cls_digit ds = true ->
  replace_from Patterns.page_number [] (length ds) (Some p) ds = [].
Proof.
  induction ds as [|c ds IH]; intros p Hp Hds.
  - cbn [length replace_from]. unfold exec, Patterns.page_number.
    rewrite rmatch_rseq_cons. cbn [rmatch at_line_start fst andb].
    now rewrite (digit_not_terminator p Hp).
  - cbn [forallb] in Hds. apply andb_true_iff in Hds. destruct Hds as [Hc Hds].
    cbn [length replace_from]. now apply IH.
Qed.

Lemma digits_over ds :
  forallb cls_digit ds = true -> forallb (one_of digits) ds = true.
Proof.
  intros H. apply forallb_forall. intros c Hc.
  rewrite forallb_forall in H. specialize (H c Hc).
  unfold cls_digit, in_range in H. apply andb_true_iff in H.
  destruct H as [H1 H2]. apply N.leb_le in H1, H2.
  apply one_of_In. unfold digits. apply in_map_iff.
  exists (N.to_nat c). split; [apply N2Nat.id|]. apply in_seq. lia.
Qed.

Lemma digits_ascii ds :
  forallb cls_digit ds = true -> forallb (fun c => c <? 128)%N ds = true.
Proof.
  intros H. apply forallb_forall. intros c Hc.
  rewrite forallb_forall in H. specialize (H c Hc).
  unfold cls_digit, in_range in H. apply andb_true_iff in H.
  destruct H as [H1 H2]. apply N.leb_le in H2. apply N.ltb_lt. lia.
Qed.

(** X23. A text that is nothing but a number is a page number to
    [cleanText]: nothing is left of it. *)
Theorem cleanText_number_only nfc ds :
  nfc_fixes_ascii nfc ->
  ds <> [] ->
  forallb cls_digit ds = true ->
  cleanText nfc (VStr ds) = [].
Proof.
  intros Hnfc Hne Hds. destruct ds as [|d ds]; [contradiction|].
  unfold cleanText. cbn [truthy typeof_string negb orb].
  rewrite (Hnfc _ (digits_ascii _ Hds)).
  pose proof (digits_over _ Hds) as Hover.
  cbv zeta.
  rewrite (replace_all_dead digits Patterns.apostrophes) by (vm_compute; reflexivity || exact Hover).
  rewrite (replace_all_dead digits Patterns.quotes) by (vm_compute; reflexivity || exact Hover).
  rewrite (replace_all_dead digits Patterns.ellipsis) by (vm_compute; reflexivity || exact Hover).
  rewrite (replace_all_dead digits Patterns.em_dash) by (vm_compute; reflexivity || exact Hover).
  rewrite (replace_all_dead digits Patterns.en_dash) by (vm_compute; reflexivity || exact Hover).
  assert (replace_all Patterns.page_number [] (d :: ds) = []) as ->.
  { unfold replace_all.
    rewrite (replace_from_hit _ _ _ _ _ _ _ (exec_page_number_digits d ds Hds)).
    cbn [expand flat_map app]. cbn [forallb] in Hds.
    apply andb_true_iff in Hds. destruct Hds as [Hd Hds].
    now apply page_number_skip. }
  reflexivity.
Qed.

(** ** Tidy text is a fixed point of the normalizer *)

(** *** What the matcher finds, some reading of the pattern spans *)

Lemma last_unit_nil prev : last_unit prev [] = prev.
Proof. reflexivity. Qed.

Lemma last_unit_snoc prev a c : last_unit prev (a ++ [c]) = Some c.
Proof. unfold last_unit. now rewrite rev_app_distr. Qed.

Lemma last_unit_some prev c s : exists d, last_unit prev (c :: s) = Some d.
Proof.
  destruct (exists_last (l := c :: s)) as [a [d ->]]; [discriminate|].
  exists d. apply last_unit_snoc.
Qed.

Lemma rep_spans p k :
  forall s min prev cs res,
    rep p min k prev s cs = Some res ->
    exists run s',
      s = run ++ s' /\ forallb p run = true /\ min <= length run /\
      k (last_unit prev run, s') cs = Some res.
Proof.
  induction s as [|c s IH]; intros min prev cs res H; cbn [rep] in H.
  - destruct min; [|discriminate]. exists [], []. repeat split; auto.
  - assert (match min with O => k (prev, c :: s) cs | S _ => None end = Some res ->
            exists run s',
              c :: s = run ++ s' /\ forallb p run = true /\ min <= length run /\
              k (last_unit prev run, s') cs = Some res) as Hstop.
    { destruct min; [|discriminate]. intros Hk. exists [], (c :: s).
      repeat split; auto. }
    destruct (p c) eqn:Hc; [|exact (Hstop H)].
    unfold orelse in H.
    destruct (rep p (pred min) k (Some c) s cs) as [x|] eqn:E; [|exact (Hstop H)].
    injection H as <-. apply IH in E.
    destruct E as [run [s' [-> [Hr [Hm Hk]]]]].
    exists (c :: run), s'. cbn [app forallb length]. rewrite Hc, Hr.
    repeat split; [lia|]. now rewrite last_unit_cons.
Qed.

Lemma rmatch_spans r :
  forall k pos cs res,
    rmatch r k pos cs = Some res ->
    exists pos' cs', spans r pos pos' /\ k pos' cs' = Some res.
Proof.
  induction r as [|p|r1 IH1 r2 IH2|r1 IH1 r2 IH2|min p|i r IH|ml|ml];
    intros k pos cs res H; cbn [rmatch] in H; cbn [spans].
  - exists pos, cs. auto.
  - destruct pos as [prev [|c s]]; cbn [snd] in H; [discriminate|].
    destruct (p c) eqn:Hc; [|discriminate].
    exists (Some c, s), cs. split; [|exact H]. exists c. auto.
  - apply IH1 in H. destruct H as [mid [cs1 [H1 H]]].
    apply IH2 in H. destruct H as [pos' [cs' [H2 H]]].
    exists pos', cs'. split; [|exact H]. exists mid. auto.
  - unfold orelse in H. destruct (rmatch r1 k pos cs) as [x|] eqn:E.
    + injection H as <-. apply IH1 in E. destruct E as [pos' [cs' [H1 H]]].
      exists pos', cs'. auto.
    + apply IH2 in H. destruct H as [pos' [cs' [H2 H]]].
      exists pos', cs'. auto.
  - apply rep_spans in H. destruct H as [run [s' [Hs [Hr [Hm Hk]]]]].
    exists (last_unit (fst pos) run, s'), cs. split; [|exact Hk].
    exists run. auto.
  - apply IH in H. destruct H as [pos' [cs' [H1 H]]]. eauto.
  - destruct (at_line_start ml pos) eqn:E; [|discriminate].
    exists pos, cs. auto.
  - destruct (at_line_end ml pos) eqn:E; [|discriminate].
    exists pos, cs. auto.
Qed.

Lemma exec_none r prev s :
  (forall pos', ~ spans r (prev, s) pos') -> exec r prev s = None.
Proof.
  intros Hno. unfold exec.
  destruct (rmatch r _ (prev, s) []) as [[pos' cs]|] eqn:E; [|reflexivity].
  apply rmatch_spans in E. destruct E as [p' [c' [Hs _]]].
  destruct (Hno _ Hs).
Qed.

Lemma spans_rlit l :
  forall pos pos', spans (rlit l) pos pos' -> snd pos = l ++ snd pos'.
Proof.
  induction l as [|c l IH]; intros pos pos' H.
  - cbn in H. now subst.
  - destruct l as [|d l].
    + cbn in H. destruct H as [x [Hs [Hx _]]]. apply N.eqb_eq in Hx. now subst.
    + cbn [rlit spans] in H. destruct H as [mid [[x [Hs [Hx _]]] H]].
      apply N.eqb_eq in Hx. subst x. apply IH in H. rewrite Hs, H. reflexivity.
Qed.

(** *** Stretches of units of a class *)

Lemma holds_last_unit (q : charclass) prev run :
  forallb q run = true -> run <> [] -> holds q (last_unit prev run) = true.
Proof.
  intros Hq Hne. destruct (exists_last Hne) as [a [d ->]].
  rewrite last_unit_snoc. rewrite forallb_app in Hq.
  apply andb_true_iff in Hq. destruct Hq as [_ Hq]. cbn in Hq.
  now rewrite andb_true_r in Hq.
Qed.

Lemma holds_last_unit_or (q : charclass) prev run :
  forallb q run = true -> holds q prev = true ->
  holds q (last_unit prev run) = true.
Proof.
  intros Hq Hp. destruct run as [|c run]; [exact Hp|].
  now apply holds_last_unit.
Qed.

Lemma forallb_weaken (p q : charclass) (l : jsstring) :
  (forall c, p c = true -> q c = true) -> forallb p l = true -> forallb q l = true.
Proof.
  intros Hpq H. rewrite forallb_forall in *. auto.
Qed.

Lemma run_nonempty {A} (l : list A) : 1 <= length l -> l <> [].
Proof. destruct l; cbn; [lia | discriminate]. Qed.

Lemma span_run (p : charclass) run rest :
  forallb p run = true -> holds p (head rest) = false ->
  span p (run ++ rest) = length run.
Proof.
  intros Hr Hn. induction run as [|c run IH]; cbn [app span length].
  - destruct rest as [|d rest]; [reflexivity|]. cbn in Hn. cbn [span].
    now rewrite Hn.
  - cbn [forallb] in Hr. apply andb_true_iff in Hr. destruct Hr as [Hc Hr].
    rewrite Hc. f_equal. auto.
Qed.

Lemma starts_with_app p t : starts_with p (p ++ t) = true.
Proof. induction p as [|c p IH]; [reflexivity|]. cbn. now rewrite N.eqb_refl. Qed.

Lemma starts_with_inv p : forall s, starts_with p s = true -> exists t, s = p ++ t.
Proof.
  induction p as [|c p IH]; intros s H; [exists s; reflexivity|].
  destruct s as [|d s]; [discriminate|]. cbn in H.
  apply andb_true_iff in H. destruct H as [Hc H]. apply N.eqb_eq in Hc. subst d.
  destruct (IH s H) as [t ->]. exists t. reflexivity.
Qed.

(** *** Classes of units *)

Ltac by_cases H :=
  apply one_of_In in H; cbn in H;
  repeat (destruct H as [<-|H]; [vm_compute; reflexivity|]); contradiction.

Lemma punct_not_space c : Patterns.punct c = true -> cls_space c = false.
Proof. intros H. unfold Patterns.punct in H. by_cases H. Qed.

Lemma terminator_space c : line_terminator c = true -> cls_space c = true.
Proof. intros H. unfold line_terminator in H. by_cases H. Qed.

Lemma edge_space c : Patterns.space_or_tab c = true -> cls_space c = true.
Proof. intros H. unfold Patterns.space_or_tab in H. by_cases H. Qed.

Lemma blank_space c : Patterns.blank c = cls_space c && negb (N.eqb c LF).
Proof.
  unfold Patterns.blank, cls_not, cls_or.
  rewrite negb_orb, negb_involutive. f_equal. now rewrite N.eqb_sym.
Qed.

(** *** Reading tidy text *)

Lemma negb_and_false (a b : bool) : negb (a && b) = true -> a = true -> b = false.
Proof. destruct a, b; cbn; congruence. Qed.

Lemma tidy_at_inv prev c rest :
  tidy_at prev c rest = true ->
  (cls_space c = true ->
   (c = SPACE /\ holds (cls_not cls_space) prev = true /\
    holds (cls_not cls_space) (head rest) = true) \/
   (c = LF /\ holds (fun _ => true) prev = true /\
    holds (fun _ => true) (head rest) = true /\
    holds (N.eqb LF) prev && holds (N.eqb LF) (head rest) = false)) /\
  (Patterns.punct c = true ->
   holds (cls_or cls_space Patterns.punct) prev = false) /\
  (c = 226%N -> holds (N.eqb 8364) (head rest) = false) /\
  (match prev with None => true | Some p => N.eqb p LF end = true ->
   number_line (c :: rest) = false) /\
  (c = 45%N -> holds cls_word prev = true -> holds (N.eqb LF) (head rest) = false) /\
  (c = 91%N -> citation_ahead rest = false) /\
  (starts_with (js "http://") (c :: rest) = false /\
   starts_with (js "https://") (c :: rest) = false) /\
  (c = 64%N -> holds (cls_or cls_word (one_of [46; 45]%N)) prev = false).
Proof.
  unfold tidy_at. cbv zeta. intros H.
  apply andb_true_iff in H. destruct H as [H H8].
  apply andb_true_iff in H. destruct H as [H H7].
  apply andb_true_iff in H. destruct H as [H H6].
  apply andb_true_iff in H. destruct H as [H H5].
  apply andb_true_iff in H. destruct H as [H H4].
  apply andb_true_iff in H. destruct H as [H H3].
  apply andb_true_iff in H. destruct H as [H1 H2].
  repeat split.
  - intros Hc. rewrite Hc in H1. cbn [negb orb] in H1.
    apply orb_true_iff in H1. destruct H1 as [H1|H1].
    + left. apply andb_true_iff in H1. destruct H1 as [H1 Hn].
      apply andb_true_iff in H1. destruct H1 as [H1 Hp].
      apply N.eqb_eq in H1. auto.
    + right. apply andb_true_iff in H1. destruct H1 as [H1 Hb].
      apply andb_true_iff in H1. destruct H1 as [H1 Hn].
      apply andb_true_iff in H1. destruct H1 as [H1 Hp].
      apply N.eqb_eq in H1. apply negb_true_iff in Hb. auto.
  - intros Hc. now apply (negb_and_false _ _ H2).
  - intros ->. now apply (negb_and_false _ _ H3).
  - intros Hc. now apply (negb_and_false _ _ H4).
  - intros -> Hw. apply (negb_and_false _ _ H5). now rewrite Hw.
  - intros ->. now apply (negb_and_false _ _ H6).
  - apply negb_true_iff, orb_false_iff in H7. tauto.
  - apply negb_true_iff, orb_false_iff in H7. tauto.
  - intros ->. now apply (negb_and_false _ _ H8).
Qed.

Lemma tidy_from_cons prev c s :
  tidy_from prev (c :: s) = true ->
  tidy_at prev c s = true /\ tidy_from (Some c) s = true.
Proof. cbn [tidy_from]. apply andb_true_iff. Qed.

Lemma tidy_from_app a :
  forall b prev, tidy_from prev (a ++ b) = true ->
                 tidy_from (last_unit prev a) b = true.
Proof.
  induction a as [|c a IH]; intros b p H; [exact H|].
  cbn [app] in H. apply tidy_from_cons in H. destruct H as [_ H].
  rewrite last_unit_cons. now apply IH.
Qed.

Lemma tidy_from_at prev a c b :
  tidy_from prev (a ++ c :: b) = true -> tidy_at (last_unit prev a) c b = true.
Proof.
  intros H. apply tidy_from_app in H. now apply tidy_from_cons in H.
Qed.

(** White space in tidy text: a space between units that are not white
    space, or a line feed. *)
Lemma tidy_space prev a c b :
  tidy_from prev (a ++ c :: b) = true -> cls_space c = true ->
  (c = SPACE /\ holds (cls_not cls_space) (last_unit prev a) = true /\
   holds (cls_not cls_space) (head b) = true) \/
  (c = LF /\ holds (N.eqb LF) (last_unit prev a) && holds (N.eqb LF) (head b) = false).
Proof.
  intros H Hc. apply tidy_from_at, tidy_at_inv in H.
  destruct H as [H _]. destruct (H Hc) as [H1|[H1 [_ [_ H2]]]]; auto.
Qed.

Lemma tidy_here_step prev c s : tidy_here prev (c :: s) -> tidy_here (Some c) s.
Proof.
  intros [H _]. apply tidy_from_cons in H. destruct H as [Hat H].
  split; [exact H|]. cbn [holds]. intros Hc.
  apply tidy_at_inv in Hat. destruct Hat as [Hat _].
  destruct (Hat (terminator_space c Hc)) as [[-> _]|[-> _]];
    [discriminate Hc | reflexivity].
Qed.

Lemma tidy_here_start s : tidy s = true -> tidy_here None s.
Proof. intros H. split; [exact H | discriminate]. Qed.

(** A pattern that nothing spans in tidy text leaves tidy text as it
    is. *)
Lemma replace_all_tidy r t s :
  (forall prev s pos', tidy_here prev s -> ~ spans r (prev, s) pos') ->
  tidy s = true -> replace_all r t s = s.
Proof.
  intros Hno H. unfold replace_all.
  apply (replace_from_inv r t tidy_here).
  - apply tidy_here_step.
  - intros prev s0 Hs. apply exec_none. intros pos'. now apply Hno.
  - now apply tidy_here_start.
Qed.

(** *** The patterns find nothing in tidy text *)

(** The three mis-decoded sequences begin with U+00E2 U+20AC. *)
Lemma no_mojibake x prev s pos' :
  tidy_here prev s -> ~ spans (rlit [226; 8364; x]%N) (prev, s) pos'.
Proof.
  intros [Ht _] H. apply spans_rlit in H. cbn [fst snd app] in H. subst s.
  apply tidy_from_cons in Ht. destruct Ht as [Ht _].
  apply tidy_at_inv in Ht. destruct Ht as [_ [_ [Ht _]]].
  specialize (Ht eq_refl). discriminate Ht.
Qed.

Lemma no_url prev s pos' :
  tidy_here prev s -> ~ spans Patterns.url (prev, s) pos'.
Proof.
  intros [Ht _] H. unfold Patterns.url in H. cbn [rseq] in H.
  destruct H as [m1 [H1 [m2 [H2 [m3 [H3 _]]]]]].
  apply spans_rlit in H1, H3. cbn [snd] in H1.
  assert (starts_with (js "http://") s = true \/
          starts_with (js "https://") s = true) as Hs.
  { destruct H2 as [[c [Hc [Hs _]]]|H2].
    - right. unfold chr in Hs. apply N.eqb_eq in Hs. subst c.
      rewrite H1, Hc, H3. reflexivity || (cbn; rewrite !N.eqb_refl; reflexivity).
    - left. cbn in H2. subst m2. rewrite H1, H3.
      apply (starts_with_app (js "http://")). }
  destruct s as [|c s]; [destruct Hs; discriminate|].
  apply tidy_from_cons in Ht. destruct Ht as [Ht _].
  apply tidy_at_inv in Ht. destruct Ht as [_ [_ [_ [_ [_ [_ [[Ha Hb] _]]]]]]].
  destruct Hs; congruence.
Qed.

Lemma no_email prev s pos' :
  tidy_here prev s -> ~ spans Patterns.email (prev, s) pos'.
Proof.
  intros [Ht _] H. unfold Patterns.email in H. cbv zeta in H. cbn [rseq] in H.
  destruct H as [m1 [[run [Hs [Hrun [Hlen _]]]] [m2 [[c [Hc [Hat _]]] _]]]].
  cbn [fst snd] in Hs. unfold chr in Hat. apply N.eqb_eq in Hat. subst c.
  rewrite Hs, Hc in Ht. apply tidy_from_at, tidy_at_inv in Ht.
  destruct Ht as [_ [_ [_ [_ [_ [_ [_ Ht]]]]]]]. specialize (Ht eq_refl).
  rewrite holds_last_unit in Ht; [discriminate | exact Hrun |].
  now apply run_nonempty.
Qed.

Lemma no_citation prev s pos' :
  tidy_here prev s -> ~ spans Patterns.citation (prev, s) pos'.
Proof.
  intros [Ht _] H. unfold Patterns.citation in H. cbn [rseq] in H.
  destruct H as [m1 [[c [Hc [Hopen _]]]
                       [m2 [[run [Hs [Hrun [Hlen _]]]] [d [Hd [Hclose _]]]]]]].
  cbn [fst snd] in Hc. unfold chr in Hopen, Hclose.
  apply N.eqb_eq in Hopen, Hclose. subst c d.
  rewrite Hc, Hs, Hd in Ht. apply tidy_from_cons in Ht. destruct Ht as [Ht _].
  apply tidy_at_inv in Ht. destruct Ht as [_ [_ [_ [_ [_ [Ht _]]]]]].
  specialize (Ht eq_refl). unfold citation_ahead in Ht.
  rewrite span_run in Ht by (exact Hrun || reflexivity).
  rewrite drop_app_length in Ht. cbn [head holds] in Ht.
  destruct run; [cbn in Hlen; lia | discriminate Ht].
Qed.

Lemma no_space_before_punct prev s pos' :
  tidy_here prev s -> ~ spans Patterns.space_before_punct (prev, s) pos'.
Proof.
  intros [Ht _] H. unfold Patterns.space_before_punct in H.
  destruct H as [m1 [[run [Hs [Hrun [Hlen _]]]] [c [Hc [Hp _]]]]].
  cbn [fst snd] in Hs. rewrite Hs, Hc in Ht.
  apply tidy_from_at, tidy_at_inv in Ht. destruct Ht as [_ [Ht _]].
  specialize (Ht Hp). rewrite holds_last_unit in Ht; [discriminate | |].
  - revert Hrun. apply forallb_weaken. intros x Hx. unfold cls_or. now rewrite Hx.
  - now apply run_nonempty.
Qed.

Lemma no_adjacent_punct prev s pos' :
  tidy_here prev s -> ~ spans Patterns.adjacent_punct (prev, s) pos'.
Proof.
  intros [Ht _] H. unfold Patterns.adjacent_punct in H. cbn [rseq] in H.
  destruct H as [m1 [[c [Hc [Hp Hprev]]]
                       [m2 [[run [Hs [Hrun [_ Hlast]]]] [d [Hd [Hq _]]]]]]].
  cbn [fst snd] in Hc. rewrite Hc, Hs, Hd in Ht.
  apply tidy_from_cons in Ht. destruct Ht as [_ Ht].
  apply tidy_from_at, tidy_at_inv in Ht. destruct Ht as [_ [Ht _]].
  specialize (Ht Hq). rewrite holds_last_unit_or in Ht; [discriminate | |].
  - revert Hrun. apply forallb_weaken. intros x Hx. unfold cls_or. now rewrite Hx.
  - cbn [holds]. unfold cls_or. rewrite Hp. apply orb_true_r.
Qed.

Lemma no_line_breaks prev s pos' :
  tidy_here prev s -> ~ spans Patterns.line_breaks (prev, s) pos'.
Proof.
  intros [Ht _] H. unfold Patterns.line_breaks in H.
  destruct H as [run [Hs [Hrun [Hlen _]]]]. cbn [fst snd] in Hs.
  destruct run as [|a [|b [|c run]]]; cbn in Hlen; try lia.
  cbn [forallb] in Hrun.
  apply andb_true_iff in Hrun. destruct Hrun as [Ha Hrun].
  apply andb_true_iff in Hrun. destruct Hrun as [Hb Hrun].
  apply andb_true_iff in Hrun. destruct Hrun as [Hc _].
  apply N.eqb_eq in Ha, Hb, Hc. subst a b c s.
  cbn [app] in Ht. apply tidy_from_cons in Ht. destruct Ht as [_ Ht].
  apply tidy_from_cons in Ht. destruct Ht as [Ht _].
  apply tidy_at_inv in Ht. destruct Ht as [Ht _].
  destruct (Ht eq_refl) as [[H _]|[_ [_ [_ H]]]]; discriminate H.
Qed.

(** After white space that the end of a line follows there is no unit
    that is not white space. *)
Lemma next_is_space run s' x :
  forallb cls_space run = true -> at_line_end true (x, s') = true ->
  holds (cls_not cls_space) (head (run ++ s')) = false.
Proof.
  intros Hrun Hend. destruct run as [|c run].
  - destruct s' as [|d s']; [reflexivity|]. cbn in Hend |- *.
    unfold cls_not. now rewrite (terminator_space d Hend).
  - cbn [forallb] in Hrun. apply andb_true_iff in Hrun. destruct Hrun as [Hc _].
    cbn. unfold cls_not. now rewrite Hc.
Qed.

Lemma no_hyphenation prev s pos' :
  tidy_here prev s -> ~ spans Patterns.hyphenation (prev, s) pos'.
Proof.
  intros [Ht _] H. unfold Patterns.hyphenation in H. cbn [rseq] in H.
  destruct H as [m1 [[w [Hs [Hw [Hlen Hm1]]]]
                       [m2 [[c [Hc [Hhy _]]]
                              [m3 [[sp [Hsp [Hspace _]]] [m4 [[d [Hd [Hlf _]]] _]]]]]]]].
  cbn [fst snd] in Hs. unfold chr in Hhy. apply N.eqb_eq in Hhy, Hlf. subst c d.
  rewrite Hs, Hc, Hsp, Hd in Ht.
  pose proof (tidy_from_at _ _ _ _ Ht) as Hat. apply tidy_at_inv in Hat.
  destruct Hat as [_ [_ [_ [_ [Hat _]]]]]. specialize (Hat eq_refl).
  rewrite holds_last_unit in Hat by (exact Hw || now apply run_nonempty).
  specialize (Hat eq_refl).
  destruct sp as [|x sp]; [discriminate Hat|].
  cbn [forallb] in Hspace. apply andb_true_iff in Hspace.
  destruct Hspace as [Hx Hspace].
  assert (tidy_from prev ((w ++ [N_of_ascii "-"]) ++ x :: sp ++ LF :: snd m4)
          = true) as Ht' by (rewrite <- app_assoc; exact Ht).
  destruct (tidy_space _ _ _ _ Ht' Hx) as [[-> [_ Hn]]|[-> _]].
  - rewrite (next_is_space sp (LF :: snd m4) None) in Hn;
      [discriminate | exact Hspace | reflexivity].
  - discriminate Hat.
Qed.

Lemma no_line_edges prev s pos' :
  tidy_here prev s -> ~ spans Patterns.line_edges (prev, s) pos'.
Proof.
  intros [Ht Hp] H. unfold Patterns.line_edges in H. cbn [spans] in H.
  destruct H as [[m1 [[-> Hstart] [run [Hs [Hrun [Hlen _]]]]]]
                |[m1 [[run [Hs [Hrun [Hlen _]]]] [-> Hend]]]];
    cbn [fst snd] in Hs; apply run_nonempty in Hlen.
  - destruct run as [|c run]; [congruence|].
    cbn [forallb] in Hrun. apply andb_true_iff in Hrun. destruct Hrun as [Hc _].
    rewrite Hs in Ht.
    destruct (tidy_space prev [] _ _ Ht (edge_space c Hc)) as [[-> [Hb _]]|[-> _]];
      [|discriminate Hc].
    rewrite last_unit_nil in Hb. unfold at_line_start in Hstart. cbn [fst] in Hstart.
    destruct prev as [p|]; [|discriminate Hb].
    cbn in Hb, Hstart. unfold cls_not in Hb.
    now rewrite (terminator_space p Hstart) in Hb.
  - destruct (exists_last Hlen) as [a [c ->]].
    rewrite forallb_app in Hrun. apply andb_true_iff in Hrun.
    destruct Hrun as [_ Hc]. cbn in Hc. rewrite andb_true_r in Hc.
    rewrite Hs, <- app_assoc in Ht. cbn [app] in Ht.
    destruct (tidy_space _ _ _ _ Ht (edge_space c Hc)) as [[-> [_ Hn]]|[-> _]];
      [|discriminate Hc].
    pose proof (next_is_space [] (snd m1) (fst m1) eq_refl) as Hx.
    cbn [app] in Hx. rewrite Hx in Hn; [discriminate|].
    now destruct m1.
Qed.

(** White space at the start of a line of tidy text is made of line
    feeds: what comes after it starts a line as well. *)
Lemma line_start_run run :
  forall prev rest,
    tidy_from prev (run ++ rest) = true ->
    forallb cls_space run = true ->
    match prev with None => true | Some p => N.eqb p LF end = true ->
    match last_unit prev run with None => true | Some p => N.eqb p LF end = true.
Proof.
  induction run as [|c run IH]; intros prev rest Ht Hrun Hp; [exact Hp|].
  cbn [forallb] in Hrun. apply andb_true_iff in Hrun. destruct Hrun as [Hc Hrun].
  rewrite last_unit_cons.
  destruct (tidy_space prev [] c (run ++ rest) Ht Hc) as [[-> [Hb _]]|[-> _]].
  - rewrite last_unit_nil in Hb. destruct prev as [p|]; [|discriminate Hb].
    apply N.eqb_eq in Hp. subst p. discriminate Hb.
  - apply (IH (Some LF) rest); [|exact Hrun | reflexivity].
    cbn [app] in Ht. now apply tidy_from_cons in Ht.
Qed.

Lemma space_not_digit c : cls_space c = true -> cls_digit c = false.
Proof.
  intros H. destruct (cls_digit c) eqn:E; [|reflexivity].
  now rewrite (digit_not_space c E) in H.
Qed.

Lemma no_page_number prev s pos' :
  tidy_here prev s -> ~ spans Patterns.page_number (prev, s) pos'.
Proof.
  intros [Ht Hp] H. unfold Patterns.page_number in H. cbn [rseq spans] in H.
  destruct H as [m1 [[-> Hstart]
                       [m2 [[ws1 [Hs1 [Hws1 [_ Hm2]]]]
                              [m3 [[ds [Hs2 [Hds [Hlen _]]]]
                                     [m4 [[ws2 [Hs3 [Hws2 _]]] [-> Hend]]]]]]]]].
  cbn [fst snd] in Hs1, Hm2.
  assert (match prev with None => true | Some p => N.eqb p LF end = true) as Hline.
  { unfold at_line_start in Hstart. cbn [fst] in Hstart.
    destruct prev as [p|]; [|reflexivity]. cbn [andb] in Hstart.
    specialize (Hp Hstart). injection Hp as ->. reflexivity. }
  rewrite Hs1, Hs2, Hs3 in Ht.
  pose proof (line_start_run ws1 prev _ Ht Hws1 Hline) as Hline'.
  destruct ds as [|d ds]; [cbn in Hlen; lia|].
  assert (holds cls_digit (head (ws2 ++ snd m4)) = false) as Hnext.
  { destruct ws2 as [|c ws2].
    - destruct m4 as [x [|c s']]; [reflexivity|]. cbn in Hend |- *.
      apply space_not_digit, terminator_space, Hend.
    - cbn [forallb] in Hws2. apply andb_true_iff in Hws2. cbn.
      now apply space_not_digit. }
  pose proof (tidy_from_at prev ws1 d (ds ++ ws2 ++ snd m4) Ht) as Hat.
  apply tidy_at_inv in Hat.
  destruct Hat as [_ [_ [_ [Hat _]]]]. specialize (Hat Hline').
  unfold number_line in Hat.
  change (d :: ds ++ ws2 ++ snd m4) with ((d :: ds) ++ ws2 ++ snd m4) in Hat.
  rewrite (span_run cls_digit (d :: ds)) in Hat by assumption.
  rewrite drop_app_length in Hat. cbn [length Nat.ltb Nat.leb andb] in Hat.
  destruct (ws2 ++ snd m4) as [|c rest] eqn:Erest; [discriminate Hat|].
  assert (cls_space c = true /\
          holds (cls_not cls_space) (head rest) = false) as [Hc Hrest].
  { destruct ws2 as [|x ws2].
    - cbn [app] in Erest. destruct m4 as [y s']. cbn [snd] in Erest. subst s'.
      cbn in Hend. split; [now apply terminator_space|].
      exfalso.
      assert (In c [10; 13; 8232; 8233]%N) as Hin by now apply one_of_In.
      cbn in Hin. cbn in Hat.
      destruct Hin as [<-|Hin]; [discriminate Hat|].
      assert (tidy_from prev ((ws1 ++ d :: ds) ++ c :: rest) = true) as Ht'
        by (rewrite <- app_assoc; exact Ht).
      destruct (tidy_space _ _ _ _ Ht' (terminator_space c Hend)) as [[-> _]|[-> _]];
        [discriminate Hend | discriminate Hat].
    - cbn [app] in Erest. injection Erest as -> <-.
      cbn [forallb] in Hws2. apply andb_true_iff in Hws2.
      destruct Hws2 as [Hc Hws2]. split; [exact Hc|].
      destruct m4 as [y s']. now apply (next_is_space ws2 s' y). }
  assert (tidy_from prev ((ws1 ++ d :: ds) ++ c :: rest) = true) as Ht'
    by (rewrite <- app_assoc; exact Ht).
  destruct (tidy_space _ _ _ _ Ht' Hc) as [[-> [_ Hn]]|[-> _]].
  - congruence.
  - discriminate Hat.
Qed.

(** *** The steps that replace a match by itself *)

Lemma replace_unit_same c :
  forall s prev,
    replace_from (RChar (one_of [c; c])) [TLit [c]] 0 prev s = s.
Proof.
  induction s as [|d s IH]; intros prev; [reflexivity|].
  cbn [replace_from]. unfold exec. cbn [rmatch snd].
  destruct (one_of [c; c] d) eqn:E.
  - cbn [length snd]. replace (S (length s) - length s) with 1 by lia.
    cbn [expand flat_map take app]. rewrite IH.
    apply one_of_In in E. cbn in E. now destruct E as [->|[->|[]]].
  - now rewrite IH.
Qed.

(** Step 5: every stretch of blanks in tidy text is one space. *)
Lemma blanks_tidy s :
  forall prev, tidy_from prev s = true ->
  replace_from Patterns.blanks [TLit (js " ")] 0 prev s = s.
Proof.
  induction s as [|c s IH]; intros prev Ht; [reflexivity|].
  pose proof Ht as Hc. apply tidy_from_cons in Hc. destruct Hc as [_ Hs].
  destruct (Patterns.blank c) eqn:Eb.
  - rewrite blank_space in Eb. apply andb_true_iff in Eb. destruct Eb as [Hc Hlf].
    destruct (tidy_space prev [] c s Ht Hc) as [[-> [_ Hn]]|[-> _]];
      [|discriminate Hlf].
    destruct s as [|d s]; [discriminate Hn|]. cbn [head holds] in Hn.
    rewrite (replace_from_hit _ _ _ _ _ 0 []).
    + cbn [expand flat_map take app]. change (js " ") with [SPACE]. cbn [app].
      f_equal. now apply IH.
    + apply exec_blanks_single. rewrite blank_space.
      unfold cls_not in Hn. apply negb_true_iff in Hn. now rewrite Hn.
  - rewrite replace_from_miss.
    + f_equal. now apply IH.
    + unfold exec, Patterns.blanks. cbn [rmatch fst snd].
      now rewrite rep_miss by exact Eb.
Qed.

(** Step 12: tidy text neither begins nor ends with white space. *)
Lemma tidy_trimmed s : tidy s = true -> trimmed s.
Proof.
  intros Ht. split; intros c Hc.
  - destruct s as [|d s]; [discriminate|]. injection Hc as ->.
    destruct (cls_space c) eqn:E; [|reflexivity].
    destruct (tidy_space None [] c s Ht E) as [[_ [H _]]|[-> _]].
    + discriminate H.
    + apply tidy_from_cons in Ht. destruct Ht as [Ht _].
      apply tidy_at_inv in Ht. destruct Ht as [Ht _].
      destruct (Ht eq_refl) as [[H _]|[_ [H _]]]; discriminate H.
  - destruct s as [|d s] using rev_ind; [discriminate|]. clear IHs.
    rewrite rev_app_distr in Hc. injection Hc as ->.
    destruct (cls_space c) eqn:E; [|reflexivity].
    pose proof (tidy_from_at _ _ _ _ Ht) as Hat. apply tidy_at_inv in Hat.
    destruct Hat as [Hat _].
    destruct (Hat E) as [[_ [_ H]]|[_ [_ [H _]]]]; discriminate H.
Qed.

(** *** Tidy text is a fixed point *)

Lemma cleanText_tidy nfc s :
  tidy s = true -> nfc s = s -> cleanText nfc (VStr s) = s.
Proof.
  intros Ht Hn. destruct s as [|c s]; [reflexivity|].
  unfold cleanText. cbn [truthy typeof_string negb orb]. cbv zeta. rewrite Hn.
  set (x := c :: s) in *.
  assert (replace_all Patterns.apostrophes [TLit (js "'")] x = x) as ->
    by apply (replace_unit_same 39).
  assert (replace_all Patterns.quotes [TLit [34%N]] x = x) as ->
    by apply (replace_unit_same 34).
  rewrite (replace_all_tidy Patterns.ellipsis)
    by (exact Ht || intros; now apply no_mojibake).
  rewrite (replace_all_tidy Patterns.em_dash)
    by (exact Ht || intros; now apply no_mojibake).
  rewrite (replace_all_tidy Patterns.en_dash)
    by (exact Ht || intros; now apply no_mojibake).
  rewrite (replace_all_tidy Patterns.page_number)
    by (exact Ht || intros; now apply no_page_number).
  rewrite (replace_all_tidy Patterns.hyphenation)
    by (exact Ht || intros; now apply no_hyphenation).
  assert (replace_all Patterns.blanks [TLit (js " ")] x = x) as ->
    by now apply blanks_tidy.
  rewrite (replace_all_tidy Patterns.line_breaks)
    by (exact Ht || intros; now apply no_line_breaks).
  rewrite (replace_all_tidy Patterns.line_edges)
    by (exact Ht || intros; now apply no_line_edges).
  rewrite (replace_all_tidy Patterns.citation)
    by (exact Ht || intros; now apply no_citation).
  rewrite (replace_all_tidy Patterns.space_before_punct)
    by (exact Ht || intros; now apply no_space_before_punct).
  rewrite (replace_all_tidy Patterns.adjacent_punct)
    by (exact Ht || intros; now apply no_adjacent_punct).
  rewrite (replace_all_tidy Patterns.url)
    by (exact Ht || intros; now apply no_url).
  rewrite (replace_all_tidy Patterns.email)
    by (exact Ht || intros; now apply no_email).
  now apply trim_fixed, tidy_trimmed.
Qed.

(** A single space between two units that are not white space. *)
Lemma tidy_at_single_space p d rest :
  cls_space p = false -> cls_space d = false ->
  tidy_at (Some p) SPACE (d :: rest) = true.
Proof.
  intros Hp Hd. unfold tidy_at, number_line. cbv zeta.
  cbn [head holds span]. unfold cls_not. rewrite Hp, Hd.
  change (cls_space SPACE) with true.
  change (Patterns.punct SPACE) with false.
  change (cls_digit SPACE) with false.
  change (starts_with (js "http://") (SPACE :: d :: rest)) with false.
  change (starts_with (js "https://") (SPACE :: d :: rest)) with false.
  cbn. now rewrite andb_false_r.
Qed.

(** Words of ASCII letters separated by single spaces are tidy. *)
Lemma no_colon p s :
  starts_with p s = true -> In 58%N p ->
  forallb (one_of alphabet) s = true -> False.
Proof.
  intros Hp Hin Hs. apply starts_with_inv in Hp. destruct Hp as [t ->].
  rewrite forallb_app in Hs. apply andb_true_iff in Hs. destruct Hs as [Hs _].
  rewrite forallb_forall in Hs. specialize (Hs _ Hin). discriminate Hs.
Qed.

Lemma clean_aux_tidy s :
  forall b prev,
    clean_aux b s = true ->
    (b = true -> holds ascii_letter prev = true) ->
    tidy_from prev s = true.
Proof.
  induction s as [|c s IH]; intros b prev H Hprev; [reflexivity|].
  pose proof (clean_aux_over _ _ H) as Hover.
  cbn [tidy_from]. apply andb_true_iff.
  apply clean_aux_cons in H. destruct H as [[Hc H]|[_ [-> [-> H]]]].
  - split; [|apply (IH true); [exact H | intros _; exact Hc]].
    assert (forall p, In 58%N p -> starts_with p (c :: s) = false) as Hu.
    { intros p Hp. destruct (starts_with p (c :: s)) eqn:E; [|reflexivity].
      destruct (no_colon _ _ E Hp Hover). }
    assert (starts_with (js "http://") (c :: s) = false) as Hu1
      by (apply Hu; cbn; tauto).
    assert (starts_with (js "https://") (c :: s) = false) as Hu2
      by (apply Hu; cbn; tauto).
    unfold tidy_at. cbv zeta. rewrite Hu1, Hu2.
    rewrite (letter_not_space c Hc).
    rewrite (letter_class Patterns.punct c) by (vm_compute; reflexivity || exact Hc).
    rewrite (letter_class (fun c => N.eqb c 226) c) by (vm_compute; reflexivity || exact Hc).
    rewrite (letter_class (fun c => N.eqb c 45) c) by (vm_compute; reflexivity || exact Hc).
    rewrite (letter_class (fun c => N.eqb c 91) c) by (vm_compute; reflexivity || exact Hc).
    rewrite (letter_class (fun c => N.eqb c 64) c) by (vm_compute; reflexivity || exact Hc).
    unfold number_line. cbn [span].
    rewrite (letter_class cls_digit c) by (vm_compute; reflexivity || exact Hc).
    cbn. now rewrite andb_false_r.
  - split; [|apply (IH false); [exact H | discriminate]].
    destruct (clean_aux_false_head s H) as [d [s' [-> [Hd _]]]].
    specialize (Hprev eq_refl). destruct prev as [p|]; [|discriminate Hprev].
    cbn [holds] in Hprev.
    apply tidy_at_single_space; now apply letter_not_space.
Qed.

Lemma clean_text_tidy s : clean_text s = true -> tidy s = true.
Proof.
  destruct s as [|c s]; [reflexivity|]. intros H.
  apply (clean_aux_tidy _ false None H). discriminate.
Qed.

(** C5, amended.  The pipeline applied twice is the pipeline applied
    once on every text whose normal form is tidy and composed; tidy text
    that is composed is its own normal form, so that this is the case of
    every such text, and it is the case of every text of ASCII letters,
    spaces and tabs, whose normal form is words separated by single
    spaces. *)
Theorem cleanText_idempotent_on_tidy_text nfc x :
  let y := cleanText nfc (VStr x) in
  (tidy y = true /\ nfc y = y) \/
  (tidy x = true /\ nfc x = x) \/
  (nfc_fixes_ascii nfc /\ letters_and_blanks x = true) ->
  cleanText nfc (VStr y) = y /\
  (tidy x = true -> nfc x = x -> y = x) /\
  (letters_and_blanks x = true -> nfc_fixes_ascii nfc ->
   clean_text y = true /\ tidy y = true).
Proof.
  intros y H. split; [|split].
  - destruct H as [[Ht Hn]|[[Ht Hn]|[Hn Hx]]].
    + now apply cleanText_tidy.
    + unfold y. now rewrite !(cleanText_tidy nfc x Ht Hn).
    + apply cleanText_clean; [exact Hn|]. now apply cleanText_plain_clean.
  - apply cleanText_tidy.
  - intros Hx Hn. pose proof (cleanText_plain_clean nfc Hn x Hx) as Hc.
    split; [exact Hc | now apply clean_text_tidy].
Qed.

Lemma cleanText_idempotent_on_tidy_text_witness :
  let x := js "In 1999, Dr. Who said: go (now)!" ++ [LF; LF]
           ++ js "Yes - 3 times, see p. 4 of " ++ [233%N] ++ js "tudes." in
  let nfc := fun s : jsstring => s in
  tidy x = true /\ nfc x = x /\
  cleanText nfc (VStr x) = x /\
  cleanText nfc (VStr (cleanText nfc (VStr x))) = cleanText nfc (VStr x).
Proof.
  intros x nfc. split; [reflexivity|]. split; [reflexivity|].
  pose proof (cleanText_idempotent_on_tidy_text nfc x
                (or_intror (or_introl (conj eq_refl eq_refl)))) as H.
  cbv zeta in H. destruct H as [H1 [H2 _]].
  split; [exact (H2 eq_refl eq_refl) | exact H1].
Defined.

(** C5, as stated, fails: the pipeline removes a URL after it has
    collapsed the blanks, so that the two spaces around the URL are left
    side by side, and a second pass makes one space of them. *)
Lemma cleanText_not_idempotent :
  two_passes_differ (js "a https://x.com b") (js "a  b") (js "a b").
Proof.
  intros nfc Hnfc.
  rewrite !(cleanText_ascii nfc Hnfc) by reflexivity.
  split; [vm_compute; reflexivity|]. split; [vm_compute; reflexivity|].
  discriminate.
Qed.

(** ** The record builder *)

Lemma of_uint_acc_horner d :
  forall acc, N.pos (Pos.of_uint_acc d acc) = horner (N.pos acc) d.
Proof.
  induction d; intros acc; cbn [Pos.of_uint_acc horner];
    try reflexivity; rewrite IHd; f_equal; lia.
Qed.

Lemma of_uint_horner d : N.of_uint d = horner 0 d.
Proof.
  unfold N.of_uint. induction d; cbn [Pos.of_uint horner];
    try reflexivity; try exact IHd; now rewrite of_uint_acc_horner.
Qed.

Lemma digits_prefix_numeral d :
  forall a,
    digits_prefix 10 (Some a) (js (NilEmpty.string_of_uint d)) = Some (horner a d).
Proof.
  induction d; intros a; cbn [NilEmpty.string_of_uint]; try reflexivity;
    unfold js; cbn [list_ascii_of_string map]; fold (js (NilEmpty.string_of_uint d));
    cbn [digits_prefix];
    match goal with
    | |- context [digit_value 10 (N_of_ascii ?c)] =>
        let v := eval vm_compute in (digit_value 10 (N_of_ascii c)) in
        change (digit_value 10 (N_of_ascii c)) with v
    end;
    cbv beta iota; rewrite IHd; reflexivity.
Qed.

Lemma numeral_digits d : forallb cls_digit (js (NilEmpty.string_of_uint d)) = true.
Proof. induction d; cbn [NilEmpty.string_of_uint]; try reflexivity; exact IHd. Qed.


Lemma js_cons c s : js (String c s) = N_of_ascii c :: js s.
Proof. reflexivity. Qed.

Lemma digit_cases c : cls_digit c = true -> In c digits.
Proof.
  intros H. unfold cls_digit, in_range in H. apply andb_true_iff in H.
  destruct H as [H1 H2]. apply N.leb_le in H1, H2.
  unfold digits. apply in_map_iff.
  exists (N.to_nat c). split; [apply N2Nat.id|]. apply in_seq. lia.
Qed.

(** [parseInt] on a text that begins with decimal digits: no sign, no
    prefix of a hexadecimal numeral. *)
Lemma parseInt_digits c s :
  cls_digit c = true ->
  match s with d :: _ => cls_digit d = true | [] => True end ->
  parseInt (c :: s)
  = match digits_prefix 10 None (c :: s) with
    | Some n =>
        match binary64 n with
        | Some m => Finite (Z.of_N m)
        | None => Infinity false
        end
    | None => NaN
    end.
Proof.
  intros Hc Hs. apply digit_cases in Hc. cbn in Hc.
  destruct Hc as [<-|Hc].
  { destruct s as [|d s]; [reflexivity|]. apply digit_cases in Hs. cbn in Hs.
    repeat (destruct Hs as [<-|Hs]; [reflexivity|]). contradiction. }
  repeat (destruct Hc as [<-|Hc]; [reflexivity|]). contradiction.
Qed.

Lemma numeral_head d :
  match js (NilEmpty.string_of_uint d) with
  | c :: _ => cls_digit c = true
  | [] => True
  end.
Proof. destruct d; cbn [NilEmpty.string_of_uint]; try rewrite js_cons; reflexivity || exact I. Qed.

Lemma digits_numeral d :
  digits_prefix 10 None (js (NilZero.string_of_uint d)) = Some (N.of_uint d).
Proof.
  rewrite of_uint_horner.
  destruct d; [reflexivity|..]; cbn [NilZero.string_of_uint NilEmpty.string_of_uint];
    rewrite js_cons; cbn [digits_prefix];
    match goal with
    | |- context [digit_value 10 (N_of_ascii ?c)] =>
        let v := eval vm_compute in (digit_value 10 (N_of_ascii c)) in
        change (digit_value 10 (N_of_ascii c)) with v
    end;
    cbv beta iota; rewrite digits_prefix_numeral; reflexivity.
Qed.

Lemma decimal_value n : digits_prefix 10 None (decimal n) = Some n.
Proof.
  unfold decimal. rewrite digits_numeral. now rewrite DecimalN.Unsigned.of_to.
Qed.

Lemma decimal_inj a b : decimal a = decimal b -> a = b.
Proof.
  intros H. apply (f_equal (digits_prefix 10 None)) in H.
  rewrite !decimal_value in H. now injection H.
Qed.

Lemma decimal_digits n : forallb cls_digit (decimal n) = true.
Proof.
  unfold decimal, NilZero.string_of_uint.
  destruct (N.to_uint n) eqn:E; [reflexivity|..]; rewrite <- E;
    apply numeral_digits.
Qed.

(** [parseInt] on a decimal numeral. *)
Lemma parseInt_decimal n :
  parseInt (decimal n)
  = match binary64 n with
    | Some m => Finite (Z.of_N m)
    | None => Infinity false
    end.
Proof.
  pose proof (decimal_value n) as Hv. pose proof (decimal_digits n) as Hd.
  destruct (decimal n) as [|c s]; [discriminate Hv|].
  cbn [forallb] in Hd. apply andb_true_iff in Hd. destruct Hd as [Hc Hs].
  rewrite parseInt_digits, Hv; [reflexivity | exact Hc |].
  destruct s as [|d s]; [exact I|]. cbn [forallb] in Hs.
  now apply andb_true_iff in Hs.
Qed.

Lemma numerals_apart u :
  forall v x y,
    forallb cls_digit u = true -> forallb cls_digit v = true ->
    u ++ 95%N :: x = v ++ 95%N :: y -> u = v /\ x = y.
Proof.
  induction u as [|c u IH]; intros [|d v] x y Hu Hv H; cbn [app] in H.
  - injection H as <-. auto.
  - injection H as <- _. discriminate.
  - injection H as -> _. discriminate.
  - injection H as <- H. cbn [forallb] in Hu, Hv.
    apply andb_true_iff in Hu, Hv.
    destruct (IH v x y (proj2 Hu) (proj2 Hv) H) as [-> ->]. auto.
Qed.

Lemma document_id_assemble f1 h1 t1 l1 f2 h2 t2 l2 :
  Schema.document_id (assemble f1 h1 t1 l1)
  = Schema.document_id (assemble f2 h2 t2 l2) <->
  date_now h1 = date_now h2 /\
  substr 2 9 (random36 h1) = substr 2 9 (random36 h2).
Proof.
  cbn [assemble Schema.document_id]. split.
  - intros H. apply app_inv_head in H.
    change (js "_" ++ ?x) with (95%N :: x) in H.
    apply numerals_apart in H; try apply decimal_digits.
    destruct H as [H1 H2]. split; [now apply decimal_inj | exact H2].
  - intros [-> ->]. reflexivity.
Qed.

Section Builders.
Variable nfc : jsstring -> jsstring.

(** X25. The [document_id] of a record tells the millisecond and the
    nine units of the random text it was made from, and nothing else:
    two records get the same id exactly when both agree, whatever the
    forms hold. *)
Theorem document_id_collision f1 h1 f2 h2 :
  (Schema.document_id (PublicScript.createDocumentStructure f1 h1)
   = Schema.document_id (PublicScript.createDocumentStructure f2 h2) <->
   date_now h1 = date_now h2 /\
   substr 2 9 (random36 h1) = substr 2 9 (random36 h2)) /\
  (Schema.document_id (CleaningScript.createDocumentStructure nfc f1 h1)
   = Schema.document_id (CleaningScript.createDocumentStructure nfc f2 h2) <->
   date_now h1 = date_now h2 /\
   substr 2 9 (random36 h1) = substr 2 9 (random36 h2)).
Proof. split; apply document_id_assemble. Qed.

Lemma or_null_set s : or_null s <> Some [].
Proof. unfold or_null. destruct s; cbn; discriminate. Qed.

Lemma assemble_optional f h t l : optional_fields_set (assemble f h t l).
Proof.
  unfold optional_fields_set. cbn.
  repeat constructor; try apply or_null_set; discriminate.
Qed.

(** X24. What both builders make of a form that [validateForm] accepts:
    title and author are trimmed and not empty, the content type is not
    empty, no optional field is the empty string, the version is 1 and
    the two timestamps are the same; the text is trimmed, and in the
    script without cleaning it is not empty. *)
Theorem validated_record_fields f h :
  validateForm f = true ->
  let public := PublicScript.createDocumentStructure f h in
  let cleaned := CleaningScript.createDocumentStructure nfc f h in
  Forall (fun r =>
    let a := Schema.attribution_of r in
    Schema.title a <> [] /\ trimmed (Schema.title a) /\
    Schema.author a <> [] /\ trimmed (Schema.author a) /\
    Schema.content_type a <> [] /\
    optional_fields_set r /\
    trimmed (Schema.content_text r) /\
    Schema.version r = 1%Z /\
    Schema.created_at r = Schema.updated_at r) [public; cleaned] /\
  Schema.content_text public <> [].
Proof.
  intros Hv public cleaned.
  destruct (validateForm_fields f Hv) as [Ht [Ha [Hc Hx]]].
  split; [|exact Hx].
  assert (forall t l, trimmed t ->
            let r := assemble f h t l in
            let a := Schema.attribution_of r in
            Schema.title a <> [] /\ trimmed (Schema.title a) /\
            Schema.author a <> [] /\ trimmed (Schema.author a) /\
            Schema.content_type a <> [] /\
            optional_fields_set r /\
            trimmed (Schema.content_text r) /\
            Schema.version r = 1%Z /\
            Schema.created_at r = Schema.updated_at r) as Hr.
  { intros t l Htr r a.
    split; [exact Ht|]. split; [apply trim_trimmed|].
    split; [exact Ha|]. split; [apply trim_trimmed|].
    split; [exact Hc|]. split; [apply assemble_optional|].
    split; [exact Htr|]. split; reflexivity. }
  constructor; [apply Hr, trim_trimmed|].
  constructor; [|constructor].
  apply Hr, cleanText_ends.
Qed.

(** X26. A training weight written as a decimal numeral is read by
    [parseInt] as the nearest binary64 number, in both builders: below
    [2^53] the [weighting] of the record is the number written, and from
    there on it need not be, [2^53 + 1] being read as [2^53]. *)
Theorem weighting_of_decimal f h n :
  training_weight f = decimal n ->
  let read :=
    match binary64 n with
    | Some m => Finite (Z.of_N m)
    | None => Infinity false
    end in
  Schema.weighting (Schema.training_metadata_of
                      (PublicScript.createDocumentStructure f h)) = read /\
  Schema.weighting (Schema.training_metadata_of
                      (CleaningScript.createDocumentStructure nfc f h)) = read /\
  ((n < 2 ^ 53)%N -> read = Finite (Z.of_N n)) /\
  binary64 (2 ^ 53 + 1) = Some (2 ^ 53)%N.
Proof.
  intros H read. cbn. rewrite H, parseInt_decimal. fold read.
  repeat split. intros Hn. unfold read, binary64.
  apply N.ltb_lt in Hn. now rewrite Hn.
Qed.
End Builders.

(** ** The live counters *)

Lemma exec_run p prev c s :
  exec (RRep 1 p) prev (c :: s) = if p c then Some (S (span p s), []) else None.
Proof.
  unfold exec. cbn [rmatch fst snd]. destruct (p c) eqn:Hc.
  - destruct (rep_greedy p (c :: s) 1 prev []) as [prev' ->].
    cbn [span]. rewrite Hc. cbn [Nat.leb drop snd].
    rewrite length_drop. cbn [length]. do 2 f_equal.
    pose proof (span_le p s). lia.
  - now rewrite rep_miss.
Qed.

Lemma whitespace_runs_start s :
  span cls_space s = 0 -> whitespace_runs true s = whitespace_runs false s.
Proof.
  destruct s as [|c s]; [reflexivity|]. cbn [span whitespace_runs].
  destruct (cls_space c); [discriminate | reflexivity].
Qed.

Lemma split_from_runs s :
  forall skip piece prev,
    skip = 0 \/ skip = span cls_space s ->
    length (split_from whitespace_run piece skip prev s)
    = 1 + whitespace_runs (negb (Nat.eqb skip 0)) s.
Proof.
  induction s as [|c s IH]; intros skip piece prev Hskip; [reflexivity|].
  assert (forall piece' prev',
            length (split_from whitespace_run piece' (span cls_space s) prev' s)
            = 1 + whitespace_runs true s) as Hrun.
  { intros piece' prev'. rewrite IH by now right.
    destruct (span cls_space s) eqn:E; [|reflexivity].
    cbn [Nat.eqb negb]. now rewrite whitespace_runs_start. }
  destruct skip as [|n].
  - cbn [split_from Nat.eqb negb whitespace_runs]. unfold whitespace_run.
    rewrite exec_run. destruct (cls_space c).
    + cbn [length]. now rewrite Hrun.
    + now rewrite IH by now left.
  - destruct Hskip as [Hskip|Hskip]; [discriminate|].
    cbn [span] in Hskip. destruct (cls_space c) eqn:Ec; [|discriminate].
    injection Hskip as ->.
    cbn [split_from Nat.eqb negb whitespace_runs]. rewrite Ec.
    now rewrite Hrun.
Qed.

Lemma words_and_runs s :
  (forall c, head (rev s) = Some c -> cls_space c = false) ->
  count_words true s = whitespace_runs false s /\
  (s <> [] -> count_words false s = 1 + whitespace_runs true s).
Proof.
  induction s as [|c s IH]; intros Hlast; [split; [reflexivity | congruence]|].
  assert (s = [] /\ cls_space c = false \/
          s <> [] /\ forall c, head (rev s) = Some c -> cls_space c = false) as Hs.
  { destruct s as [|d s]; [left; split; [reflexivity | now apply Hlast]|].
    right. split; [discriminate|]. intros x Hx. apply Hlast.
    cbn [rev] in *. destruct (rev s ++ [d]) eqn:E; [discriminate|]. exact Hx. }
  cbn [count_words whitespace_runs].
  destruct Hs as [[-> Hc]|[Hne Hs]].
  - rewrite Hc. split; reflexivity.
  - destruct (IH Hs) as [IH1 IH2]. destruct (cls_space c).
    + rewrite (IH2 Hne). split; reflexivity.
    + rewrite IH1. split; reflexivity.
Qed.

Lemma count_words_trim_start s : count_words false (trim_start s) = count_words false s.
Proof.
  induction s as [|c s IH]; [reflexivity|]. cbn [trim_start count_words].
  destruct (cls_space c) eqn:E; [exact IH|]. cbn [count_words]. now rewrite E.
Qed.

Lemma count_words_trailing p :
  forallb cls_space p = true ->
  forall s b, count_words b (s ++ p) = count_words b s.
Proof.
  intros Hp. induction s as [|c s IH]; intros b.
  - cbn [app]. clear -Hp. revert b. induction p as [|c p IH]; intros b; [reflexivity|].
    cbn [forallb] in Hp. apply andb_true_iff in Hp. destruct Hp as [Hc Hp].
    cbn [count_words]. rewrite Hc. now rewrite IH.
  - cbn [app count_words]. destruct (cls_space c); now rewrite IH.
Qed.

Lemma trim_start_spaces s :
  exists p, s = p ++ trim_start s /\ forallb cls_space p = true.
Proof.
  induction s as [|d s [p [IH Hp]]]; [now exists []|]. cbn [trim_start].
  destruct (cls_space d) eqn:E; [|now exists []].
  exists (d :: p). cbn [app forallb]. rewrite E, Hp. split; [now rewrite <- IH | reflexivity].
Qed.

Lemma count_words_trim s : count_words false (trim s) = count_words false s.
Proof.
  rewrite <- (count_words_trim_start s). unfold trim.
  set (a := trim_start s).
  destruct (trim_start_spaces (rev a)) as [p [Hp Hsp]].
  apply (f_equal (@rev _)) in Hp. rewrite rev_involutive, rev_app_distr in Hp.
  rewrite Hp at 2. rewrite count_words_trailing; [reflexivity|].
  rewrite forallb_forall in *. intros x Hx. apply Hsp. now apply in_rev.
Qed.

Lemma length_trim_start s : length (trim_start s) <= length s.
Proof.
  induction s as [|c s IH]; [reflexivity|]. cbn [trim_start].
  destruct (cls_space c); cbn [length]; lia.
Qed.

Lemma length_trim s : length (trim s) <= length s.
Proof.
  unfold trim. rewrite length_rev.
  pose proof (length_trim_start (rev (trim_start s))) as H1.
  rewrite length_rev in H1. pose proof (length_trim_start s). lia.
Qed.

(** X27. The live counters of the page, for the text of the text area:
    the characters are its length as it stands, the words are its
    maximal stretches of units that are not white space (none for a
    blank text), and the estimated tokens are the length divided by 4,
    rounded up. *)
Theorem updateContentStats_spec text :
  exists chars words tokens,
    updateContentStats (Some text) = Some (chars, words, tokens) /\
    chars = length text /\
    words = count_words false text /\
    (words = 0 <-> trim text = []) /\
    chars <= 4 * tokens < chars + 4.
Proof.
  unfold updateContentStats. eexists _, _, _. split; [reflexivity|].
  split; [reflexivity|].
  assert ((if truthy (VStr (trim text))
           then length (split whitespace_run (trim text)) else 0)
          = count_words false text) as Hw.
  { rewrite <- count_words_trim. pose proof (trim_trimmed text) as [Hh Hl].
    destruct (trim text) as [|c t] eqn:E; [reflexivity|].
    cbn [truthy split]. rewrite split_from_runs by now left.
    cbn [Nat.eqb negb].
    destruct (words_and_runs (c :: t) Hl) as [_ H]. rewrite H by discriminate.
    cbn [whitespace_runs]. now rewrite (Hh c eq_refl). }
  split; [exact Hw|]. split; [|apply ceil_div4_spec].
  rewrite Hw, <- count_words_trim. pose proof (trim_trimmed text) as [Hh _].
  destruct (trim text) as [|c t]; [split; reflexivity|].
  cbn [count_words]. rewrite (Hh c eq_refl). split; [lia | discriminate].
Qed.

(** ** Statistics after an insert *)

Lemma getCollectionStats_run w :
  can_connect w = true ->
  exists w',
    MongoService.getCollectionStats w
    = (Ok (match group_all (coll w) with
           | first :: _ => first
           | [] => MongoService.empty_stats
           end), w') /\
    coll w' = coll w.
Proof.
  intros Hc. unfold MongoService.getCollectionStats.
  destruct (connect_ok w Hc) as [h [w1 [Hconn [Hc1 [Hcoll _]]]]].
  unfold bind at 1. rewrite Hconn.
  unfold bind at 1. cbn [MongoService.db_collection ret].
  unfold bind, aggregate_group, ret.
  change (coll (logged CallAggregate w1)) with (coll w1). rewrite Hcoll.
  eexists. split; [reflexivity | exact Hcoll].
Qed.

Lemma sum_field_app path l d :
  sum_field path (l ++ [d])
  = (sum_field path l + default 0 (numeric (field path d)))%Z.
Proof.
  unfold sum_field. induction l as [|x l IH]; cbn [app fold_right]; [lia|].
  rewrite IH. lia.
Qed.

(** X3. A record that [insertDocument] accepts counts once in the
    statistics: the number of documents goes up by one, and the two
    totals by the record's own counts (by nothing for a count that is
    not a number). *)
Theorem getCollectionStats_after_insert w document id title author text key w1 :
  can_connect w = true ->
  is_record document id title author text ->
  MongoService.insertDocument document w = (Ok key, w1) ->
  exists before after wa wb stored,
    MongoService.getCollectionStats w = (Ok before, wa) /\
    MongoService.getCollectionStats w1 = (Ok after, wb) /\
    coll w1 = coll w ++ [stored] /\
    totalDocuments after = (totalDocuments before + 1)%Z /\
    totalCharacters after
    = (totalCharacters before
       + default 0 (numeric (field "training_metadata.character_count" stored)))%Z /\
    totalTokens after
    = (totalTokens before
       + default 0 (numeric (field "training_metadata.token_count" stored)))%Z /\
    forall k, k <> "_id"%string -> get_prop (VObj stored) k = get_prop document k.
Proof.
  intros Hc Hrec Hins.
  pose proof (insertDocument_record_effect _ _ _ _ _ _ _ _ Hc Hrec Hins) as H.
  destruct H as [_ [_ [_ [Hc1 _]]]].
  apply insertDocument_frame in Hins.
  destruct Hins as [o [stored [-> [Hcoll [Hsame _]]]]].
  destruct (getCollectionStats_run w Hc) as [wa [Ha _]].
  destruct (getCollectionStats_run w1 Hc1) as [wb [Hb _]].
  eexists _, _, wa, wb, stored. split; [exact Ha|]. split; [exact Hb|].
  split; [exact Hcoll|]. rewrite Hcoll.
  split; [|split; [|split]].
  - destruct (coll w) as [|d l]; cbn [app group_all totalDocuments
      MongoService.empty_stats]; [reflexivity|].
    cbn [length]. rewrite length_app. cbn [length]. lia.
  - destruct (coll w) as [|d l] eqn:E; cbn [app group_all totalCharacters
      MongoService.empty_stats].
    + unfold sum_field. cbn [fold_right]. lia.
    + change (d :: l ++ [stored]) with ((d :: l) ++ [stored]).
      apply sum_field_app.
  - destruct (coll w) as [|d l] eqn:E; cbn [app group_all totalTokens
      MongoService.empty_stats].
    + unfold sum_field. cbn [fold_right]. lia.
    + change (d :: l ++ [stored]) with ((d :: l) ++ [stored]).
      apply sum_field_app.
  - intros k Hk. now rewrite !get_prop_object, (Hsame k Hk).
Qed.

Lemma getCollectionStats_after_insert_witness :
  let w := sample_world [sample_object "doc-1" "Walden" "Thoreau" "I went to the woods"] in
  let doc := sample_record "doc-2" "Essays" "Emerson" "To be great" in
  can_connect w = true /\
  exists key w1 before after wa wb,
    MongoService.insertDocument doc w = (Ok key, w1) /\
    MongoService.getCollectionStats w = (Ok before, wa) /\
    MongoService.getCollectionStats w1 = (Ok after, wb) /\
    totalDocuments after = (totalDocuments before + 1)%Z.
Proof.
  intros w doc. split; [reflexivity|].
  assert (MongoService.insertDocument doc w
          = (Ok (VOid 1), snd (MongoService.insertDocument doc w))) as Hins
    by (vm_compute; reflexivity).
  destruct (getCollectionStats_after_insert w doc _ _ _ _ _ _ eq_refl
              (sample_is_record _ _ _ _) Hins)
    as [before [after [wa [wb [stored [H1 [H2 [_ [H3 _]]]]]]]]].
  exists (VOid 1), (snd (MongoService.insertDocument doc w)), before, after, wa, wb.
  auto.
Defined.


Lemma get_health_after_failure_witness :
  let w := with_reachable false (sample_world []) in
  just_constructed w /\ reachable w = false /\
  exists w1,
    status (fst (Server.get_health sample_message w)) = 503%N /\
    snd (Server.get_health sample_message w) = w1 /\
    status (fst (Server.get_health sample_message (with_reachable true w1))) = 200%N /\
    status (fst (Server.get_stats (with_reachable true w1))) = 500%N.
Proof.
  intros w. split; [split; reflexivity|]. split; [reflexivity|].
  destruct (get_health_after_failure sample_message w (conj eq_refl eq_refl) eq_refl)
    as [w1 [H1 H2]].
  exists w1. rewrite H1. split; [reflexivity|]. split; [reflexivity|].
  destruct (H2 true) as [H3 [H4 _]]. rewrite H3, H4. split; reflexivity.
Defined.

Lemma cleanText_number_only_witness :
  nfc_fixes_ascii (fun s => s) /\ forallb cls_digit (js "2024") = true /\
  cleanText (fun s => s) (VStr (js "2024")) = [].
Proof.
  split; [exact nfc_identity|]. split; [reflexivity|].
  apply (cleanText_number_only (fun s => s) (js "2024") nfc_identity);
    [discriminate | reflexivity].
Defined.

Lemma key_unused_empty : key_unused (sample_world []).
Proof. constructor. Qed.

Lemma submit_public_record_witness :
  let f := sample_form (js "  Hello   world ") in
  let w := sample_world [] in
  validateForm f = true /\ can_connect w = true /\ key_unused w /\
  prefix_sendable (trim (content_text_field f)) /\
  let '(res, w') :=
    Server.post_insert_document sample_message 600
      (posted_body (PublicScript.createDocumentStructure f sample_host)) w in
  res = {| status := 200; body := Inserted (VOid 0) |} /\
  exists stored, coll w' = [stored] /\
                 has_string "content_text" (js "Hello   world") stored.
Proof.
  intros f w. split; [reflexivity|]. split; [reflexivity|].
  split; [exact key_unused_empty|]. split; [reflexivity|].
  pose proof (submit_public_record sample_message f sample_host w 600
                eq_refl eq_refl key_unused_empty eq_refl) as H.
  cbv zeta in H.
  destruct (Server.post_insert_document sample_message 600 _ w) as [res w'].
  change (json_limit <? 600)%N with false in H. cbv iota in H.
  destruct H as [[[H|H] _]|[_ [Hres [stored [Hcoll [Htext _]]]]]];
    [inversion H | inversion H |].
  split; [exact Hres|]. exists stored. split; [exact Hcoll | exact Htext].
Defined.

Lemma submit_cleaned_record_witness :
  let f := sample_form (js " 2024 ") in
  let w := sample_world [] in
  validateForm f = true /\ can_connect w = true /\ key_unused w /\
  prefix_sendable (cleanText (fun s => s) (VStr (trim (content_text_field f)))) /\
  let '(res, w') :=
    Server.post_insert_document sample_message 600
      (posted_body (CleaningScript.createDocumentStructure (fun s => s) f sample_host)) w in
  status res = 400%N /\ w' = w.
Proof.
  intros f w. split; [reflexivity|]. split; [reflexivity|].
  split; [exact key_unused_empty|]. split; [reflexivity|].
  pose proof (submit_cleaned_record sample_message (fun s => s) f sample_host w 600
                eq_refl eq_refl key_unused_empty eq_refl) as H.
  cbv zeta in H.
  destruct (Server.post_insert_document sample_message 600 _ w) as [res w'].
  change (json_limit <? 600)%N with false in H. cbv iota in H.
  destruct H as [[_ H]|[[Hne _]|[Hne _]]];
    [exact H | exfalso; apply Hne; vm_compute; reflexivity
             | exfalso; apply Hne; vm_compute; reflexivity].
Defined.

Lemma validated_record_fields_witness :
  let f := sample_form (js "Hello world") in
  validateForm f = true /\
  Schema.content_text (PublicScript.createDocumentStructure f sample_host) <> [].
Proof.
  intros f. split; [reflexivity|].
  exact (proj2 (validated_record_fields (fun s => s) f sample_host eq_refl)).
Defined.

Lemma weighting_of_decimal_witness :
  let f := sample_form (js "Hello world") in
  training_weight f = decimal 1 /\
  Schema.weighting (Schema.training_metadata_of
                      (PublicScript.createDocumentStructure f sample_host))
  = Finite 1.
Proof.
  intros f. split; [reflexivity|].
  exact (proj1 (weighting_of_decimal (fun s => s) f sample_host 1 eq_refl)).
Defined.

(** ** Preview and submission *)

Section PageProperties.
Variable foreign_message : error -> string.

(** Submitting a record with a title, an author and a text, twice. *)
Lemma insert_twice data w :
  can_connect w = true ->
  key_unused w ->
  Schema.title (Schema.attribution_of data) <> [] ->
  Schema.author (Schema.attribution_of data) <> [] ->
  Schema.content_text data <> [] ->
  Page.insertDocument foreign_message None w = (NoData, w) /\
  let '(first, w1) := Page.insertDocument foreign_message (Some data) w in
  let '(second, w2) := Page.insertDocument foreign_message (Some data) w1 in
  match first with
  | InsertedNotice insertedId =>
      insertedId = VOid (next_oid w) /\
      (exists stored, coll w1 = coll w ++ [stored] /\
                      has_string "document_id" (Schema.document_id data) stored) /\
      second = ErrorNotice "Document with this ID already exists in corpus" /\
      coll w2 = coll w1
  | _ => coll w1 = coll w
  end.
Proof.
  intros Hc Hkey Ht Ha Hx. split; [reflexivity|].
  unfold Page.insertDocument.
  pose proof (submit_record foreign_message data w Hc Hkey Ht Ha Hx) as H.
  cbv zeta in H.
  destruct (Server.insert_document foreign_message (posted_body data) w)
    as [res w1].
  destruct H as [[Hs [Hcoll _]]|[_ [_ [-> [Hc1 [o [Ho Hcoll]]]]]]].
  - destruct res as [st b]. cbn [status] in Hs.
    assert (Page.response_ok {| status := st; body := b |} = false) as ->
      by (destruct Hs; subst st; reflexivity).
    cbn [body].
    destruct b; cbv beta iota;
      destruct (Server.insert_document foreign_message (posted_body data) w1)
        as [r2 w2];
      destruct (Page.response_ok r2); destruct (body r2); exact Hcoll.
  - unfold Page.response_ok at 1. cbn [status body].
    change ((200 <=? 200)%N && (200 <=? 299)%N) with true. cbv iota.
    assert (id_taken (Schema.document_id data) (coll w1)) as Htaken.
    { unfold id_taken. rewrite Hcoll. apply Exists_app. right. constructor.
      injection Ho as <-. unfold has_string, field.
      change (split_path "document_id") with ["document_id"%string].
      cbn [get_path]. rewrite lookup_set_field_ne by discriminate.
      now rewrite stamped_other by discriminate. }
    destruct (insert_document_record foreign_message w1 _ _ _ _ _ Hc1
                (posted_is_record data) Ht Ha Hx)
      as [o1 [wa [wb [wc [_ [Ha1 [_ [_ [_ [_ [_ Hrun]]]]]]]]]]].
    apply id_taken_found, id_found_find in Htaken. destruct Htaken as [d Hd].
    rewrite Hd in Hrun. rewrite Hrun.
    unfold Page.response_ok. cbn [status body].
    change ((200 <=? 409)%N && (409 <=? 299)%N) with false. cbv iota.
    split; [reflexivity|]. split.
    + eexists. split; [exact Hcoll|]. injection Ho as <-.
      unfold has_string, field.
      change (split_path "document_id") with ["document_id"%string].
      cbn [get_path]. rewrite lookup_set_field_ne by discriminate.
      now rewrite stamped_other by discriminate.
    + split; [reflexivity | exact Ha1].
Qed.

(** X28. With [public/script.js]: once a form that [validateForm]
    accepts has been previewed, the previewed record stays the current
    one when a later form is refused, and it is what the page submits.
    Without a preview nothing is sent.  When the submission is reported
    as inserted, the record was stored last; submitting again (the
    preview is still there) stores nothing and is reported as the error
    of the duplicate id. *)
Theorem page_preview_and_insert f h w :
  validateForm f = true ->
  can_connect w = true ->
  key_unused w ->
  let preview := Page.generatePreview PublicScript.createDocumentStructure in
  let current := preview f h None in
  current = Some (PublicScript.createDocumentStructure f h) /\
  (forall f' h', validateForm f' = false -> preview f' h' current = current) /\
  Page.insertDocument foreign_message None w = (NoData, w) /\
  let '(first, w1) := Page.insertDocument foreign_message current w in
  let '(second, w2) := Page.insertDocument foreign_message current w1 in
  match first with
  | InsertedNotice insertedId =>
      insertedId = VOid (next_oid w) /\
      (exists stored,
         coll w1 = coll w ++ [stored] /\
         has_string "document_id"
           (Schema.document_id (PublicScript.createDocumentStructure f h)) stored) /\
      second = ErrorNotice "Document with this ID already exists in corpus" /\
      coll w2 = coll w1
  | _ => coll w1 = coll w
  end.
Proof.
  intros Hv Hc Hkey preview current.
  assert (current = Some (PublicScript.createDocumentStructure f h)) as Hcur.
  { unfold current, preview, Page.generatePreview. now rewrite Hv. }
  split; [exact Hcur|]. split.
  { intros f' h' Hv'. unfold preview, Page.generatePreview. now rewrite Hv'. }
  rewrite Hcur.
  destruct (validateForm_fields f Hv) as [Ht [Ha [_ Hx]]].
  exact (insert_twice (PublicScript.createDocumentStructure f h) w
           Hc Hkey Ht Ha Hx).
Qed.
End PageProperties.

Lemma page_preview_and_insert_witness :
  let f := sample_form (js "Hello world") in
  let w := sample_world [] in
  validateForm f = true /\ can_connect w = true /\ key_unused w /\
  let current :=
    Page.generatePreview PublicScript.createDocumentStructure f sample_host None in
  let '(first, w1) := Page.insertDocument sample_message current w in
  let '(second, w2) := Page.insertDocument sample_message current w1 in
  first = InsertedNotice (VOid 0) /\
  second = ErrorNotice "Document with this ID already exists in corpus" /\
  length (coll w2) = 1.
Proof.
  intros f w. split; [reflexivity|]. split; [reflexivity|].
  split; [exact key_unused_empty|].
  pose proof (page_preview_and_insert sample_message f sample_host w
                eq_refl eq_refl key_unused_empty) as H.
  cbv zeta in H. destruct H as [_ [_ [_ H]]]. cbv zeta.
  destruct (Page.insertDocument sample_message _ w) as [first w1] eqn:E1.
  assert (first = InsertedNotice (VOid 0)) as ->.
  { apply (f_equal fst) in E1. vm_compute in E1. now symmetry. }
  destruct (Page.insertDocument sample_message _ w1) as [second w2].
  destruct H as [_ [[stored [Hcoll _]] [H2 H3]]].
  split; [reflexivity|]. split; [exact H2|]. now rewrite H3, Hcoll.
Defined.

Lemma listing_fails_after_insert_witness :
  let o := [("document_id", VStr (js "doc-9"));
            ("content_text", VStr (js "Some text"));
            ("attribution",
             VObj [("title", VStr (js "Title")); ("author", VStr (js "Author"))])] in
  let w := sample_world [] in
  lookup_field "training_metadata" o = None /\
  Server.query_limit None = Finite 10 /\
  length (coll w) < Z.to_nat 10 /\
  let '(res, w1) := Server.insert_document sample_message (VObj o) w in
  status res = 200%N /\ status (fst (Server.get_documents None w1)) = 500%N.
Proof.
  intros o w. split; [reflexivity|]. split; [reflexivity|].
  split; [cbn; lia|].
  pose proof (listing_fails_after_insert sample_message w o None 10
                eq_refl eq_refl ltac:(lia) ltac:(cbn; lia)) as H.
  destruct (Server.insert_document sample_message (VObj o) w) as [res w1] eqn:E.
  assert (status res = 200%N) as Hs.
  { apply (f_equal fst) in E. cbn [fst] in E. rewrite <- E. vm_compute. reflexivity. }
  split; [exact Hs|]. now rewrite (H Hs).
Defined.
